(** * storj: peer identity, peer-certificate verification and bandwidth agreements

    A shallow embedding of
    - [pkg/peertls] (VerifyPeerFunc, VerifyCAWhitelist, NewCert,
      VerifyUnrevokedChainFunc),
    - [pkg/identity] (NodeIDFromKey, PeerIdentityFromContext, GenerateKey,
      GenerateKeys, NewCA),
    - [pkg/bwagreement] (Server.BandwidthAgreements, Server.verifySignature),
    followed by the properties proved about them.

    Conventions.  A Go function returning [(v, err)] is a pair whose second
    component is an [option error] ([None] is Go's [nil]).  A pointer that
    may be [nil] is an [option].  Code that can panic lives in [Go.exec].
    Calls into other packages (crypto, protobuf, the stores, the clock) are
    fields of the interface classes below. *)

From Stdlib Require Import ZArith List String Ascii Bool Lia.
From Stdlib.Strings Require Import Byte.
#[warning="-stdlib-vector"] From Stdlib Require Vector.
Import ListNotations.
Local Open Scope string_scope.
Local Open Scope list_scope.
Local Open Scope Z_scope.

Set Implicit Arguments.

(* ================================================================== *)
(** * Part I: the model *)
(* ================================================================== *)

(** ** The Go runtime: panics, slices, indexing *)

Module Go.

Inductive panic : Type :=
| NilDereference          (* invalid memory address or nil pointer dereference *)
| IndexOutOfRange         (* index out of range *)
| BadTypeAssertion        (* interface conversion *)
| MakeChanSizeOutOfRange. (* makechan: size out of range *)

Inductive exec (A : Type) : Type :=
| Returns (a : A)
| Panics (p : panic).
Arguments Panics {A} p.

Definition bind {A B} (m : exec A) (k : A -> exec B) : exec B :=
  match m with
  | Returns a => k a
  | Panics p => Panics p
  end.

(** A slice is [nil] ([None]) or backed by elements; [range] over a nil
    slice runs zero times. *)
Definition slice (A : Type) := option (list A).

Definition elems {A} (s : slice A) : list A :=
  match s with None => [] | Some l => l end.

(** [l[i]] *)
Definition index {A} (l : list A) (i : nat) : exec A :=
  match nth_error l i with
  | Some a => Returns a
  | None => Panics IndexOutOfRange
  end.

(** [p.f] through a pointer [p] *)
Definition deref {A} (p : option A) : exec A :=
  match p with
  | Some a => Returns a
  | None => Panics NilDereference
  end.

Definition bytes := list byte.

(** [bytes.Equal] *)
Definition bytes_Equal (a b : bytes) : bool :=
  if list_eq_dec Byte.byte_eq_dec a b then true else false.

(** [strings.Contains] *)
Fixpoint strings_Contains (s substr : string) : bool :=
  if String.prefix substr s then true
  else match s with
       | EmptyString => false
       | String _ s' => strings_Contains s' substr
       end.

(** [big.Int.BitLen]: the length of the absolute value in bits. *)
Definition BitLen (z : Z) : Z :=
  if Z.abs z =? 0 then 0 else Z.log2 (Z.abs z) + 1.

(** [time.Time], as its wall-clock seconds and nanoseconds. *)
Record Time : Type := { unix_sec : Z; nsec : Z }.

(** [time.Unix(sec, 0).UTC()] *)
Definition time_Unix (sec : Z) : Time := {| unix_sec := sec; nsec := 0 |}.

(** [t.Before(u)] *)
Definition Before (t u : Time) : bool :=
  (unix_sec t <? unix_sec u)
  || ((unix_sec t =? unix_sec u) && (nsec t <? nsec u)).

End Go.

(** State threaded through code that may panic. *)
Definition M (W A : Type) : Type := W -> W * Go.exec A.

Definition ret {W A} (a : A) : M W A := fun w => (w, Go.Returns a).

Definition bindM {W A B} (m : M W A) (k : A -> M W B) : M W B :=
  fun w =>
    match m w with
    | (w', Go.Returns a) => k a w'
    | (w', Go.Panics p) => (w', Go.Panics p)
    end.

Definition lift {W A} (e : Go.exec A) : M W A := fun w => (w, e).

Declare Scope go_scope.
Delimit Scope go_scope with go.
Notation "x <- m ;; k" := (bindM m (fun x => k))
  (at level 61, m at next level, right associativity) : go_scope.
Notation "' pat <- m ;; k" := (bindM m (fun x => match x with pat => k end))
  (at level 61, pat pattern, m at next level, right associativity) : go_scope.

(** ** github.com/zeebo/errs *)

Module errs.

(** [type Class string] *)
Definition Class := string.

(** An error is a message from another package, an unrendered
    [format, args...] message, or an error tagged with a class. *)
Inductive error : Type :=
| Opaque (text : string)
| Message (format : string) (args : list value)
| Classed (c : Class) (cause : error)
with value : Type :=
| VBytes (b : Go.bytes)
| VInt (z : Z)
| VBool (b : bool)
| VType (name : string)
| VTime (t : Go.Time)
| VErr (e : option error).

(** [c.New(format, args...)] *)
Definition New (c : Class) (format : string) (args : list value) : option error :=
  Some (Classed c (Message format args)).

(** [c.Wrap(err)]: nil stays nil. *)
Definition Wrap (c : Class) (err : option error) : option error :=
  match err with
  | None => None
  | Some e => Some (Classed c e)
  end.

(** [errs.Wrap(err)] only attaches a stack trace. *)
Definition Wrap0 (err : option error) : option error := err.

(** [c.Has(err)] *)
Fixpoint Has (c : Class) (e : error) : bool :=
  match e with
  | Classed c' e' => String.eqb c c' || Has c e'
  | _ => false
  end.

(** The innermost error, below every class tag. *)
Fixpoint root (e : error) : error :=
  match e with
  | Classed _ e' => root e'
  | _ => e
  end.

(** [err.Error()], given [fmt.Sprintf]. *)
Fixpoint Error (Sprintf : string -> list value -> string) (e : error) : string :=
  match e with
  | Opaque text => text
  | Message format args => Sprintf format args
  | Classed c e' => (c ++ ": " ++ Error Sprintf e')%string
  end.

End errs.

Import errs.

Inductive result (A : Type) : Type :=
| Ok (a : A)
| Err (e : error).
Arguments Err {A} e.

(** ** Keys, node IDs and certificates *)

(** [elliptic.CurveParams], [ecdsa.PublicKey], [ecdsa.PrivateKey] *)
Record Curve : Type := { P : Z; N : Z; BitSize : Z; Name : string }.
Record ecdsa_PublicKey : Type := { PubCurve : Curve; X : Z; Y : Z }.
Record ecdsa_PrivateKey : Type := { PublicKey_of : ecdsa_PublicKey; D : Z }.

(** [crypto.PublicKey] is [interface{}]: an ECDSA key or a value of some
    other dynamic type (named as [%T] prints it). *)
Inductive crypto_PublicKey : Type :=
| PubECDSA (k : ecdsa_PublicKey)
| PubOther (type_name : string).

(** [storj.NodeID] is an array of 32 bytes. *)
Definition NodeID : Type := Vector.t byte 32.

Definition NodeID_zero : NodeID := Vector.const x00 32.

Definition NodeID_Bytes (id : NodeID) : Go.bytes := Vector.to_list id.

Definition NodeID_eqb (a b : NodeID) : bool :=
  Go.bytes_Equal (NodeID_Bytes a) (NodeID_Bytes b).

(** The fields of [x509.Certificate] this code reads. *)
Record Certificate : Type := {
  Raw : Go.bytes;
  PublicKey : crypto_PublicKey
}.

(** ** pkg/peertls *)

Module peertls.

(** The error classes declared next to [VerifyPeerFunc]. *)
Definition ErrNotExist : Class := "file or directory not found error".
Definition ErrGenerate : Class := "tls generation error".
Definition ErrTLSTemplate : Class := "tls template error".
Definition ErrVerifyPeerCert : Class := "tls peer certificate verification error".
Definition ErrVerifyCertificateChain : Class :=
  "certificate chain signature verification failed".
Definition ErrVerifyCAWhitelist : Class := "not signed by any CA in the whitelist".

(** Modelled from the spec: the chain layout constants of pkg/peertls,
    declared in another file of the package (index 0 = leaf, index 1 = CA). *)
Definition LeafIndex : nat := 0.
Definition CAIndex : nat := 1.

(** Modelled from the spec: the error kinds [ExtensionError],
    [RevokedCert] and [UnsupportedKey] of pkg/peertls, declared in another
    file of the package. *)
Definition ErrExtension : Class := "ExtensionError".
Definition ErrRevocation : Class := "Revocation".
Definition ErrRevokedCert : option error := New ErrRevocation "RevokedCert" [].
Definition ErrUnsupportedKey : Class := "UnsupportedKey".

(** A revocation record. *)
Record Revocation : Type := {
  Timestamp : Z;
  CertHash : Go.bytes;
  Signature : Go.bytes
}.

(** What this package calls and does not define next to the verifiers:
    parsing and signature checks ... *)
Class Crypto : Type := {
  (** [pkcrypto.CertsFromDER] *)
  CertsFromDER : list Go.bytes -> result (list Certificate);
  (** [pkcrypto.CertFromDER] *)
  CertFromDER : Go.bytes -> result Certificate;
  (** [pkcrypto.PublicKeyFromPrivate], on a [crypto.PrivateKey] that may
      be nil *)
  PublicKeyFromPrivate : option ecdsa_PrivateKey -> option crypto_PublicKey;
  (** [verifyCertSignature(parent, child)] *)
  verifyCertSignature : Certificate -> Certificate -> option error
}.

(** ... and the revocation store.  [W] is the state of the outside
    world; the store is read, and a record is verified, by a transition
    on it. *)
Class Store (W : Type) : Type := {
  (** [RevocationDB] and its [Get] *)
  RevocationDB : Type;
  RevocationDB_Get :
    RevocationDB -> list Certificate -> W -> W * (option Revocation * option error);
  (** [Revocation.Verify(signingCert)] *)
  Revocation_Verify : Revocation -> Certificate -> W -> W * option error
}.

Section NewCert.
Context `{C : Crypto}.

(** [NewCert]; [x509.CreateCertificate] draws on [rand.Reader], so its
    outcome for the given arguments is an argument here. *)
Definition NewCert
           (CreateCertificate :
              Certificate -> Certificate -> option crypto_PublicKey ->
              option ecdsa_PrivateKey -> result Go.bytes)
           (key parentKey : option ecdsa_PrivateKey)
           (template : Certificate) (parent : option Certificate)
  : option Certificate * option error :=
  let signingKey := match parentKey with Some _ => parentKey | None => key end in
  let parent := match parent with Some p => p | None => template end in
  match CreateCertificate template parent (PublicKeyFromPrivate key) signingKey with
  | Err err => (None, Wrap0 (Some err))
  | Ok cb =>
      match CertFromDER cb with
      | Err err => (None, Wrap0 (Some err))
      | Ok cert => (Some cert, None)
      end
  end.

End NewCert.

Section Verifiers.
Context {W : Type} `{C : Crypto} `{R : Store W}.
Local Open Scope go_scope.

(** [type PeerCertVerificationFunc]: from the raw chain and the parsed
    chains to an error; a func value may be nil. *)
Definition PeerCertVerificationFunc : Type :=
  list Go.bytes -> list (list Certificate) -> M W (option error).

(** The [for _, n := range next] loop of [VerifyPeerFunc]. *)
Fixpoint VerifyPeerFunc_loop (next : list (option PeerCertVerificationFunc))
         (chain : list Go.bytes) (c : list Certificate) : M W (option error) :=
  match next with
  | [] => ret None
  | n :: rest =>
      match n with
      | Some f =>
          err <- f chain [c] ;;
          match err with
          | Some _ => ret (Wrap ErrVerifyPeerCert err)
          | None => VerifyPeerFunc_loop rest chain c
          end
      | None => VerifyPeerFunc_loop rest chain c
      end
  end.

Definition VerifyPeerFunc (next : list (option PeerCertVerificationFunc))
  : PeerCertVerificationFunc :=
  fun chain _ =>
    match CertsFromDER chain with
    | Err err => ret (Wrap ErrVerifyPeerCert (Some err))
    | Ok c => VerifyPeerFunc_loop next chain c
    end.

(** The [for _, ca := range cas] loop of [VerifyCAWhitelist]. *)
Fixpoint VerifyCAWhitelist_loop (cas : list Certificate)
         (parsedChains : list (list Certificate)) : M W (option error) :=
  match cas with
  | [] => ret (New ErrVerifyCAWhitelist "CA cert" [])
  | ca :: rest =>
      chain0 <- lift (Go.index parsedChains 0) ;;
      child <- lift (Go.index chain0 CAIndex) ;;
      match verifyCertSignature ca child with
      | None => ret None
      | Some _ => VerifyCAWhitelist_loop rest parsedChains
      end
  end.

Definition VerifyCAWhitelist (cas : Go.slice Certificate)
  : option PeerCertVerificationFunc :=
  match cas with
  | None => None
  | Some l => Some (fun _ parsedChains => VerifyCAWhitelist_loop l parsedChains)
  end.

Definition VerifyUnrevokedChainFunc (revDB : RevocationDB)
  : PeerCertVerificationFunc :=
  fun _ chains =>
    chain0 <- lift (Go.index chains 0) ;;
    leaf <- lift (Go.index chain0 LeafIndex) ;;
    ca <- lift (Go.index chain0 CAIndex) ;;
    r <- (fun w => let (w', r) := RevocationDB_Get revDB chain0 w in
                   (w', Go.Returns r)) ;;
    let (lastRev, lastRevErr) := r in
    match lastRevErr with
    | Some _ => ret (Wrap ErrExtension lastRevErr)
    | None =>
        match lastRev with
        | None => ret None
        | Some rev =>
            if Go.bytes_Equal (CertHash rev) (Raw ca)
               || Go.bytes_Equal (CertHash rev) (Raw leaf)
            then
              lastRevErr <- (fun w => let (w', e) := Revocation_Verify rev ca w in
                                      (w', Go.Returns e)) ;;
              match lastRevErr with
              | Some _ => ret (Wrap ErrExtension lastRevErr)
              | None => ret ErrRevokedCert
              end
            else ret None
        end
    end.

End Verifiers.

(** *** The rest of the file of [VerifyPeerFunc] *)

(** [verifyChainSignatures], which [VerifyPeerCertChains] calls. *)
Class ChainCheck : Type := {
  verifyChainSignatures : list Certificate -> option error
}.

Section ChainVerifier.
Context {W : Type} `{K : ChainCheck}.
Local Open Scope go_scope.

Definition VerifyPeerCertChains : @PeerCertVerificationFunc W :=
  fun _ parsedChains =>
    chain0 <- lift (Go.index parsedChains 0) ;;
    ret (verifyChainSignatures chain0).

End ChainVerifier.

(** [tls.Certificate] *)
Record tls_Certificate : Type := {
  tls_Leaf : option Certificate;
  tls_Certificate_chain : list Go.bytes;
  tls_PrivateKey : option ecdsa_PrivateKey
}.

Section TLSCert.
Context `{C : Crypto}.

Definition TLSCert (chain : list Go.bytes) (leaf : option Certificate)
           (key : option ecdsa_PrivateKey)
  : Go.exec (option tls_Certificate * option error) :=
  let finish (leaf : option Certificate) :=
    Go.Returns (Some {| tls_Leaf := leaf; tls_Certificate_chain := chain;
                        tls_PrivateKey := key |}, None) in
  match leaf with
  | None =>
      Go.bind (Go.index chain 0) (fun der =>
        match CertFromDER der with
        | Err err => Go.Returns (None, Some err)
        | Ok leaf => finish (Some leaf)
        end)
  | Some _ => finish leaf
  end.

End TLSCert.

(** What [WriteChain] calls: the PEM writers of pkg/pkcrypto, acting on
    the writer [W]; the [ExtraExtensions] of a certificate; and
    [utils.ErrorGroup], of which [ErrorGroup_Finish] is [Finish] after the
    given errors were added. *)
Class PEM (W : Type) : Type := {
  Extension : Type;
  ExtraExtensions : Certificate -> list Extension;
  WriteCertPEM : Certificate -> W -> W * option error;
  WritePKIXExtensionPEM : Extension -> W -> W * option error;
  ErrorGroup_Finish : list error -> option error
}.

Section WriteChain.
Context {W : Type} `{PW : PEM W}.

(** The loop over [c.ExtraExtensions]: a failed write is added to the
    group and the loop goes on. *)
Fixpoint WriteChain_extensions (exts : list Extension) (extErrs : list error) (w : W)
  : W * list error :=
  match exts with
  | [] => (w, extErrs)
  | e :: rest =>
      match WritePKIXExtensionPEM e w with
      | (w1, Some err) => WriteChain_extensions rest (extErrs ++ [err]) w1
      | (w1, None) => WriteChain_extensions rest extErrs w1
      end
  end.

(** The loop over the chain: a failed certificate write returns. *)
Fixpoint WriteChain_loop (chain : list Certificate) (extErrs : list error) (w : W)
  : W * option error :=
  match chain with
  | [] => (w, ErrorGroup_Finish extErrs)
  | c :: rest =>
      match WriteCertPEM c w with
      | (w1, Some err) => (w1, Wrap0 (Some err))
      | (w1, None) =>
          let (w2, extErrs') := WriteChain_extensions (ExtraExtensions c) extErrs w1 in
          WriteChain_loop rest extErrs' w2
      end
  end.

Definition WriteChain (chain : list Certificate) (w : W) : W * option error :=
  if (List.length chain <? 1)%nat then
    (w, Some (Message "expected at least one certificate for writing" []))
  else WriteChain_loop chain [] w.

End WriteChain.

(** [ChainBytes]: [WriteChain] into a fresh [bytes.Buffer]. *)
Definition ChainBytes `{PB : PEM Go.bytes} (chain : list Certificate)
  : Go.bytes * option error :=
  WriteChain chain [].

End peertls.

(** ** pkg/identity: node IDs and peer identities *)

Module identity.

(** What this package calls and does not define itself. *)
Class Env : Type := {
  (** [storj.ErrNodeID] and the package's own [Error] class *)
  ErrNodeID : Class;
  Error : Class;
  (** [x509.MarshalPKIXPublicKey] on an ECDSA key *)
  MarshalPKIXPublicKey : ecdsa_PublicKey -> result Go.bytes;
  (** [sha256.Sum256] *)
  Sum256 : Go.bytes -> Vector.t byte 32;
  (** [storj.NodeID.Difficulty], a [uint16] or an error *)
  Difficulty : NodeID -> result Z
}.

(** [credentials.AuthInfo]: the TLS info with the peer's parsed
    certificates, or a value of another dynamic type. *)
Inductive AuthInfo : Type :=
| TLSInfo (PeerCertificates : list Certificate)
| OtherAuthInfo.

(** [peer.Peer] *)
Record Peer : Type := { Peer_AuthInfo : AuthInfo }.

(** What a [context.Context] holds for this package: the gRPC peer, if
    any ([peer.FromContext]). *)
Record Context : Type := { peer_FromContext : option Peer }.

Record PeerIdentity : Type := {
  RestChain : list Certificate;
  CA : Certificate;
  Leaf : Certificate;
  ID : NodeID
}.

Section NodeIDs.
Context `{E : Env}.

(** id = sha256(sha256(pkix(k))) *)
Definition NodeIDFromECDSAKey (k : ecdsa_PublicKey) : NodeID * option error :=
  match MarshalPKIXPublicKey k with
  | Err err => (NodeID_zero, Wrap ErrNodeID (Some err))
  | Ok kb =>
      let mid := Sum256 kb in
      let end_ := Sum256 (Vector.to_list mid) in
      (end_, None)
  end.

Definition NodeIDFromKey (k : crypto_PublicKey) : NodeID * option error :=
  match k with
  | PubECDSA ek => NodeIDFromECDSAKey ek
  | PubOther t => (NodeID_zero, New ErrNodeID "invalid key type: %T" [VType t])
  end.

Definition PeerIdentityFromCerts (leaf ca : Certificate) (rest : list Certificate)
  : option PeerIdentity * option error :=
  match NodeIDFromKey (PublicKey ca) with
  | (_, Some err) => (None, Some err)
  | (i, None) =>
      (Some {| RestChain := rest; CA := ca; ID := i; Leaf := leaf |}, None)
  end.

Definition PeerIdentityFromPeer (peer : Peer)
  : Go.exec (option PeerIdentity * option error) :=
  match Peer_AuthInfo peer with
  | OtherAuthInfo => Go.Panics Go.BadTypeAssertion
  | TLSInfo c =>
      if (List.length c <? 2)%nat then
        Go.Returns (None, New Error "invalid certificate chain" [])
      else
        Go.bind (Go.index c peertls.LeafIndex) (fun leaf =>
        Go.bind (Go.index c peertls.CAIndex) (fun ca =>
          match PeerIdentityFromCerts leaf ca (skipn 2 c) with
          | (_, Some err) => Go.Returns (None, Some err)
          | (pi, None) => Go.Returns (pi, None)
          end))
  end.

Definition PeerIdentityFromContext (ctx : Context)
  : Go.exec (option PeerIdentity * option error) :=
  match peer_FromContext ctx with
  | None => Go.Returns (None, New Error "unable to get grpc peer from contex" [])
  | Some p => PeerIdentityFromPeer p
  end.

End NodeIDs.

(** *** The key generator

    [GenerateKeys] starts [concurrency] goroutines that share a context, a
    channel and whatever the callback touches.  The model is an
    interleaving of atomic steps: a goroutine runs from one access to
    shared state (the context, the channel, the callback's variables) to
    the next, and a schedule is a list of events naming who moves.  What
    the outside supplies (a cancellation, the key the random source
    yields) comes with the event. *)

(** [ctx.Err()] when it is not nil *)
Inductive ctx_error : Type := Canceled | DeadlineExceeded.

Definition ctx_error_value (r : ctx_error) : error :=
  match r with
  | Canceled => Opaque "context canceled"
  | DeadlineExceeded => Opaque "context deadline exceeded"
  end.

(** The outcome of one turn of the loop of [GenerateKey]. *)
Inductive iteration : Type :=
| Again
| Found (k : ecdsa_PrivateKey) (id : NodeID)
| Failed (err : option error).

Section GenerateKey.
Context `{E : Env}.

(** One turn of the loop of [GenerateKey] after [ctx.Err()] was nil:
    [gen] is what [pkcrypto.GeneratePrivateKey()] returns.  On a
    failure the function returns [storj.ErrNodeID.Wrap(err)]. *)
Definition GenerateKey_body (minDifficulty : Z) (gen : result ecdsa_PrivateKey)
  : iteration :=
  match gen with
  | Err err => Failed (Wrap ErrNodeID (Some err))
  | Ok k =>
      match NodeIDFromECDSAKey (PublicKey_of k) with
      | (_, Some err) => Failed (Wrap ErrNodeID (Some err))
      | (id, None) =>
          match Difficulty id with
          | Err err => Failed (Wrap ErrNodeID (Some err))
          | Ok d => if d >=? minDifficulty then Found k id else Again
          end
      end
  end.

(** The top of the loop: [err = ctx.Err(); if err != nil { break }]. *)
Definition GenerateKey_check (ctx_Err : option ctx_error) : option (option error) :=
  match ctx_Err with
  | Some r => Some (Wrap ErrNodeID (Some (ctx_error_value r)))
  | None => None
  end.

End GenerateKey.

(** A [GenerateCallback] over shared variables [S]: a program whose
    points are [cb_pc]; a step from a point either blocks ([None]), moves
    to another point, or returns [(done, err)]. *)
Record GenerateCallback (S : Type) : Type := {
  cb_pc : Type;
  cb_enter : cb_pc;
  cb_step : ecdsa_PrivateKey -> NodeID -> cb_pc -> S ->
            option (S * (cb_pc + bool * option error))
}.

(** Where a worker goroutine of [GenerateKeys] stands. *)
Inductive worker (pc : Type) : Type :=
| AtLoopHead                                         (* about to read ctx.Err() *)
| AtGenerate                                         (* about to generate a key *)
| InCallback (k : ecdsa_PrivateKey) (id : NodeID) (at_ : pc)  (* in found(k, id) *)
| AtSend (err : option error)                        (* about to send on errchan *)
| Exited.
Arguments AtLoopHead {pc}.
Arguments AtGenerate {pc}.
Arguments AtSend {pc} err.
Arguments Exited {pc}.

Record system (S pc : Type) : Type := {
  ctx_Err : option ctx_error;       (* of the context derived by WithCancel *)
  capacity : nat;                   (* of errchan *)
  errchan : list (option error);    (* the buffered values, oldest first *)
  workers : list (worker pc);
  shared : S;
  returned : option (option error)  (* what GenerateKeys returned, once it has *)
}.

Inductive event : Type :=
| Cancel (reason : ctx_error)                  (* the caller's context ends *)
| Worker (i : nat) (gen : result ecdsa_PrivateKey)  (* worker i moves *)
| Receive.                                     (* the caller's goroutine moves *)

Fixpoint set_nth {A} (l : list A) (i : nat) (a : A) : list A :=
  match l, i with
  | [], _ => []
  | _ :: l', O => a :: l'
  | x :: l', S i' => x :: set_nth l' i' a
  end.

Section GenerateKeys.
Context `{E : Env} {S : Type} (found : GenerateCallback S).
Variable minDifficulty : Z.

Let sys : Type := system S (cb_pc found).
Let wrk : Type := worker (cb_pc found).

Definition with_worker (s : sys) (i : nat) (w : wrk) : sys :=
  {| ctx_Err := ctx_Err s; capacity := capacity s; errchan := errchan s;
     workers := set_nth (workers s) i w; shared := shared s;
     returned := returned s |}.

Definition with_shared (s : sys) (sh : S) : sys :=
  {| ctx_Err := ctx_Err s; capacity := capacity s; errchan := errchan s;
     workers := workers s; shared := sh; returned := returned s |}.

(** The goroutine body, one atomic step at a time. *)
Definition worker_step (i : nat) (gen : result ecdsa_PrivateKey) (s : sys)
  : option sys :=
  match nth_error (workers s) i with
  | None => None
  | Some AtLoopHead =>
      match GenerateKey_check (ctx_Err s) with
      | Some err => Some (with_worker s i (AtSend err))
      | None => Some (with_worker s i AtGenerate)
      end
  | Some AtGenerate =>
      match GenerateKey_body minDifficulty gen with
      | Again => Some (with_worker s i AtLoopHead)
      | Found k id => Some (with_worker s i (InCallback k id (cb_enter found)))
      | Failed err => Some (with_worker s i (AtSend err))
      end
  | Some (InCallback k id pc) =>
      match cb_step found k id pc (shared s) with
      | None => None
      | Some (sh, inl pc') =>
          Some (with_worker (with_shared s sh) i (InCallback k id pc'))
      | Some (sh, inr (done, err)) =>
          match err with
          | Some _ => Some (with_worker (with_shared s sh) i (AtSend err))
          | None =>
              if done then Some (with_worker (with_shared s sh) i (AtSend None))
              else Some (with_worker (with_shared s sh) i AtLoopHead)
          end
      end
  | Some (AtSend err) =>
      if (List.length (errchan s) <? capacity s)%nat then
        Some {| ctx_Err := ctx_Err s; capacity := capacity s;
                errchan := errchan s ++ [err];
                workers := set_nth (workers s) i Exited; shared := shared s;
                returned := returned s |}
      else None
  | Some Exited => None
  end.

(** [return <-errchan], then the deferred [cancel()]. *)
Definition receive_step (s : sys) : option sys :=
  match returned s, errchan s with
  | None, v :: rest =>
      Some {| ctx_Err := match ctx_Err s with
                         | None => Some Canceled
                         | Some r => Some r
                         end;
              capacity := capacity s; errchan := rest; workers := workers s;
              shared := shared s; returned := Some v |}
  | _, _ => None
  end.

Definition cancel_step (r : ctx_error) (s : sys) : option sys :=
  Some {| ctx_Err := match ctx_Err s with
                     | None => Some r
                     | Some r' => Some r'
                     end;
          capacity := capacity s; errchan := errchan s; workers := workers s;
          shared := shared s; returned := returned s |}.

Definition step (ev : event) (s : sys) : option sys :=
  match ev with
  | Cancel r => cancel_step r s
  | Worker i gen => worker_step i gen s
  | Receive => receive_step s
  end.

Fixpoint run (evs : list event) (s : sys) : option sys :=
  match evs with
  | [] => Some s
  | ev :: evs' =>
      match step ev s with
      | Some s' => run evs' s'
      | None => None
      end
  end.

(** The states a run passes through, each with the event taken there. *)
Fixpoint history (evs : list event) (s : sys) : list (sys * event) :=
  match evs with
  | [] => []
  | ev :: evs' =>
      match step ev s with
      | Some s' => (s, ev) :: history evs' s'
      | None => []
      end
  end.


(** What the callback returns at a step, if the step is its return. *)
Definition callback_returned (se : sys * event) : option (bool * option error) :=
  match se with
  | (s, Worker i _) =>
      match nth_error (workers s) i with
      | Some (InCallback k id pc) =>
          match cb_step found k id pc (shared s) with
          | Some (_, inr r) => Some r
          | _ => None
          end
      | _ => None
      end
  | _ => None
  end.

Definition collect {A B} (f : A -> option B) (l : list A) : list B :=
  flat_map (fun a => match f a with Some b => [b] | None => [] end) l.

(** [GenerateKeys] up to the point where its goroutines run:
    [ctx0] is [ctx.Err()] of the caller's context at the call. *)
Definition GenerateKeys_start (ctx0 : option ctx_error) (concurrency : Z) (sh : S)
  : Go.exec sys :=
  if concurrency <? 0 then Go.Panics Go.MakeChanSizeOutOfRange
  else Go.Returns
         {| ctx_Err := ctx0; capacity := Z.to_nat concurrency; errchan := [];
            workers := repeat AtLoopHead (Z.to_nat concurrency);
            shared := sh; returned := None |}.

End GenerateKeys.

(** *** NewCA *)

Definition minimumLoggableDifficulty : Z := 8.

(** [NewCAOptions]; of [Logger] only whether it is nil matters, what is
    written to it is collected in [logged] below. *)
Record NewCAOptions : Type := {
  opt_Difficulty : Z;                   (* uint16 *)
  opt_Concurrency : Z;                  (* uint *)
  ParentCert : option Certificate;
  ParentKey : option ecdsa_PrivateKey;
  Logger : bool
}.

Record FullCertificateAuthority : Type := {
  CA_RestChain : Go.slice Certificate;
  CA_Cert : option Certificate;
  CA_ID : NodeID;
  CA_Key : option ecdsa_PrivateKey
}.

(** What [NewCA] calls besides the generator. *)
Class CAEnv : Type := {
  (** [peertls.CATemplate()] *)
  CATemplate : result Certificate;
  (** [x509.CreateCertificate(rand.Reader, template, parent, pub, priv)] *)
  x509_CreateCertificate :
    Certificate -> Certificate -> option crypto_PublicKey ->
    option ecdsa_PrivateKey -> result Go.bytes
}.

Inductive log_line : Type :=
| LogGenerating (difficulty : Z)
| LogStatus (count hs : Z)
| LogFound (difficulty : Z).

(** The variables of [NewCA] that its callback closes over. *)
Record ca_shared : Type := {
  highscore : Z;                          (* *uint32, atomic *)
  counter : Z;                            (* i, *uint32, atomic *)
  mu : bool;                              (* sync.Mutex: locked? *)
  selectedKey : option ecdsa_PrivateKey;
  selectedID : NodeID;
  logged : list log_line
}.

(** The points of the callback of [NewCA] between which other
    goroutines may run. *)
Inductive ca_pc : Type :=
| CbEnter                      (* the counter, id.Difficulty(), the floor *)
| CbLock (difficulty : Z)      (* mu.Lock() *)
| CbSelect (difficulty : Z)    (* if selectedKey == nil { ... } *)
| CbUnlock (difficulty : Z)    (* mu.Unlock() *)
| CbFound (difficulty : Z)     (* the log lines; return true, nil *)
| CbLoad (difficulty : Z)      (* hs := atomic.LoadUint32(highscore) *)
| CbCAS (difficulty hs : Z).   (* atomic.CompareAndSwapUint32 *)

Section NewCA.
Context `{E : Env} `{C : peertls.Crypto} `{CE : CAEnv}.
Variable opts : NewCAOptions.

Definition updateStatus (sh : ca_shared) : ca_shared :=
  if Logger opts then
    {| highscore := highscore sh; counter := counter sh; mu := mu sh;
       selectedKey := selectedKey sh; selectedID := selectedID sh;
       logged := logged sh ++ [LogStatus (counter sh) (highscore sh)] |}
  else sh.

Definition set_highscore (sh : ca_shared) (hs : Z) : ca_shared :=
  {| highscore := hs; counter := counter sh; mu := mu sh;
     selectedKey := selectedKey sh; selectedID := selectedID sh;
     logged := logged sh |}.

Definition set_mu (sh : ca_shared) (b : bool) : ca_shared :=
  {| highscore := highscore sh; counter := counter sh; mu := b;
     selectedKey := selectedKey sh; selectedID := selectedID sh;
     logged := logged sh |}.

Definition add_counter (sh : ca_shared) : ca_shared :=
  {| highscore := highscore sh; counter := (counter sh + 1) mod 2 ^ 32;
     mu := mu sh; selectedKey := selectedKey sh; selectedID := selectedID sh;
     logged := logged sh |}.

Definition select (sh : ca_shared) (k : ecdsa_PrivateKey) (id : NodeID) : ca_shared :=
  {| highscore := highscore sh; counter := counter sh; mu := mu sh;
     selectedKey := Some k; selectedID := id; logged := logged sh |}.

Definition log (sh : ca_shared) (l : log_line) : ca_shared :=
  {| highscore := highscore sh; counter := counter sh; mu := mu sh;
     selectedKey := selectedKey sh; selectedID := selectedID sh;
     logged := logged sh ++ [l] |}.

(** The callback handed to [GenerateKeys]. *)
Definition NewCA_found_step (k : ecdsa_PrivateKey) (id : NodeID) (pc : ca_pc)
           (sh : ca_shared)
  : option (ca_shared * (ca_pc + bool * option error)) :=
  match pc with
  | CbEnter =>
      let sh :=
        if Logger opts then
          let sh := add_counter sh in
          if counter sh mod 100 =? 0 then updateStatus sh else sh
        else sh in
      match Difficulty id with
      | Err err => Some (sh, inr (false, Some err))
      | Ok difficulty =>
          if difficulty >=? opt_Difficulty opts
          then Some (sh, inl (CbLock difficulty))
          else Some (sh, inl (CbLoad difficulty))
      end
  | CbLock difficulty =>
      if mu sh then None
      else Some (set_mu sh true, inl (CbSelect difficulty))
  | CbSelect difficulty =>
      match selectedKey sh with
      | None => Some (select (updateStatus sh) k id, inl (CbUnlock difficulty))
      | Some _ => Some (sh, inl (CbUnlock difficulty))
      end
  | CbUnlock difficulty =>
      Some (set_mu sh false, inl (CbFound difficulty))
  | CbFound difficulty =>
      let sh :=
        if Logger opts then
          log (updateStatus (set_highscore sh difficulty)) (LogFound difficulty)
        else sh in
      Some (sh, inr (true, None))
  | CbLoad difficulty =>
      let hs := highscore sh in
      if difficulty <=? hs then Some (sh, inr (false, None))
      else Some (sh, inl (CbCAS difficulty hs))
  | CbCAS difficulty hs =>
      if highscore sh =? hs
      then Some (updateStatus (set_highscore sh difficulty), inr (false, None))
      else Some (sh, inl (CbLoad difficulty))
  end.

Definition NewCA_found : GenerateCallback ca_shared :=
  {| cb_pc := ca_pc; cb_enter := CbEnter; cb_step := NewCA_found_step |}.

(** [NewCA] and the goroutines it started. *)
Record ca_system : Type := {
  generator : system ca_shared ca_pc;
  ca_returned : option (option FullCertificateAuthority * option error)
}.

Inductive ca_event : Type :=
| Generator (ev : event)   (* a step of GenerateKeys *)
| Finish.                  (* NewCA goes on after GenerateKeys returned *)

(** Go's [int(x)] on a 64-bit [uint]. *)
Definition int_of_uint (x : Z) : Z :=
  if x <? 2 ^ 63 then x else x - 2 ^ 64.

(** [NewCA] up to the call of [GenerateKeys]. *)
Definition NewCA_start (ctx0 : option ctx_error) : Go.exec ca_system :=
  let concurrency := if opt_Concurrency opts <? 1 then 1 else opt_Concurrency opts in
  let sh := {| highscore := 0; counter := 0; mu := false; selectedKey := None;
               selectedID := NodeID_zero;
               logged := if Logger opts
                         then [LogGenerating (opt_Difficulty opts)] else [] |} in
  Go.bind (GenerateKeys_start NewCA_found ctx0 (int_of_uint concurrency) sh)
          (fun g => Go.Returns {| generator := g; ca_returned := None |}).

(** [NewCA] from the return of [GenerateKeys] on. *)
Definition NewCA_finish (err : option error) (sh : ca_shared)
  : option FullCertificateAuthority * option error :=
  match err with
  | Some _ => (None, err)
  | None =>
      match CATemplate with
      | Err err => (None, Some err)
      | Ok ct =>
          match peertls.NewCert x509_CreateCertificate
                                (selectedKey sh) (ParentKey opts) ct (ParentCert opts) with
          | (_, Some err) => (None, Some err)
          | (c, None) =>
              (Some {| CA_Cert := c; CA_Key := selectedKey sh;
                       CA_ID := selectedID sh;
                       CA_RestChain := match ParentCert opts with
                                       | Some p => Some [p]
                                       | None => None
                                       end |}, None)
          end
      end
  end.

Definition ca_step (ev : ca_event) (s : ca_system) : option ca_system :=
  match ev with
  | Generator ev =>
      match step NewCA_found minimumLoggableDifficulty ev (generator s) with
      | Some g => Some {| generator := g; ca_returned := ca_returned s |}
      | None => None
      end
  | Finish =>
      match returned (generator s), ca_returned s with
      | Some err, None =>
          Some {| generator := generator s;
                  ca_returned := Some (NewCA_finish err (shared (generator s))) |}
      | _, _ => None
      end
  end.

Fixpoint ca_run (evs : list ca_event) (s : ca_system) : option ca_system :=
  match evs with
  | [] => Some s
  | ev :: evs' =>
      match ca_step ev s with
      | Some s' => ca_run evs' s'
      | None => None
      end
  end.


(** The candidate with which a step runs the body of the critical
    section, if the step is that. *)
Definition entered (se : ca_system * ca_event) : option (ecdsa_PrivateKey * NodeID) :=
  match se with
  | (s, Generator (Worker i _)) =>
      match nth_error (workers (generator s)) i with
      | Some (InCallback k id (CbSelect _)) => Some (k, id)
      | _ => None
      end
  | _ => None
  end.


End NewCA.

(** *** Full identities, their chains and the TLS options *)

(** What the loaders call: the PEM parsers of pkg/pkcrypto with its
    [ErrChainLength], and [storj.NodeID.String]. *)
Class Loader : Type := {
  CertsFromPEM : Go.bytes -> result (list Certificate);
  PrivateKeyFromPEM : Go.bytes -> result ecdsa_PrivateKey;
  ErrChainLength : Class;
  NodeID_String : NodeID -> string
}.

(** What [NewIdentity] calls: [peertls.LeafTemplate()] and
    [peertls.AddSignedCertExt(key, cert)], which changes the certificate
    it is given. *)
Class LeafEnv : Type := {
  LeafTemplate : result Certificate;
  AddSignedCertExt : option ecdsa_PrivateKey -> Certificate -> Certificate * option error
}.

Record FullIdentity : Type := {
  FI_RestChain : Go.slice Certificate;
  FI_CA : option Certificate;
  FI_Leaf : option Certificate;
  FI_ID : NodeID;
  FI_Key : option ecdsa_PrivateKey
}.

(** [tls.Config], the fields the options set. *)
Inductive ClientAuthType : Type := NoClientCert | RequireAnyClientCert.

Record tls_Config (W : Type) : Type := {
  Certificates : list peertls.tls_Certificate;
  InsecureSkipVerify : bool;
  ClientAuth : ClientAuthType;
  VerifyPeerCertificate : option (@peertls.PeerCertVerificationFunc W)
}.

Section FullIdentities.
Context {W : Type} `{E : Env} `{L : Loader} `{C : peertls.Crypto}
        `{K : peertls.ChainCheck}.
Local Open Scope go_scope.

Definition FullIdentityFromPEM (chainPEM keyPEM : Go.bytes)
  : Go.exec (option FullIdentity * option error) :=
  match CertsFromPEM chainPEM with
  | Err err => Go.Returns (None, Wrap0 (Some err))
  | Ok chain =>
      if (List.length chain <? peertls.CAIndex + 1)%nat then
        Go.Returns (None, New ErrChainLength
                              "identity chain does not contain a CA certificate" [])
      else
        match PrivateKeyFromPEM keyPEM with
        | Err err => Go.Returns (None, Some err)
        | Ok key =>
            Go.bind (Go.index chain peertls.CAIndex) (fun ca =>
              match NodeIDFromKey (PublicKey ca) with
              | (_, Some err) => Go.Returns (None, Some err)
              | (nodeID, None) =>
                  Go.bind (Go.index chain peertls.CAIndex) (fun ca =>
                  Go.bind (Go.index chain peertls.LeafIndex) (fun leaf =>
                    Go.Returns
                      (Some {| FI_RestChain := Some (skipn (peertls.CAIndex + 1) chain);
                               FI_CA := Some ca; FI_Leaf := Some leaf;
                               FI_Key := Some key; FI_ID := nodeID |}, None)))
              end)
        end
  end.

Definition NodeIDFromPEM (pemBytes : Go.bytes) : Go.exec (NodeID * option error) :=
  match CertsFromPEM pemBytes with
  | Err _ => Go.Returns (NodeID_zero, New Error "invalid identity certificate" [])
  | Ok chain =>
      if (List.length chain <? peertls.CAIndex + 1)%nat then
        Go.Returns (NodeID_zero, New Error "no CA in identity certificate" [])
      else
        Go.bind (Go.index chain peertls.CAIndex) (fun ca =>
          Go.Returns (NodeIDFromKey (PublicKey ca)))
  end.

(** [ChainRaw]: the leaf, the CA, then [append] for each of the rest. *)
Definition ChainRaw (fi : FullIdentity) : Go.exec (list Go.bytes) :=
  Go.bind (Go.deref (FI_Leaf fi)) (fun leaf =>
  Go.bind (Go.deref (FI_CA fi)) (fun ca =>
    Go.Returns
      (fold_left (fun chain cert => chain ++ [Raw cert])
                 (Go.elems (FI_RestChain fi)) [Raw leaf; Raw ca]))).

(** [RestChainRaw] starts from the nil slice. *)
Definition RestChainRaw (fi : FullIdentity) : Go.slice Go.bytes :=
  fold_left (fun chain cert => Some (Go.elems chain ++ [Raw cert]))
            (Go.elems (FI_RestChain fi)) None.

(** [verifyIdentity]; the deferred monitoring hook is left out. *)
Definition verifyIdentity (id : NodeID) : @peertls.PeerCertVerificationFunc W :=
  fun _ parsedChains =>
    if NodeID_eqb id NodeID_zero then ret None
    else
      chain0 <- lift (Go.index parsedChains 0) ;;
      leaf <- lift (Go.index chain0 0) ;;
      ca <- lift (Go.index chain0 1) ;;
      match PeerIdentityFromCerts leaf ca (skipn 2 chain0) with
      | (_, Some err) => ret (Some err)
      | (peer, None) =>
          peer <- lift (Go.deref peer) ;;
          if negb (String.eqb (NodeID_String (ID peer)) (NodeID_String id))
          then ret (New Error "peer ID did not match requested ID" [])
          else ret None
      end.

(** [ServerOption] and [DialOption], as the [tls.Config] they wrap into
    gRPC credentials. *)
Definition ServerOption (fi : FullIdentity)
           (pcvFuncs : list (option (@peertls.PeerCertVerificationFunc W)))
  : Go.exec (option (tls_Config W) * option error) :=
  Go.bind (ChainRaw fi) (fun chain =>
  Go.bind (peertls.TLSCert chain (FI_Leaf fi) (FI_Key fi)) (fun r =>
    match r with
    | (_, Some err) => Go.Returns (None, Some err)
    | (c, None) =>
        let pcvFuncs := [Some peertls.VerifyPeerCertChains] ++ pcvFuncs in
        Go.bind (Go.deref c) (fun c =>
          Go.Returns
            (Some {| Certificates := [c]; InsecureSkipVerify := true;
                     ClientAuth := RequireAnyClientCert;
                     VerifyPeerCertificate := Some (peertls.VerifyPeerFunc pcvFuncs) |},
             None))
    end)).

Definition DialOption (fi : FullIdentity) (id : NodeID)
  : Go.exec (option (tls_Config W) * option error) :=
  Go.bind (ChainRaw fi) (fun chain =>
  Go.bind (peertls.TLSCert chain (FI_Leaf fi) (FI_Key fi)) (fun r =>
    match r with
    | (_, Some err) => Go.Returns (None, Some err)
    | (c, None) =>
        Go.bind (Go.deref c) (fun c =>
          Go.Returns
            (Some {| Certificates := [c]; InsecureSkipVerify := true;
                     ClientAuth := NoClientCert;
                     VerifyPeerCertificate :=
                       Some (peertls.VerifyPeerFunc
                               [Some peertls.VerifyPeerCertChains;
                                Some (verifyIdentity id)]) |},
             None))
    end)).

End FullIdentities.

Section NewIdentity.
Context `{C : peertls.Crypto} `{CE : CAEnv} `{LE : LeafEnv}.

(** [FullCertificateAuthority.NewIdentity]; [gen] is what
    [pkcrypto.GeneratePrivateKey()] returns. *)
Definition NewIdentity (ca : FullCertificateAuthority) (gen : result ecdsa_PrivateKey)
  : Go.exec (option FullIdentity * option error) :=
  match LeafTemplate with
  | Err err => Go.Returns (None, Some err)
  | Ok leafTemplate =>
  match gen with
  | Err err => Go.Returns (None, Some err)
  | Ok leafKey =>
  match peertls.NewCert x509_CreateCertificate
                        (Some leafKey) (CA_Key ca) leafTemplate (CA_Cert ca) with
  | (_, Some err) => Go.Returns (None, Some err)
  | (leafCert, None) =>
      let finish (leafCert : option Certificate) :=
        Go.Returns (Some {| FI_RestChain := CA_RestChain ca; FI_CA := CA_Cert ca;
                            FI_Leaf := leafCert; FI_Key := Some leafKey;
                            FI_ID := CA_ID ca |}, None) in
      match CA_RestChain ca with
      | Some (_ :: _) =>
          Go.bind (Go.deref leafCert) (fun cert =>
            match AddSignedCertExt (CA_Key ca) cert with
            | (_, Some err) => Go.Returns (None, Some err)
            | (cert', None) => finish (Some cert')
            end)
      | _ => finish leafCert
      end
  end end end.

End NewIdentity.

End identity.

(** ** cmd/identity: batch-generate *)

Module cmd_identity.
Import identity.

(** [keyCfg] *)
Record keyCfg : Type := {
  MinDifficulty : Z;      (* int *)
  Concurrency : Z;        (* int *)
  OutputDir : string
}.

(** What the command calls; [F] is the file system. *)
Class Env (F : Type) : Type := {
  (** [os.MkdirAll(dir, 0700)] *)
  MkdirAll : string -> F -> F * option error;
  (** [ioutil.WriteFile(path, data, 0600)] *)
  WriteFile : string -> Go.bytes -> F -> F * option error;
  (** [pkcrypto.PrivateKeyToPKCS8] *)
  PrivateKeyToPKCS8 : ecdsa_PrivateKey -> result Go.bytes;
  (** [fmt.Sprintf("gen-%02d-%d.key", difficulty, n)] *)
  key_filename : Z -> Z -> string;
  (** [filepath.Join] *)
  filepath_Join : string -> string -> string
}.

(** What the callback closes over and what it writes to. *)
Record keygen_shared (F : Type) : Type := {
  kg_counter : Z;              (* counter, *uint32, atomic *)
  kg_files : F;
  kg_stdout : list string
}.

(** The points of the callback between which other goroutines may run. *)
Inductive keygen_pc : Type :=
| KgEnter                                        (* up to atomic.AddUint32 *)
| KgWrite (filename : string) (data : Go.bytes). (* Println and WriteFile *)

Section cmdKeyGenerate.
Context {F : Type} `{I : identity.Env} `{E : Env F}.
Variable cfg : keyCfg.

Definition keygen_found_step (k : ecdsa_PrivateKey) (id : NodeID) (pc : keygen_pc)
           (sh : keygen_shared F)
  : option (keygen_shared F * (keygen_pc + bool * option error)) :=
  match pc with
  | KgEnter =>
      match PrivateKeyToPKCS8 k with
      | Err err => Some (sh, inr (false, Some err))
      | Ok data =>
          match Difficulty id with
          | Err err => Some (sh, inr (false, Some err))
          | Ok difficulty =>
              let n := (kg_counter sh + 1) mod 2 ^ 32 in
              Some ({| kg_counter := n; kg_files := kg_files sh;
                       kg_stdout := kg_stdout sh |},
                    inl (KgWrite (key_filename difficulty n) data))
          end
      end
  | KgWrite filename data =>
      let (files, err) :=
        WriteFile (filepath_Join (OutputDir cfg) filename) data (kg_files sh) in
      Some ({| kg_counter := kg_counter sh; kg_files := files;
               kg_stdout := kg_stdout sh ++ [("writing " ++ filename)%string] |},
            inr (false, err))
  end.

Definition keygen_found : GenerateCallback (keygen_shared F) :=
  {| cb_pc := keygen_pc; cb_enter := KgEnter; cb_step := keygen_found_step |}.

(** Go's [uint16(x)] on an [int]. *)
Definition uint16_of_int (x : Z) : Z := x mod 2 ^ 16.

(** [cmdKeyGenerate] up to the point where the goroutines of
    [GenerateKeys] run, or its early return when the directory cannot be
    made; the command returns what [GenerateKeys] returns. *)
Definition cmdKeyGenerate_start (ctx0 : option ctx_error) (files : F)
  : (F * option error) + Go.exec (system (keygen_shared F) keygen_pc) :=
  match MkdirAll (OutputDir cfg) files with
  | (files', Some err) => inl (files', Some err)
  | (files', None) =>
      inr (GenerateKeys_start keygen_found ctx0 (Concurrency cfg)
             {| kg_counter := 0; kg_files := files'; kg_stdout := [] |})
  end.

Definition cmdKeyGenerate_run (evs : list event)
           (s : system (keygen_shared F) keygen_pc)
  : option (system (keygen_shared F) keygen_pc) :=
  run keygen_found (uint16_of_int (MinDifficulty cfg)) evs s.

End cmdKeyGenerate.

End cmd_identity.

(** ** pkg/bwagreement *)

Module bwagreement.

(** [Error], the default class of the package. *)
Definition Error : Class := "bwagreement error".

(** Modelled from the spec: the error kinds of pkg/auth ([BadID],
    [Expired], [Serial], [Verify], [SigLen]) and pkg/pb ([ErrPayer],
    [ErrRenter]), declared in those packages. *)
Definition ErrBadID : Class := "BadID".
Definition ErrExpired : Class := "Expired".
Definition ErrSerial : Class := "Serial".
Definition ErrVerify : Class := "Verify".
Definition ErrSigLen : Class := "SigLen".
Definition ErrPayer : Class := "ErrPayer".
Definition ErrRenter : Class := "ErrRenter".

(** [pb.AgreementsSummary] *)
Inductive AgreementsSummary_Status : Type :=
| AgreementsSummary_FAIL
| AgreementsSummary_OK
| AgreementsSummary_REJECTED.

Record AgreementsSummary : Type := { Status : AgreementsSummary_Status }.

(** [pb.PayerBandwidthAllocation] and [pb.RenterBandwidthAllocation] *)
Record PayerBandwidthAllocation : Type := {
  SatelliteId : NodeID;
  UplinkId : NodeID;
  MaxSize : Z;
  ExpirationUnixSec : Z;
  SerialNumber : string;
  CreatedUnixSec : Z;
  PBA_Certs : list Go.bytes;
  PBA_Signature : Go.bytes
}.

Record RenterBandwidthAllocation : Type := {
  PayerAllocation : PayerBandwidthAllocation;
  Total : Z;
  StorageNodeId : NodeID;
  RBA_Certs : list Go.bytes;
  RBA_Signature : Go.bytes
}.

Definition PBA_SetSignature (pba : PayerBandwidthAllocation) (sig : Go.bytes) :=
  {| SatelliteId := SatelliteId pba; UplinkId := UplinkId pba;
     MaxSize := MaxSize pba; ExpirationUnixSec := ExpirationUnixSec pba;
     SerialNumber := SerialNumber pba; CreatedUnixSec := CreatedUnixSec pba;
     PBA_Certs := PBA_Certs pba; PBA_Signature := sig |}.

Definition PBA_SetCerts (pba : PayerBandwidthAllocation) (certs : list Go.bytes) :=
  {| SatelliteId := SatelliteId pba; UplinkId := UplinkId pba;
     MaxSize := MaxSize pba; ExpirationUnixSec := ExpirationUnixSec pba;
     SerialNumber := SerialNumber pba; CreatedUnixSec := CreatedUnixSec pba;
     PBA_Certs := certs; PBA_Signature := PBA_Signature pba |}.

Definition RBA_SetSignature (rba : RenterBandwidthAllocation) (sig : Go.bytes) :=
  {| PayerAllocation := PayerAllocation rba; Total := Total rba;
     StorageNodeId := StorageNodeId rba; RBA_Certs := RBA_Certs rba;
     RBA_Signature := sig |}.

Definition RBA_SetCerts (rba : RenterBandwidthAllocation) (certs : list Go.bytes) :=
  {| PayerAllocation := PayerAllocation rba; Total := Total rba;
     StorageNodeId := StorageNodeId rba; RBA_Certs := certs;
     RBA_Signature := RBA_Signature rba |}.

(** [uplinkdb.Agreement] *)
Record UplinkAgreement : Type := { Agreement_PublicKey : Go.bytes }.

(** What the server calls.  [W] is the state of the outside world: the
    agreement store, the uplink store and the clock. *)
Class Env (W : Type) : Type := {
  (** [DB.CreateAgreement] *)
  CreateAgreement : RenterBandwidthAllocation -> W -> W * option error;
  (** [uplinkdb.DB.GetPublicKey] *)
  GetPublicKey : Go.bytes -> W -> W * result UplinkAgreement;
  (** [time.Now().UTC()] *)
  time_Now : W -> W * Go.Time;
  (** [x509.ParsePKIXPublicKey] *)
  ParsePKIXPublicKey : Go.bytes -> result crypto_PublicKey;
  (** [proto.Marshal] at the two message types *)
  Marshal_rba : RenterBandwidthAllocation -> result Go.bytes;
  Marshal_pba : PayerBandwidthAllocation -> result Go.bytes;
  (** [cryptopasta.Verify(data, sig, pubkey)] *)
  cryptopasta_Verify : Go.bytes -> Go.bytes -> ecdsa_PublicKey -> bool;
  (** [fmt.Sprintf] *)
  Sprintf : string -> list value -> string
}.

(** The fields of [Server] that are values; its stores and its logger
    are in the world. *)
Record Server : Type := {
  pkey : crypto_PublicKey;
  Server_NodeID : NodeID
}.

Section Server.
Context {W : Type} `{I : identity.Env} `{E : Env W}.
Local Open Scope go_scope.

Definition call {A} (f : W -> W * A) : M W A :=
  fun w => let (w', a) := f w in (w', Go.Returns a).

Definition len (b : Go.bytes) : Z := Z.of_nat (List.length b).

Definition verifySignature (s : Server) (rba : RenterBandwidthAllocation)
  : M W (option error) :=
  let pba := PayerAllocation rba in
  (* Get renter's public key from uplink agreement db *)
  r <- call (GetPublicKey (NodeID_Bytes (UplinkId pba))) ;;
  match r with
  | Err err =>
      ret (Wrap ErrRenter
             (New ErrVerify "Failed to unmarshal PayerBandwidthAllocation: %+v"
                  [VErr (Some err)]))
  | Ok uplinkInfo =>
  match ParsePKIXPublicKey (Agreement_PublicKey uplinkInfo) with
  | Err err =>
      ret (New Error "Failed to extract Public Key from RenterBandwidthAllocation: %+v"
               [VErr (Some err)])
  | Ok pubkey =>
  (* Typecast public key *)
  match pubkey with
  | PubOther t => ret (New peertls.ErrUnsupportedKey "%T" [VType t])
  | PubECDSA k =>
  let signatureLength := Z.quot (Go.BitLen (P (PubCurve k))) 8 in
  if len (RBA_Signature rba) <? signatureLength then
    ret (Wrap ErrRenter
           (New ErrSigLen "%d vs %d"
                [VInt (len (RBA_Signature rba)); VInt signatureLength]))
  else
  (* verify Renter's (uplink) signature *)
  let rbad := RBA_SetCerts (RBA_SetSignature rba []) [] in
  match Marshal_rba rbad with
  | Err err => ret (New Error "marshalling error: %+v" [VErr (Some err)])
  | Ok rbadBytes =>
  if negb (cryptopasta_Verify rbadBytes (RBA_Signature rba) k) then
    ret (Wrap ErrRenter (New ErrVerify "%+v" [VBool false]))
  else
  (* satellite public key *)
  match pkey s with
  | PubOther t => ret (New peertls.ErrUnsupportedKey "%T" [VType t])
  | PubECDSA k =>
  let signatureLength := Z.quot (Go.BitLen (P (PubCurve k))) 8 in
  if len (PBA_Signature pba) <? signatureLength then
    ret (Wrap ErrPayer
           (New ErrSigLen "%d vs %d"
                [VInt (len (PBA_Signature pba)); VInt signatureLength]))
  else
  (* verify Payer's (satellite) signature *)
  let pbad := PBA_SetCerts (PBA_SetSignature pba []) [] in
  match Marshal_pba pbad with
  | Err err => ret (New Error "marshalling error: %+v" [VErr (Some err)])
  | Ok pbadBytes =>
  if negb (cryptopasta_Verify pbadBytes (PBA_Signature pba) k) then
    ret (Wrap ErrPayer (New ErrVerify "%+v" [VBool false]))
  else ret None
  end end end end end end.

(** [Server.BandwidthAgreements].  The deferred [mon.Task] hook and the
    debug log lines observe the call and are left out. *)
Definition BandwidthAgreements (s : Server) (ctx : identity.Context)
           (rba : RenterBandwidthAllocation)
  : M W (AgreementsSummary * option error) :=
  let reply := {| Status := AgreementsSummary_REJECTED |} in
  let pba := PayerAllocation rba in
  (* verify message content *)
  r <- lift (identity.PeerIdentityFromContext ctx) ;;
  let (pi, err) := r in
  (* err != nil || rba.StorageNodeId != pi.ID *)
  cond <- lift (match err with
                | Some _ => Go.Returns true
                | None =>
                    Go.bind (Go.deref pi) (fun p =>
                      Go.Returns (negb (NodeID_eqb (StorageNodeId rba)
                                                   (identity.ID p))))
                end) ;;
  if cond : bool then
    (* the arguments of ErrBadID.New read pi.ID *)
    p <- lift (Go.deref pi) ;;
    ret (reply, New ErrBadID "Storage Node ID: %v vs %v"
                    [VBytes (NodeID_Bytes (StorageNodeId rba));
                     VBytes (NodeID_Bytes (identity.ID p))])
  else
  if negb (NodeID_eqb (SatelliteId pba) (Server_NodeID s)) then
    ret (reply, New ErrPayer "Satellite ID: %v vs %v"
                    [VBytes (NodeID_Bytes (SatelliteId pba));
                     VBytes (NodeID_Bytes (Server_NodeID s))])
  else
  let exp := Go.time_Unix (ExpirationUnixSec pba) in
  now <- call time_Now ;;
  if Go.Before exp now then
    now' <- call time_Now ;;
    ret (reply, Wrap ErrPayer (New ErrExpired "%v vs %v" [VTime exp; VTime now']))
  else
  err <- verifySignature s rba ;;
  match err with
  | Some _ => ret (reply, err)
  | None =>
  (* save and return results *)
  err <- call (CreateAgreement rba) ;;
  match err with
  | Some e =>
      if Go.strings_Contains (errs.Error Sprintf e) "UNIQUE constraint failed"
         || Go.strings_Contains (errs.Error Sprintf e) "violates unique constraint"
      then ret (reply, Wrap ErrPayer (Wrap ErrSerial err))
      else ret ({| Status := AgreementsSummary_FAIL |}, Wrap ErrPayer err)
  | None => ret ({| Status := AgreementsSummary_OK |}, None)
  end
  end.

End Server.

End bwagreement.

(** ** A small world

    Instances of the interfaces above, small enough to run the model on
    concrete inputs.  Certificates are two bytes, issuer then subject; a
    certificate is signed by the one whose subject is its issuer. *)

Module Sample.

Definition byte_of_Z (z : Z) : byte :=
  match Byte.of_N (Z.to_N (z mod 256)) with
  | Some b => b
  | None => x00
  end.

Definition Z_of_byte (b : byte) : Z := Z.of_N (Byte.to_N b).

Definition curve : Curve :=
  {| P := 65537; N := 65521; BitSize := 17; Name := "sample-17" |}.

Definition pub (x : Z) : ecdsa_PublicKey := {| PubCurve := curve; X := x; Y := 0 |}.

Definition key (x : Z) : ecdsa_PrivateKey := {| PublicKey_of := pub x; D := x |}.

Definition cert (issuer subject : byte) : Certificate :=
  {| Raw := [issuer; subject]; PublicKey := PubECDSA (pub (Z_of_byte subject)) |}.

Definition parse (der : Go.bytes) : result Certificate :=
  match der with
  | [issuer; subject] => Ok (cert issuer subject)
  | _ => Err (Opaque "asn1: syntax error")
  end.

Fixpoint parse_all (ders : list Go.bytes) : result (list Certificate) :=
  match ders with
  | [] => Ok []
  | der :: rest =>
      match parse der, parse_all rest with
      | Ok c, Ok cs => Ok (c :: cs)
      | Err e, _ => Err e
      | _, Err e => Err e
      end
  end.

Definition signed_by (parent child : Certificate) : option error :=
  match Raw parent, Raw child with
  | [_; subject], [issuer; _] =>
      if Byte.eqb subject issuer then None
      else Some (Opaque "x509: signature verification failed")
  | _, _ => Some (Opaque "x509: signature verification failed")
  end.

#[export] Instance crypto : peertls.Crypto :=
  {| peertls.CertsFromDER := parse_all;
     peertls.CertFromDER := parse;
     peertls.PublicKeyFromPrivate :=
       option_map (fun k => PubECDSA (PublicKey_of k));
     peertls.verifyCertSignature := signed_by |}.

(** The world of the verifiers: the names of the calls made so far. *)
Definition calls : Type := list string.

(** A revocation store holding at most one record, for every CA; a
    record verifies when its signature is the CA's bytes. *)
#[export] Instance store : peertls.Store calls :=
  {| peertls.RevocationDB := option peertls.Revocation;
     peertls.RevocationDB_Get := fun db _ w => (w ++ ["Get"], (db, None));
     peertls.Revocation_Verify := fun rev ca w =>
       (w ++ ["Verify"],
        if Go.bytes_Equal (peertls.Signature rev) (Raw ca) then None
        else Some (Opaque "signature is not valid")) |}.

(** A hash that keeps the sum of its input in the last byte. *)
Definition sum_bytes (b : Go.bytes) : Z :=
  fold_right (fun x acc => Z_of_byte x + acc) 0 b.

Definition hash (b : Go.bytes) : Vector.t byte 32 :=
  Vector.append (Vector.cons _ xab _ (Vector.const x00 30))
                (Vector.cons _ (byte_of_Z (sum_bytes b)) _ (Vector.nil _)).

Fixpoint trailing_zeros (fuel : nat) (n : Z) : Z :=
  match fuel with
  | O => 0
  | S fuel' => if Z.odd n then 0 else 1 + trailing_zeros fuel' (n / 2)
  end.

Fixpoint trailing_zero_bits (rev_id : Go.bytes) : Z :=
  match rev_id with
  | [] => 0
  | b :: rest =>
      if Byte.eqb b x00 then 8 + trailing_zero_bits rest
      else trailing_zeros 8 (Z_of_byte b)
  end.

(** Modelled from the spec: [storj.NodeID.Difficulty] of pkg/storj, the count of trailing zero bits of the ID,
    from the low end of the last byte into the earlier bytes. *)
Definition difficulty (id : NodeID) : result Z :=
  Ok (trailing_zero_bits (rev (NodeID_Bytes id))).

#[export] Instance ids : identity.Env :=
  {| identity.ErrNodeID := "node ID error";
     identity.Error := "identity error";
     identity.MarshalPKIXPublicKey := fun k => Ok [byte_of_Z (X k)];
     identity.Sum256 := hash;
     identity.Difficulty := difficulty |}.

#[export] Instance ca : identity.CAEnv :=
  {| identity.CATemplate := Ok (cert x00 x00);
     identity.x509_CreateCertificate := fun template parent pub priv =>
       match Raw parent, pub with
       | [_; subject], Some (PubECDSA k) => Ok [subject; byte_of_Z (X k)]
       | _, _ => Err (Opaque "x509: unsupported public key")
       end |}.

(** The world of the bandwidth server: the serial numbers stored so far
    and the clock, which advances by a second at each reading. *)
Record world : Type := { serials : list string; clock : Z }.

Definition sign (data : Go.bytes) (k : ecdsa_PublicKey) : Go.bytes :=
  [byte_of_Z (X k); byte_of_Z (sum_bytes data)].

#[export] Instance bw : bwagreement.Env world :=
  {| bwagreement.CreateAgreement := fun rba w =>
       let serial := bwagreement.SerialNumber (bwagreement.PayerAllocation rba) in
       if existsb (String.eqb serial) (serials w)
       then (w, Some (Opaque "UNIQUE constraint failed: bwagreements.serialnum"))
       else ({| serials := serial :: serials w; clock := clock w |}, None);
     bwagreement.GetPublicKey := fun id w =>
       (w, Ok {| bwagreement.Agreement_PublicKey := firstn 1 id |});
     bwagreement.time_Now := fun w =>
       ({| serials := serials w; clock := clock w + 1 |},
        {| Go.unix_sec := clock w; Go.nsec := 0 |});
     bwagreement.ParsePKIXPublicKey := fun b =>
       match b with
       | [x] => Ok (PubECDSA (pub (Z_of_byte x)))
       | _ => Err (Opaque "asn1: syntax error")
       end;
     bwagreement.Marshal_rba := fun rba =>
       Ok (NodeID_Bytes (bwagreement.StorageNodeId rba));
     bwagreement.Marshal_pba := fun pba =>
       Ok (NodeID_Bytes (bwagreement.SatelliteId pba));
     bwagreement.cryptopasta_Verify := fun data sig k =>
       Go.bytes_Equal sig (sign data k);
     bwagreement.Sprintf := fun format _ => format |}.

(** Certificates whose third byte, if any, is an extension to write; the
    writer is the list of blocks written, and a block ["bad"] cannot be
    written. *)
Definition block_writer : Type := list string.

#[export] Instance pem : peertls.PEM block_writer :=
  {| peertls.Extension := byte;
     peertls.ExtraExtensions := fun c => skipn 2 (Raw c);
     peertls.WriteCertPEM := fun c w =>
       match Raw c with
       | [] => (w, Some (Opaque "pem: empty certificate"))
       | _ => (w ++ ["CERTIFICATE"], None)
       end;
     peertls.WritePKIXExtensionPEM := fun e w =>
       if Byte.eqb e xff then (w, Some (Opaque "pem: bad extension"))
       else (w ++ ["PKIX EXTENSION"], None);
     peertls.ErrorGroup_Finish := fun errs =>
       match errs with
       | [] => None
       | e :: _ => Some e
       end |}.

(** A chain verifies when every certificate but the last is signed by the
    next one and the last by itself. *)
Fixpoint chain_signed (chain : list Certificate) : option error :=
  match chain with
  | [] => None
  | [root] => signed_by root root
  | c :: (parent :: _) as rest =>
      match signed_by parent c with
      | Some e => Some e
      | None => chain_signed rest
      end
  end.

#[export] Instance chains : peertls.ChainCheck :=
  {| peertls.verifyChainSignatures := chain_signed |}.

(** PEM files are the concatenation of two-byte certificates; a key file
    is one byte. *)
Fixpoint pem_certs (fuel : nat) (b : Go.bytes) : result (list Certificate) :=
  match fuel, b with
  | _, [] => Ok []
  | S fuel', issuer :: subject :: rest =>
      match pem_certs fuel' rest with
      | Ok cs => Ok (cert issuer subject :: cs)
      | Err e => Err e
      end
  | _, _ => Err (Opaque "pem: trailing data")
  end.

Definition hex_digit (n : Z) : string :=
  String (ascii_of_nat (Z.to_nat (if n <? 10 then 48 + n else 87 + n))) EmptyString.

Definition hex_byte (b : byte) : string :=
  (hex_digit (Z_of_byte b / 16) ++ hex_digit (Z_of_byte b mod 16))%string.

#[export] Instance loader : identity.Loader :=
  {| identity.CertsFromPEM := fun b => pem_certs (List.length b) b;
     identity.PrivateKeyFromPEM := fun b =>
       match b with
       | [x] => Ok (key (Z_of_byte x))
       | _ => Err (Opaque "pem: no private key")
       end;
     identity.ErrChainLength := "ChainLength";
     identity.NodeID_String := fun id =>
       fold_right (fun b s => (hex_byte b ++ s)%string) EmptyString (NodeID_Bytes id) |}.

#[export] Instance leaves : identity.LeafEnv :=
  {| identity.LeafTemplate := Ok (cert x00 x00);
     identity.AddSignedCertExt := fun k c =>
       match k with
       | Some k => ({| Raw := Raw c ++ [byte_of_Z (D k)]; PublicKey := PublicKey c |}, None)
       | None => (c, Some (Opaque "no key to sign the extension with"))
       end |}.

(** A file system: the files written, newest first; nothing can be
    written under the directory ["/ro"]. *)
Definition files : Type := list (string * Go.bytes).

#[export] Instance keys : cmd_identity.Env files :=
  {| cmd_identity.MkdirAll := fun dir fs =>
       if String.eqb dir "/ro" then (fs, Some (Opaque "mkdir /ro: read-only file system"))
       else (fs, None);
     cmd_identity.WriteFile := fun path data fs => ((path, data) :: fs, None);
     cmd_identity.PrivateKeyToPKCS8 := fun k => Ok [byte_of_Z (D k)];
     cmd_identity.key_filename := fun d n =>
       ("gen-" ++ hex_byte (byte_of_Z d) ++ "-" ++ hex_byte (byte_of_Z n) ++ ".key")%string;
     cmd_identity.filepath_Join := fun dir name => (dir ++ "/" ++ name)%string |}.

End Sample.

(* ================================================================== *)
(** * Part II: properties *)
(* ================================================================== *)

Unset Implicit Arguments.

(** ** The composed verifier *)

Section VerifyPeerFunc_properties.
Context {W : Type} `{C : peertls.Crypto}.
Import peertls.







End VerifyPeerFunc_properties.

Section VerifyPeerFunc_examples.
#[local] Existing Instance Sample.crypto.

(** A composition with a nil slot, a verifier that passes, one that fails
  and one more; each appends its name to the world when called. *)
Definition named_verifier (name : string) (err : option error)
: @peertls.PeerCertVerificationFunc Sample.calls :=
fun _ _ w => (w ++ [name], Go.Returns err).


End VerifyPeerFunc_examples.

(** ** The CA whitelist *)

Section VerifyCAWhitelist_properties.
Context {W : Type} `{C : peertls.Crypto}.
Import peertls.

Lemma whitelist_loop_pass (cas : list Certificate)
    (chain0 : list Certificate) (rest : list (list Certificate))
    (ca : Certificate) (w : W) :
nth_error chain0 CAIndex = Some ca ->
Exists (fun c => verifyCertSignature c ca = None) cas ->
VerifyCAWhitelist_loop (W:=W) cas (chain0 :: rest) w = (w, Go.Returns None).
Proof.
intros Hca Hex. induction Hex as [c cas Hc | c cas Hex IH];
  cbn [VerifyCAWhitelist_loop]; unfold bindM, lift, Go.index;
  cbn [nth_error]; rewrite Hca.
- rewrite Hc. reflexivity.
- destruct (verifyCertSignature c ca); [exact IH | reflexivity].
Qed.

Lemma whitelist_loop_fail (cas : list Certificate)
    (chain0 : list Certificate) (rest : list (list Certificate))
    (ca : Certificate) (w : W) :
nth_error chain0 CAIndex = Some ca ->
Forall (fun c => verifyCertSignature c ca <> None) cas ->
VerifyCAWhitelist_loop (W:=W) cas (chain0 :: rest) w
= (w, Go.Returns (New ErrVerifyCAWhitelist "CA cert" [])).
Proof.
intros Hca Hall. induction Hall as [|c cas Hc Hall IH];
  cbn [VerifyCAWhitelist_loop].
- reflexivity.
- unfold bindM, lift, Go.index; cbn [nth_error]; rewrite Hca.
  destruct (verifyCertSignature c ca); [exact IH | congruence].
Qed.

(** C3, amended.  A nil whitelist gives the nil verifier, which the
  composition skips.  A whitelist that is not nil, empty or not, gives a
  verifier which, on parsed chains whose first chain has a certificate at
  [CAIndex], passes when some CA of the whitelist verifies the signature
  on that certificate and otherwise fails with [ErrVerifyCAWhitelist];
  for the empty whitelist that is a failure on every such chain. *)
Theorem VerifyCAWhitelist_passes_iff_signed
      (cas : list Certificate) (raw : list Go.bytes)
      (chain0 : list Certificate) (rest : list (list Certificate))
      (ca : Certificate) (w : W)
      (Hca : nth_error chain0 CAIndex = Some ca) :
VerifyCAWhitelist (W:=W) None = None
/\ exists f,
     VerifyCAWhitelist (W:=W) (Some cas) = Some f
     /\ (Exists (fun c => verifyCertSignature c ca = None) cas ->
         f raw (chain0 :: rest) w = (w, Go.Returns None))
     /\ (Forall (fun c => verifyCertSignature c ca <> None) cas ->
         f raw (chain0 :: rest) w
         = (w, Go.Returns (New ErrVerifyCAWhitelist "CA cert" [])))
     /\ (f raw (chain0 :: rest) w = (w, Go.Returns None)
         <-> Exists (fun c => verifyCertSignature c ca = None) cas).
Proof.
split; [reflexivity|].
eexists. split; [reflexivity|]. simpl.
split; [apply whitelist_loop_pass; assumption|].
split; [apply whitelist_loop_fail; assumption|].
split; [|apply whitelist_loop_pass; assumption].
intros Hpass.
destruct (Exists_dec (fun c => verifyCertSignature c ca = None) cas) as [Hex|Hno].
- intros c. destruct (verifyCertSignature c ca); [right; congruence | left; reflexivity].
- exact Hex.
- apply Forall_Exists_neg in Hno.
  rewrite (@whitelist_loop_fail cas chain0 rest ca w Hca Hno) in Hpass.
  discriminate Hpass.
Qed.

End VerifyCAWhitelist_properties.

Section VerifyCAWhitelist_examples.
#[local] Existing Instance Sample.crypto.

Lemma VerifyCAWhitelist_passes_iff_signed_witness :
exists f,
  peertls.VerifyCAWhitelist (W:=Sample.calls)
    (Some [Sample.cert x09 x09; Sample.cert x01 x01]) = Some f
  /\ f [] [[Sample.cert x01 x02; Sample.cert x01 x01]] [] = ([], Go.Returns None).
Proof.
destruct (@VerifyCAWhitelist_passes_iff_signed Sample.calls Sample.crypto
            [Sample.cert x09 x09; Sample.cert x01 x01] []
            [Sample.cert x01 x02; Sample.cert x01 x01] []
            (Sample.cert x01 x01) [] eq_refl) as (_ & f & Hf & Hpass & _).
exists f. split; [exact Hf|].
apply Hpass. apply Exists_cons_tl. apply Exists_cons_hd. reflexivity.
Defined.

(** C3 as stated fails: an empty whitelist that is not nil yields a
  verifier, and that verifier rejects the chain. *)
Lemma VerifyCAWhitelist_empty_rejects :
exists f,
  peertls.VerifyCAWhitelist (W:=Sample.calls) (Some []) = Some f
  /\ f [] [[Sample.cert x01 x02; Sample.cert x01 x01]] []
     = ([], Go.Returns (Some (Classed peertls.ErrVerifyCAWhitelist
                                      (Message "CA cert" [])))).
Proof. eexists. split; reflexivity. Qed.

End VerifyCAWhitelist_examples.

(** ** The revocation verifier *)

Section VerifyUnrevokedChainFunc_properties.
Context {W : Type} `{R : peertls.Store W}.
Import peertls.

(** The verifier up to and including the look-up in the store. *)
Lemma VerifyUnrevoked_unfold (revDB : RevocationDB) (raw : list Go.bytes)
      (chain0 : list Certificate) (rest : list (list Certificate))
      (leaf ca : Certificate) (w w1 : W) rec_ err :
  nth_error chain0 LeafIndex = Some leaf ->
  nth_error chain0 CAIndex = Some ca ->
  RevocationDB_Get revDB chain0 w = (w1, (rec_, err)) ->
  VerifyUnrevokedChainFunc revDB raw (chain0 :: rest) w
  = match err with
    | Some _ => (w1, Go.Returns (Wrap ErrExtension err))
    | None =>
        match rec_ with
        | None => (w1, Go.Returns None)
        | Some rev =>
            if Go.bytes_Equal (CertHash rev) (Raw ca)
               || Go.bytes_Equal (CertHash rev) (Raw leaf)
            then
              match Revocation_Verify rev ca w1 with
              | (w2, Some e) => (w2, Go.Returns (Some (Classed ErrExtension e)))
              | (w2, None) => (w2, Go.Returns ErrRevokedCert)
              end
            else (w1, Go.Returns None)
        end
    end.
Proof.
  intros Hleaf Hca Hget.
  unfold VerifyUnrevokedChainFunc, bindM, lift, Go.index.
  cbn [nth_error]. rewrite Hleaf, Hca, Hget.
  destruct err as [e|]; [reflexivity|].
  destruct rec_ as [rev|]; [|reflexivity].
  destruct (Go.bytes_Equal (CertHash rev) (Raw ca)
            || Go.bytes_Equal (CertHash rev) (Raw leaf)); [|reflexivity].
  destruct (Revocation_Verify rev ca w1) as [w2 [e|]]; reflexivity.
Qed.

Lemma bytes_Equal_true (a b : Go.bytes) : Go.bytes_Equal a b = true <-> a = b.
Proof.
  unfold Go.bytes_Equal. destruct (list_eq_dec Byte.byte_eq_dec a b); split;
    congruence.
Qed.

Lemma bytes_Equal_false (a b : Go.bytes) : Go.bytes_Equal a b = false <-> a <> b.
Proof.
  unfold Go.bytes_Equal. destruct (list_eq_dec Byte.byte_eq_dec a b); split;
    congruence.
Qed.

(** C6.  On a chain with a leaf and a CA, when the store answers the
    look-up without an error: with no record, the verifier passes; with a
    record whose [CertHash] is the DER bytes of the CA or of the leaf, the
    record is verified against the CA certificate, and the verifier fails
    with [ErrRevokedCert] when that verification succeeds and with the
    verification error under [ErrExtension] when it does not. *)
Theorem VerifyUnrevokedChainFunc_revoked
        (revDB : RevocationDB) (raw : list Go.bytes)
        (chain0 : list Certificate) (rest : list (list Certificate))
        (leaf ca : Certificate) (w w1 : W) (rec_ : option Revocation)
        (Hleaf : nth_error chain0 LeafIndex = Some leaf)
        (Hca : nth_error chain0 CAIndex = Some ca)
        (Hget : RevocationDB_Get revDB chain0 w = (w1, (rec_, None))) :
  (rec_ = None ->
   VerifyUnrevokedChainFunc revDB raw (chain0 :: rest) w = (w1, Go.Returns None))
  /\ (forall rev w2,
        rec_ = Some rev ->
        CertHash rev = Raw ca \/ CertHash rev = Raw leaf ->
        (Revocation_Verify rev ca w1 = (w2, None) ->
         VerifyUnrevokedChainFunc revDB raw (chain0 :: rest) w
         = (w2, Go.Returns ErrRevokedCert))
        /\ (forall e, Revocation_Verify rev ca w1 = (w2, Some e) ->
            VerifyUnrevokedChainFunc revDB raw (chain0 :: rest) w
            = (w2, Go.Returns (Some (Classed ErrExtension e))))).
Proof.
  rewrite (VerifyUnrevoked_unfold _ raw _ rest _ _ _ _ _ _ Hleaf Hca Hget).
  split.
  - intros ->. reflexivity.
  - intros rev w2 -> Hhash.
    assert (Go.bytes_Equal (CertHash rev) (Raw ca)
            || Go.bytes_Equal (CertHash rev) (Raw leaf) = true) as ->.
    { apply orb_true_iff. rewrite !bytes_Equal_true. exact Hhash. }
    split.
    + intros ->. reflexivity.
    + intros e ->. reflexivity.
Qed.

(** C10.  On a chain with a leaf and a CA, when the store holds a record
    whose [CertHash] is neither the DER bytes of the CA nor those of the
    leaf, the verifier passes, and the world is the one the look-up left:
    the record was not verified. *)
Theorem VerifyUnrevokedChainFunc_other_hash
        (revDB : RevocationDB) (raw : list Go.bytes)
        (chain0 : list Certificate) (rest : list (list Certificate))
        (leaf ca : Certificate) (w w1 : W) (rev : Revocation)
        (Hleaf : nth_error chain0 LeafIndex = Some leaf)
        (Hca : nth_error chain0 CAIndex = Some ca)
        (Hget : RevocationDB_Get revDB chain0 w = (w1, (Some rev, None)))
        (Hnot_ca : CertHash rev <> Raw ca)
        (Hnot_leaf : CertHash rev <> Raw leaf) :
  VerifyUnrevokedChainFunc revDB raw (chain0 :: rest) w = (w1, Go.Returns None).
Proof.
  rewrite (VerifyUnrevoked_unfold _ raw _ rest _ _ _ _ _ _ Hleaf Hca Hget).
  apply bytes_Equal_false in Hnot_ca, Hnot_leaf.
  rewrite Hnot_ca, Hnot_leaf. reflexivity.
Qed.

End VerifyUnrevokedChainFunc_properties.

Section VerifyUnrevokedChainFunc_examples.
#[local] Existing Instance Sample.store.
Import peertls.

Definition sample_chain : list Certificate :=
  [Sample.cert x01 x02; Sample.cert x01 x01].

(** A record for the leaf, signed by the CA: the chain is revoked, and the
    call log shows the look-up followed by the verification. *)
Lemma VerifyUnrevokedChainFunc_revoked_witness :
  VerifyUnrevokedChainFunc
    (Some {| Timestamp := 1; CertHash := [x01; x02]; Signature := [x01; x01] |})
    [] [sample_chain] []
  = (["Get"; "Verify"], Go.Returns ErrRevokedCert).
Proof.
  refine (proj1 (proj2 (@VerifyUnrevokedChainFunc_revoked Sample.calls Sample.store
            (Some {| Timestamp := 1; CertHash := [x01; x02];
                     Signature := [x01; x01] |})
            [] sample_chain [] (Sample.cert x01 x02) (Sample.cert x01 x01)
            [] ["Get"] _ eq_refl eq_refl eq_refl) _ ["Get"; "Verify"] eq_refl _) _).
  - right. reflexivity.
  - reflexivity.
Defined.

(** A record for some other certificate: the chain passes and the call log
    shows the look-up only. *)
Lemma VerifyUnrevokedChainFunc_other_hash_witness :
  VerifyUnrevokedChainFunc
    (Some {| Timestamp := 1; CertHash := [x07; x07]; Signature := [x01; x01] |})
    [] [sample_chain] []
  = (["Get"], Go.Returns None).
Proof.
  apply (@VerifyUnrevokedChainFunc_other_hash Sample.calls Sample.store
           (Some {| Timestamp := 1; CertHash := [x07; x07];
                    Signature := [x01; x01] |})
           [] sample_chain [] (Sample.cert x01 x02) (Sample.cert x01 x01)
           [] ["Get"]
           {| Timestamp := 1; CertHash := [x07; x07]; Signature := [x01; x01] |}
           eq_refl eq_refl eq_refl).
  - discriminate.
  - discriminate.
Defined.

End VerifyUnrevokedChainFunc_examples.

(** ** Node IDs *)

Section NodeIDFromKey_properties.
Context `{E : identity.Env}.
Import identity.


End NodeIDFromKey_properties.

Section NodeIDFromKey_examples.
#[local] Existing Instance Sample.ids.
Import identity.


End NodeIDFromKey_examples.

(** ** The bandwidth-agreement receiver *)

Section BandwidthAgreements_properties.
Context {W : Type} `{I : identity.Env} `{E : bwagreement.Env W}.
Import identity bwagreement.

Lemma NodeID_eqb_refl (a : NodeID) : NodeID_eqb a a = true.
Proof. unfold NodeID_eqb. apply bytes_Equal_true. reflexivity. Qed.

(** Every error path of [PeerIdentityFromContext] returns a nil identity. *)
Lemma PeerIdentityFromContext_error_nil (ctx : Context) pi e :
  PeerIdentityFromContext ctx = Go.Returns (pi, Some e) -> pi = None.
Proof.
  unfold PeerIdentityFromContext, PeerIdentityFromPeer, PeerIdentityFromCerts.
  destruct (peer_FromContext ctx) as [[[c|]]|]; cbn [Peer_AuthInfo];
    try discriminate.
  - destruct (List.length c <? 2)%nat; [intros H; inversion H; reflexivity|].
    destruct (Go.index c peertls.LeafIndex) as [leaf|]; [|discriminate].
    destruct (Go.index c peertls.CAIndex) as [ca|]; [|discriminate].
    cbn [Go.bind].
    destruct (NodeIDFromKey (PublicKey ca)) as [i [err|]];
      intros H; inversion H; reflexivity.
  - intros H; inversion H; reflexivity.
Qed.

(** C1, as the code behaves.  When [PeerIdentityFromContext] returns an
    error, its identity is nil, and building the [ErrBadID] message reads
    [pi.ID] through it: the call panics with a nil dereference and returns
    neither a reply nor an error. *)
Theorem BandwidthAgreements_without_identity_panics
        (s : Server) (ctx : Context) (rba : RenterBandwidthAllocation) (w : W)
        pi e
        (Hctx : PeerIdentityFromContext ctx = Go.Returns (pi, Some e)) :
  BandwidthAgreements s ctx rba w = (w, Go.Panics Go.NilDereference).
Proof.
  pose proof (PeerIdentityFromContext_error_nil ctx pi e Hctx) as ->.
  unfold BandwidthAgreements, bindM, lift. rewrite Hctx. reflexivity.
Qed.




End BandwidthAgreements_properties.

Section BandwidthAgreements_examples.
#[local] Existing Instance Sample.ids.
#[local] Existing Instance Sample.bw.
Import identity bwagreement.

(** A storage node whose CA key is [Sample.pub 1], an uplink whose key is
    [Sample.pub 7] and a satellite whose key is [Sample.pub 5]. *)
Definition storage_ctx : Context :=
  {| peer_FromContext :=
       Some {| Peer_AuthInfo := TLSInfo [Sample.cert x01 x02; Sample.cert x01 x01] |} |}.

Definition storage_id : NodeID := fst (NodeIDFromKey (PubECDSA (Sample.pub 1))).
Definition uplink_id : NodeID := Vector.const x07 32.
Definition satellite_id : NodeID := Vector.const x05 32.

Definition satellite : Server :=
  {| pkey := PubECDSA (Sample.pub 5); Server_NodeID := satellite_id |}.

Definition signed_pba (expiration : Z) : PayerBandwidthAllocation :=
  {| SatelliteId := satellite_id; UplinkId := uplink_id; MaxSize := 1024;
     ExpirationUnixSec := expiration; SerialNumber := "serial-1";
     CreatedUnixSec := 0; PBA_Certs := [];
     PBA_Signature := Sample.sign (NodeID_Bytes satellite_id) (Sample.pub 5) |}.

Definition signed_rba (expiration : Z) : RenterBandwidthAllocation :=
  {| PayerAllocation := signed_pba expiration; Total := 512;
     StorageNodeId := storage_id; RBA_Certs := [];
     RBA_Signature := Sample.sign (NodeID_Bytes storage_id) (Sample.pub 7) |}.

Definition at_time (t : Z) (stored : list string) : Sample.world :=
  {| Sample.serials := stored; Sample.clock := t |}.

(** No gRPC peer in the context: the call panics. *)
Lemma BandwidthAgreements_without_identity_panics_witness :
  BandwidthAgreements satellite {| peer_FromContext := None |} (signed_rba 200)
                      (at_time 100 [])
  = (at_time 100 [], Go.Panics Go.NilDereference).
Proof.
  apply (@BandwidthAgreements_without_identity_panics Sample.world Sample.ids Sample.bw
           satellite {| peer_FromContext := None |} (signed_rba 200)
           (at_time 100 []) None
           (Classed identity.Error (Message "unable to get grpc peer from contex" []))).
  reflexivity.
Defined.




End BandwidthAgreements_examples.

(** ** The key generator *)

Section set_nth_facts.
Context {A : Type}.
Import identity.

Lemma set_nth_length (l : list A) i a : List.length (set_nth l i a) = List.length l.
Proof.
  revert i; induction l as [|x l IH]; intros [|i]; simpl; auto.
Qed.

Lemma Forall_set_nth (P : A -> Prop) (l : list A) i a :
  Forall P l -> P a -> Forall P (set_nth l i a).
Proof.
  intros Hl Ha. revert i. induction Hl as [|x l Hx Hl IH]; intros [|i]; simpl;
    constructor; auto.
Qed.

Lemma nth_error_Forall (P : A -> Prop) (l : list A) i a :
  Forall P l -> nth_error l i = Some a -> P a.
Proof.
  intros Hl Hi. rewrite Forall_forall in Hl. apply Hl.
  eapply nth_error_In; eauto.
Qed.

(** Replacing the element at [i] changes a sum of weights by the
    difference of the two weights. *)
Lemma weight_set_nth (f : A -> nat) (l : list A) i a b :
  nth_error l i = Some a ->
  (list_sum (map f (set_nth l i b)) + f a = list_sum (map f l) + f b)%nat.
Proof.
  revert i; induction l as [|x l IH]; intros [|i] Hi; simpl in *; try discriminate.
  - inversion Hi; subst. lia.
  - specialize (IH i Hi). lia.
Qed.

End set_nth_facts.

Section GenerateKeys_properties.
Context `{E : identity.Env} {S : Type} (found : identity.GenerateCallback S).
Variable minDifficulty : Z.
Import identity.

(** What one step of worker [i] does to its own position, to the shared
    variables and to the channel. *)
Inductive moves (s : system S (cb_pc found)) (gen : result ecdsa_PrivateKey)
  : worker (cb_pc found) -> worker (cb_pc found) -> S -> list (option error) -> Prop :=
| moves_cancelled err :
    GenerateKey_check (ctx_Err s) = Some err ->
    moves s gen AtLoopHead (AtSend err) (shared s) (errchan s)
| moves_live :
    GenerateKey_check (ctx_Err s) = None ->
    moves s gen AtLoopHead AtGenerate (shared s) (errchan s)
| moves_again :
    GenerateKey_body minDifficulty gen = Again ->
    moves s gen AtGenerate AtLoopHead (shared s) (errchan s)
| moves_found k id :
    GenerateKey_body minDifficulty gen = Found k id ->
    moves s gen AtGenerate (InCallback k id (cb_enter found)) (shared s) (errchan s)
| moves_failed err :
    GenerateKey_body minDifficulty gen = Failed err ->
    moves s gen AtGenerate (AtSend err) (shared s) (errchan s)
| moves_callback k id pc sh pc' :
    cb_step found k id pc (shared s) = Some (sh, inl pc') ->
    moves s gen (InCallback k id pc) (InCallback k id pc') sh (errchan s)
| moves_callback_error k id pc sh done e :
    cb_step found k id pc (shared s) = Some (sh, inr (done, Some e)) ->
    moves s gen (InCallback k id pc) (AtSend (Some e)) sh (errchan s)
| moves_callback_done k id pc sh :
    cb_step found k id pc (shared s) = Some (sh, inr (true, None)) ->
    moves s gen (InCallback k id pc) (AtSend None) sh (errchan s)
| moves_callback_more k id pc sh :
    cb_step found k id pc (shared s) = Some (sh, inr (false, None)) ->
    moves s gen (InCallback k id pc) AtLoopHead sh (errchan s)
| moves_send err :
    (List.length (errchan s) < capacity s)%nat ->
    moves s gen (AtSend err) Exited (shared s) (errchan s ++ [err]).

Lemma worker_step_inv i gen (s s' : system S (cb_pc found)) :
  worker_step found minDifficulty i gen s = Some s' ->
  exists w w' sh ch,
    nth_error (workers s) i = Some w
    /\ moves s gen w w' sh ch
    /\ s' = {| ctx_Err := ctx_Err s; capacity := capacity s; errchan := ch;
               workers := set_nth (workers s) i w'; shared := sh;
               returned := returned s |}.
Proof.
  unfold worker_step, with_worker, with_shared.
  destruct (nth_error (workers s) i) as [[| |k id pc|err|]|] eqn:Hw;
    try discriminate.
  - destruct (GenerateKey_check (ctx_Err s)) as [err|] eqn:Hc;
      intros H; inversion H; subst; clear H; simpl;
      do 4 eexists; (split; [reflexivity|]); (split; [|reflexivity]).
    + apply moves_cancelled; assumption.
    + apply moves_live; assumption.
  - destruct (GenerateKey_body minDifficulty gen) as [|k id|err] eqn:Hb;
      intros H; inversion H; subst; clear H; simpl;
      do 4 eexists; (split; [reflexivity|]); (split; [|reflexivity]).
    + apply moves_again; assumption.
    + apply moves_found; assumption.
    + apply moves_failed; assumption.
  - destruct (cb_step found k id pc (shared s)) as [[sh [pc'|[done [e|]]]]|] eqn:Hcb;
      try discriminate.
    + intros H; inversion H; subst; clear H; simpl.
      do 4 eexists; (split; [reflexivity|]); (split; [|reflexivity]).
      apply moves_callback; assumption.
    + intros H; inversion H; subst; clear H; simpl.
      do 4 eexists; (split; [reflexivity|]); (split; [|reflexivity]).
      eapply moves_callback_error; eassumption.
    + destruct done; intros H; inversion H; subst; clear H; simpl;
        do 4 eexists; (split; [reflexivity|]); (split; [|reflexivity]).
      * apply moves_callback_done; assumption.
      * apply moves_callback_more; assumption.
  - destruct (List.length (errchan s) <? capacity s)%nat eqn:Hlen; try discriminate.
    intros H; inversion H; subst; clear H.
    do 4 eexists; (split; [reflexivity|]); (split; [|reflexivity]).
    apply moves_send. apply Nat.ltb_lt. assumption.
Qed.

(** A failure of [GenerateKey] is never a nil error. *)
Lemma GenerateKey_body_failed gen err :
  GenerateKey_body minDifficulty gen = Failed err -> err <> None.
Proof.
  unfold GenerateKey_body.
  destruct gen as [k|e]; [|intros H; inversion H; discriminate].
  destruct (NodeIDFromECDSAKey (PublicKey_of k)) as [id [e|]];
    [intros H; inversion H; discriminate|].
  destruct (Difficulty id) as [d|e]; [|intros H; inversion H; discriminate].
  destruct (d >=? minDifficulty); discriminate.
Qed.

Lemma GenerateKey_check_some c err :
  GenerateKey_check c = Some err -> err <> None.
Proof.
  unfold GenerateKey_check. destruct c; intros H; inversion H; discriminate.
Qed.

(** *** The value returned is the first value sent *)

(** What has entered the channel so far: the value received, if any, then
    the values still buffered. *)
Definition ledger (s : system S (cb_pc found)) : list (option error) :=
  match returned s with
  | Some v => v :: errchan s
  | None => errchan s
  end.



(** *** Nil is returned only after a callback said done *)

Definition no_nil_yet (s : system S (cb_pc found)) : Prop :=
  returned s <> Some None
  /\ ~ In None (errchan s)
  /\ Forall (fun w => w <> AtSend None) (workers s).

Lemma step_no_nil ev (s s' : system S (cb_pc found)) :
  step found minDifficulty ev s = Some s' ->
  no_nil_yet s ->
  no_nil_yet s' \/ callback_returned found (s, ev) = Some (true, None).
Proof.
  intros Hstep (Hret & Hch & Hws).
  destruct ev as [r|i gen|]; simpl in Hstep.
  - left. unfold cancel_step in Hstep. inversion Hstep; subst; clear Hstep.
    repeat split; assumption.
  - destruct (worker_step_inv _ _ _ _ Hstep) as (w & w' & sh & ch & Hw & Hm & ->).
    assert (Hkeep : forall w'', w'' <> AtSend None ->
              no_nil_yet {| ctx_Err := ctx_Err s; capacity := capacity s;
                            errchan := errchan s;
                            workers := set_nth (workers s) i w''; shared := sh;
                            returned := returned s |}).
    { intros w'' Hw''. repeat split; simpl; auto using Forall_set_nth. }
    inversion Hm; subst; try (left; apply Hkeep; discriminate).
    + left. apply Hkeep. intros Heq; inversion Heq; subst.
      eapply GenerateKey_check_some; eauto.
    + left. apply Hkeep. intros Heq; inversion Heq; subst.
      eapply GenerateKey_body_failed; eauto.
    + right. simpl. rewrite Hw. rewrite H. reflexivity.
    + left. repeat split; simpl; auto.
      * rewrite in_app_iff. intros [Hin|[Heq|[]]]; [auto|]. subst err.
        eapply (nth_error_Forall _ _ _ _ Hws Hw). reflexivity.
      * apply Forall_set_nth; [assumption|discriminate].
  - left. unfold receive_step in Hstep.
    destruct (returned s) eqn:Hr; [discriminate|].
    destruct (errchan s) as [|v rest] eqn:Hc; [discriminate|].
    inversion Hstep; subst; clear Hstep. repeat split; simpl.
    + intros Heq; inversion Heq; subst. apply Hch. left. reflexivity.
    + intros Hin. apply Hch. right. assumption.
    + assumption.
Qed.

Lemma run_no_nil evs : forall (s s' : system S (cb_pc found)),
  run found minDifficulty evs s = Some s' ->
  no_nil_yet s ->
  no_nil_yet s'
  \/ In (true, None) (collect (callback_returned found)
                              (history found minDifficulty evs s)).
Proof.
  induction evs as [|ev evs IH]; intros s s'; simpl.
  - intros H; inversion H; subst. auto.
  - destruct (step found minDifficulty ev s) as [s1|] eqn:Hstep; [|discriminate].
    intros Hrun Hs. unfold collect. cbn [flat_map]. fold (collect (callback_returned found)).
    destruct (step_no_nil _ _ _ Hstep Hs) as [Hs1|Hcb].
    + destruct (IH _ _ Hrun Hs1) as [Hs'|Hin]; [left; assumption|].
      right. apply in_or_app. right. exact Hin.
    + right. apply in_or_app. left. rewrite Hcb. left. reflexivity.
Qed.

End GenerateKeys_properties.

Section GenerateKeys_cancelled.
Context `{E : identity.Env} {S : Type} (found : identity.GenerateCallback S).
Variable minDifficulty : Z.
Import identity.

(** The error a worker reports when it finds the context ended with [r]. *)
Definition cancellation (r : ctx_error) : option error :=
  Some (Classed ErrNodeID (ctx_error_value r)).

(** The steps a worker of this regime still has to take. *)
Definition weight (w : worker (cb_pc found)) : nat :=
  match w with
  | AtLoopHead => 2
  | AtSend _ => 1
  | _ => 0
  end.

Definition exited (w : worker (cb_pc found)) : nat :=
  match w with
  | Exited => 1
  | _ => 0
  end.

Definition measure (s : system S (cb_pc found)) : nat :=
  list_sum (map weight (workers s))
  + match returned s with Some _ => 0 | None => 1 end.

(** An event that is a step of the program, not of its environment. *)
Definition is_move (ev : event) : bool :=
  match ev with
  | Cancel _ => false
  | _ => true
  end.

(** What holds throughout a run whose context had ended with [r] before
    the call. *)
Record cancelled (r : ctx_error) (n : nat) (s : system S (cb_pc found)) : Prop := {
  c_ctx : ctx_Err s = Some r;
  c_capacity : capacity s = n;
  c_length : List.length (workers s) = n;
  c_workers : Forall (fun w => w = AtLoopHead \/ w = AtSend (cancellation r)
                               \/ w = Exited) (workers s);
  c_errchan : Forall (fun v => v = cancellation r) (errchan s);
  c_returned : returned s = None \/ returned s = Some (cancellation r);
  c_exited : list_sum (map exited (workers s)) = List.length (ledger found s)
}.

Lemma step_cancelled r n ev (s s' : system S (cb_pc found)) :
  step found minDifficulty ev s = Some s' ->
  cancelled r n s ->
  cancelled r n s'
  /\ (measure s' + (if is_move ev then 1 else 0) = measure s)%nat.
Proof.
  intros Hstep [Hctx Hcap Hlen Hws Hch Hret Hex].
  destruct ev as [r'|i gen|]; simpl in Hstep.
  - unfold cancel_step in Hstep. inversion Hstep; subst; clear Hstep.
    split; [|unfold measure; simpl; lia].
    constructor; simpl; auto. rewrite Hctx. reflexivity.
  - destruct (worker_step_inv _ _ _ _ _ _ Hstep)
      as (w & w' & sh & ch & Hw & Hm & ->).
    pose proof (nth_error_Forall _ _ _ _ Hws Hw) as Hwi.
    pose proof (weight_set_nth weight _ _ _ w' Hw) as Hweight.
    pose proof (weight_set_nth exited _ _ _ w' Hw) as Hexited.
    unfold measure, ledger in *; simpl in *.
    destruct Hwi as [-> | [-> | ->]]; inversion Hm; subst; simpl in *.
    + (* the context has ended: go and report it *)
      rewrite Hctx in H. inversion H; subst.
      split; [|lia].
      constructor; simpl; auto.
      * rewrite set_nth_length; assumption.
      * apply Forall_set_nth; [assumption|]. right. left. reflexivity.
      * unfold ledger; simpl. lia.
    + rewrite Hctx in H. discriminate H.
    + (* send the report *)
      split; [|lia].
      constructor; simpl; auto.
      * rewrite set_nth_length; assumption.
      * apply Forall_set_nth; [assumption|]. right. right. reflexivity.
      * apply Forall_app. split; [assumption|]. constructor; [reflexivity|constructor].
      * unfold ledger; simpl.
        destruct (returned s); simpl in *; rewrite ?length_app; simpl; lia.
  - unfold receive_step in Hstep.
    destruct (returned s) eqn:Hr; [discriminate|].
    destruct (errchan s) as [|v rest] eqn:Hc; [discriminate|].
    inversion Hstep; subst; clear Hstep.
    inversion Hch; subst.
    split; [|unfold measure; simpl; rewrite Hr; lia].
    constructor; simpl; auto.
    + rewrite Hctx. reflexivity.
    + unfold ledger in *; simpl in *. rewrite Hr, Hc in Hex. exact Hex.
Qed.


Lemma le_list_sum {A} (f : A -> nat) (l : list A) i a :
  nth_error l i = Some a -> (f a <= list_sum (map f l))%nat.
Proof.
  revert i; induction l as [|x l IH]; intros [|i] Hi; simpl in *; try discriminate.
  - inversion Hi; subst. lia.
  - specialize (IH i Hi). lia.
Qed.


Lemma start_cancelled r concurrency sh (s0 : system S (cb_pc found)) :
  GenerateKeys_start found (Some r) concurrency sh = Go.Returns s0 ->
  cancelled r (Z.to_nat concurrency) s0
  /\ measure s0 = (2 * Z.to_nat concurrency + 1)%nat.
Proof.
  unfold GenerateKeys_start. destruct (concurrency <? 0); [discriminate|].
  intros H; inversion H; subst; clear H.
  assert (Hsum : forall m, list_sum (map weight (repeat AtLoopHead m)) = (2 * m)%nat
                           /\ list_sum (map exited (repeat AtLoopHead m)) = 0%nat).
  { induction m as [|m [IH1 IH2]]; simpl; [auto|]. rewrite IH1, IH2. lia. }
  destruct (Hsum (Z.to_nat concurrency)) as [Hw He].
  split.
  - constructor; simpl; auto.
    + apply repeat_length.
    + apply Forall_forall. intros w Hin. apply repeat_spec in Hin. auto.
  - unfold measure; simpl. rewrite Hw. lia.
Qed.


End GenerateKeys_cancelled.

(** ** NewCA *)

Section NewCA_properties.
Context `{E : identity.Env} `{C : peertls.Crypto} `{CE : identity.CAEnv}.
Variable opts : identity.NewCAOptions.
Import identity.

(** The selected key and ID, once a key is selected. *)
Definition selection (sh : ca_shared) : option (ecdsa_PrivateKey * NodeID) :=
  match selectedKey sh with
  | Some k => Some (k, selectedID sh)
  | None => None
  end.

(** The ID meets the configured floor and the generator's own. *)
Definition meets_floor (id : NodeID) : Prop :=
  exists d, Difficulty id = Ok d
            /\ opt_Difficulty opts <= d /\ minimumLoggableDifficulty <= d.

(** What is known of a worker, given the shared variables. *)
Definition worker_ok (sh : ca_shared) (w : worker ca_pc) : Prop :=
  match w with
  | InCallback k id pc =>
      (exists d0, Difficulty id = Ok d0 /\ minimumLoggableDifficulty <= d0)
      /\ match pc with
         | CbLock d | CbSelect d => Difficulty id = Ok d /\ opt_Difficulty opts <= d
         | CbUnlock _ | CbFound _ => selectedKey sh <> None
         | _ => True
         end
  | AtSend None => selectedKey sh <> None
  | _ => True
  end.

Lemma selection_updateStatus sh : selection (updateStatus opts sh) = selection sh.
Proof. unfold updateStatus. destruct (Logger opts); reflexivity. Qed.

(** A step of the callback selects its candidate when it runs the
    critical section on an empty slot, and otherwise leaves the selection
    as it is. *)
Lemma found_step_selection k id pc sh sh' next :
  NewCA_found_step opts k id pc sh = Some (sh', next) ->
  selection sh'
  = match selection sh with
    | Some x => Some x
    | None => match pc with CbSelect _ => Some (k, id) | _ => None end
    end.
Proof.
  assert (Hsame : forall x : option (ecdsa_PrivateKey * NodeID),
             x = match x with Some y => Some y | None => None end)
    by (intros [y|]; reflexivity).
  unfold NewCA_found_step. cbv zeta. destruct pc as [|d|d|d|d|d|d hs].
  - destruct (Logger opts);
      [destruct (counter (add_counter sh) mod 100 =? 0)|];
      (destruct (Difficulty id) as [dd|e];
       [destruct (dd >=? opt_Difficulty opts)|]);
      intros H; inversion H; subst; clear H;
      rewrite ?selection_updateStatus; apply Hsame.
  - destruct (mu sh); [discriminate|].
    intros H; inversion H; subst; clear H. apply Hsame.
  - destruct (selectedKey sh) as [k0|] eqn:Hk;
      intros H; inversion H; subst; clear H;
      unfold selection; simpl; rewrite Hk; reflexivity.
  - intros H; inversion H; subst; clear H. apply Hsame.
  - intros H; inversion H; subst; clear H.
    destruct (Logger opts); [|apply Hsame].
    unfold log, selection; simpl.
    change (selection (updateStatus opts (set_highscore sh d))
            = match selection sh with Some x => Some x | None => None end).
    rewrite selection_updateStatus. apply Hsame.
  - destruct (d <=? highscore sh);
      intros H; inversion H; subst; clear H; apply Hsame.
  - destruct (highscore sh =? hs);
      intros H; inversion H; subst; clear H; [|apply Hsame].
    rewrite selection_updateStatus. apply Hsame.
Qed.

Lemma selection_some_key sh x :
  selection sh = Some x -> selectedKey sh = Some (fst x) /\ selectedID sh = snd x.
Proof.
  unfold selection. destruct (selectedKey sh); [|discriminate].
  intros H; inversion H; subst. auto.
Qed.

Lemma selection_none sh : selection sh = None <-> selectedKey sh = None.
Proof.
  unfold selection. destruct (selectedKey sh); split; congruence.
Qed.

(** A selection, once made, stays. *)
Lemma found_step_keeps k id pc sh sh' next :
  NewCA_found_step opts k id pc sh = Some (sh', next) ->
  selectedKey sh <> None -> selectedKey sh' <> None.
Proof.
  intros Hstep Hsel. apply found_step_selection in Hstep.
  rewrite <- selection_none in *.
  destruct (selection sh); [rewrite Hstep; discriminate|contradiction].
Qed.

Lemma worker_ok_mono sh sh' w :
  (selectedKey sh <> None -> selectedKey sh' <> None) ->
  worker_ok sh w -> worker_ok sh' w.
Proof.
  intros Hmono. destruct w as [| |k id pc|[e|]|]; simpl; auto.
  intros [Hd Hpc]. split; [assumption|]. destruct pc; auto.
Qed.

(** Where a step of the callback leaves the worker that took it. *)
Lemma found_step_ok k id pc sh sh' next :
  NewCA_found_step opts k id pc sh = Some (sh', next) ->
  worker_ok sh (InCallback k id pc) ->
  match next with
  | inl pc' => worker_ok sh' (InCallback k id pc')
  | inr (true, None) => selectedKey sh' <> None
  | inr _ => True
  end.
Proof.
  intros Hstep [Hd Hpc].
  pose proof (found_step_selection _ _ _ _ _ _ Hstep) as Hsel.
  pose proof (found_step_keeps _ _ _ _ _ _ Hstep) as Hkeep.
  unfold NewCA_found_step in Hstep. cbv zeta in Hstep.
  destruct pc as [|d|d|d|d|d|d hs].
  - destruct (Difficulty id) as [dd|e] eqn:Hdd in Hstep.
    + destruct (dd >=? opt_Difficulty opts) eqn:Hge;
        inversion Hstep; subst; clear Hstep; simpl; split; auto.
      split; [assumption|]. apply Z.geb_le in Hge. assumption.
    + inversion Hstep; subst; clear Hstep. exact I.
  - destruct (mu sh); [discriminate|].
    inversion Hstep; subst; clear Hstep. simpl. auto.
  - assert (selectedKey sh' <> None).
    { rewrite <- selection_none. rewrite Hsel.
      destruct (selection sh); discriminate. }
    destruct (selectedKey sh); inversion Hstep; subst; clear Hstep; simpl; auto.
  - inversion Hstep; subst; clear Hstep. simpl. auto.
  - inversion Hstep; subst; clear Hstep. auto.
  - destruct (d <=? highscore sh); inversion Hstep; subst; clear Hstep; simpl; auto.
  - destruct (highscore sh =? hs); inversion Hstep; subst; clear Hstep; simpl; auto.
Qed.

Lemma GenerateKey_body_found gen k id :
  GenerateKey_body minimumLoggableDifficulty gen = Found k id ->
  exists d0, Difficulty id = Ok d0 /\ minimumLoggableDifficulty <= d0.
Proof.
  unfold GenerateKey_body. destruct gen as [k0|e]; [|discriminate].
  destruct (NodeIDFromECDSAKey (PublicKey_of k0)) as [id0 [e|]]; [discriminate|].
  destruct (Difficulty id0) as [d|e] eqn:Hd; [|discriminate].
  destruct (d >=? minimumLoggableDifficulty) eqn:Hge; [|discriminate].
  intros H; inversion H; subst. exists d. split; [assumption|].
  apply Z.geb_le. assumption.
Qed.

(** What holds of [NewCA] and its goroutines throughout a run. *)
Record ca_inv (s : ca_system) : Prop := {
  i_workers :
    Forall (worker_ok (shared (generator s))) (workers (generator s));
  i_selected :
    forall x, selection (shared (generator s)) = Some x -> meets_floor (snd x);
  i_errchan :
    In None (errchan (generator s)) -> selectedKey (shared (generator s)) <> None;
  i_returned :
    returned (generator s) = Some None -> selectedKey (shared (generator s)) <> None;
  i_result :
    forall ca, ca_returned s = Some (Some ca, None) ->
               selection (shared (generator s)) <> None
               /\ option_map (fun k => (k, CA_ID ca)) (CA_Key ca)
                  = selection (shared (generator s))
}.

Lemma NewCA_finish_success err sh ca :
  NewCA_finish opts err sh = (Some ca, None) ->
  err = None /\ CA_Key ca = selectedKey sh /\ CA_ID ca = selectedID sh.
Proof.
  unfold NewCA_finish. destruct err; [discriminate|].
  destruct CATemplate as [ct|e]; [|discriminate].
  destruct (peertls.NewCert _ _ _ _ _) as [c [e|]]; [discriminate|].
  intros H; inversion H; subst; simpl. auto.
Qed.


(** A worker moves without touching the shared variables. *)
Lemma inv_replace_worker (s : ca_system) c i w' ch :
  ca_inv s ->
  worker_ok (shared (generator s)) w' ->
  (In None ch ->
   In None (errchan (generator s)) \/ selectedKey (shared (generator s)) <> None) ->
  ca_inv {| generator :=
              {| ctx_Err := c; capacity := capacity (generator s); errchan := ch;
                 workers := set_nth (workers (generator s)) i w';
                 shared := shared (generator s);
                 returned := returned (generator s) |};
            ca_returned := ca_returned s |}.
Proof.
  intros [Hws Hsel Hch Hret Hres] Hw' Hin.
  constructor; cbn [generator shared workers errchan returned ca_returned]; auto.
  - apply Forall_set_nth; assumption.
  - intros Hnone. destruct (Hin Hnone); auto.
Qed.

(** A worker takes a step of the callback. *)
Lemma inv_callback (s : ca_system) i k id pc sh' next w' :
  ca_inv s ->
  nth_error (workers (generator s)) i = Some (InCallback k id pc) ->
  NewCA_found_step opts k id pc (shared (generator s)) = Some (sh', next) ->
  worker_ok sh' w' ->
  ca_inv {| generator :=
              {| ctx_Err := ctx_Err (generator s);
                 capacity := capacity (generator s);
                 errchan := errchan (generator s);
                 workers := set_nth (workers (generator s)) i w';
                 shared := sh';
                 returned := returned (generator s) |};
            ca_returned := ca_returned s |}.
Proof.
  intros [Hws Hsel Hch Hret Hres] Hw Hstep Hw'.
  pose proof (found_step_selection _ _ _ _ _ _ Hstep) as Hs.
  pose proof (found_step_keeps _ _ _ _ _ _ Hstep) as Hkeep.
  pose proof (nth_error_Forall _ _ _ _ Hws Hw) as [[d0 [Hd0 Hmin]] Hpc].
  constructor; cbn [generator shared workers errchan returned ca_returned]; auto.
  - apply Forall_set_nth; [|assumption].
    eapply Forall_impl; [|exact Hws]. intros w. apply worker_ok_mono. assumption.
  - intros x Hx. rewrite Hs in Hx.
    destruct (selection (shared (generator s))) as [y|] eqn:Hy.
    + inversion Hx; subst. apply Hsel. reflexivity.
    + destruct pc; try discriminate. inversion Hx; subst. cbn [snd].
      destruct Hpc as [Hd Hfloor]. exists difficulty. repeat split; auto.
      rewrite Hd in Hd0. inversion Hd0; subst. assumption.
  - intros ca Hca. destruct (Hres ca Hca) as [Hsome Heq]. rewrite Hs.
    destruct (selection (shared (generator s))); [|contradiction].
    split; [discriminate|assumption].
Qed.

Lemma ca_step_inv ev (s s' : ca_system) :
  ca_step opts ev s = Some s' ->
  ca_inv s ->
  ca_inv s' /\ (forall x, entered (s, ev) = Some x -> meets_floor (snd x)).
Proof.
  intros Hstep Hinv.
  destruct ev as [[r|i gen|]|]; cbn [ca_step step] in Hstep.
  - unfold cancel_step in Hstep. inversion Hstep; subst; clear Hstep.
    split; [|discriminate].
    destruct Hinv as [Hws Hsel Hch Hret Hres]. constructor; auto.
  - destruct (worker_step _ _ _ _ _) as [g|] eqn:Hws; [|discriminate].
    inversion Hstep; subst; clear Hstep.
    destruct (worker_step_inv _ _ _ _ _ _ Hws)
      as (w & w' & sh & ch & Hw & Hm & ->).
    pose proof (nth_error_Forall _ _ _ _ (i_workers _ Hinv) Hw) as Hok.
    split.
    + inversion Hm; subst;
        try (apply inv_replace_worker; [assumption | | auto]).
      * (* the context has ended *)
        pose proof (GenerateKey_check_some _ _ H) as Hne.
        destruct err; [exact I|contradiction].
      * exact I.
      * exact I.
      * split; [|exact I]. eapply GenerateKey_body_found; eassumption.
      * pose proof (GenerateKey_body_failed _ _ _ H) as Hne.
        destruct err; [exact I|contradiction].
      * eapply inv_callback; eauto.
        exact (found_step_ok _ _ _ _ _ _ H Hok).
      * eapply inv_callback; eauto. exact I.
      * eapply inv_callback; eauto.
        exact (found_step_ok _ _ _ _ _ _ H Hok).
      * eapply inv_callback; eauto. exact I.
      * exact I.
      * intros Hin. apply in_app_or in Hin. destruct Hin as [Hin|[Heq|[]]].
        -- left. assumption.
        -- right. subst err. exact Hok.
    + change (cb_pc (NewCA_found opts)) with ca_pc in *.
      cbn [entered]. rewrite Hw. intros x Hx.
      destruct w as [| |k id pc| |]; try discriminate.
      destruct pc; try discriminate. inversion Hx; subst. cbn [snd].
      destruct Hok as [[d0 [Hd0 Hmin]] [Hd Hfloor]].
      exists difficulty. repeat split; auto.
      rewrite Hd in Hd0. inversion Hd0; subst. assumption.
  - destruct (receive_step _) as [g|] eqn:Hrs; [|discriminate].
    inversion Hstep; subst; clear Hstep. split; [|discriminate].
    unfold receive_step in Hrs.
    change (cb_pc (NewCA_found opts)) with ca_pc in *.
    destruct (returned (generator s)) eqn:Hr; [discriminate|].
    destruct (errchan (generator s)) as [|v rest] eqn:Hc; [discriminate|].
    inversion Hrs; subst; clear Hrs.
    destruct Hinv as [Hws Hsel Hch Hret Hres].
    constructor; cbn [generator shared workers errchan returned ca_returned]; auto.
    + intros Hin. apply Hch. rewrite Hc. right. assumption.
    + intros Hv. inversion Hv; subst. apply Hch. rewrite Hc. left. reflexivity.
  - destruct (returned (generator s)) as [err|] eqn:Hr; [|discriminate].
    destruct (ca_returned s) eqn:Hcr; [discriminate|].
    inversion Hstep; subst; clear Hstep. split; [|discriminate].
    destruct Hinv as [Hws Hsel Hch Hret Hres].
    constructor; cbn [generator shared workers errchan returned ca_returned]; auto.
    intros ca Hca. inversion Hca as [Hfin]; clear Hca.
    apply NewCA_finish_success in Hfin. destruct Hfin as (-> & Hkey & Hid).
    specialize (Hret Hr).
    unfold selection. rewrite Hkey, Hid.
    destruct (selectedKey (shared (generator s))); [|contradiction].
    split; [discriminate|reflexivity].
Qed.


Lemma NewCA_start_inv ctx0 s0 :
  NewCA_start opts ctx0 = Go.Returns s0 ->
  ca_inv s0 /\ selection (shared (generator s0)) = None.
Proof.
  unfold NewCA_start, GenerateKeys_start.
  destruct (int_of_uint _ <? 0); [discriminate|].
  intros H; inversion H; subst; clear H.
  split; [|reflexivity].
  constructor; cbn [generator shared workers errchan returned ca_returned].
  - apply Forall_forall. intros w Hin. apply repeat_spec in Hin. subst. exact I.
  - discriminate.
  - intros [].
  - discriminate.
  - discriminate.
Qed.


End NewCA_properties.

Section Generator_examples.
#[local] Existing Instance Sample.ids.
#[local] Existing Instance Sample.crypto.
#[local] Existing Instance Sample.ca.
Import identity.

(** In the small world the ID of a key depends on its [X] modulo 256:
    the keys 85 and 341 have an ID of difficulty 248, the key 1 one of
    difficulty 2. *)
Definition floor8 (concurrency : Z) (logger : bool) : NewCAOptions :=
  {| opt_Difficulty := 8; opt_Concurrency := concurrency;
     ParentCert := None; ParentKey := None; Logger := logger |}.

Definition fresh : ca_shared :=
  {| highscore := 0; counter := 0; mu := false; selectedKey := None;
     selectedID := NodeID_zero; logged := [] |}.

Definition idle : result ecdsa_PrivateKey := Err (Opaque "not called").

(** One worker; the context ends after the worker has looked at it and
    before the worker has generated its key. *)
Definition cancelled_too_late_start : system ca_shared ca_pc :=
  {| ctx_Err := None; capacity := 1; errchan := []; workers := [AtLoopHead];
     shared := fresh; returned := None |}.




(** One worker, a context that had ended before the call. *)
Definition cancelled_before_start : system ca_shared ca_pc :=
  {| ctx_Err := Some Canceled; capacity := 1; errchan := [];
     workers := [AtLoopHead]; shared := fresh; returned := None |}.

Definition cancelled_before_end : system ca_shared ca_pc :=
  {| ctx_Err := Some Canceled; capacity := 1; errchan := [];
     workers := [Exited]; shared := fresh;
     returned := Some (cancellation Canceled) |}.


(** Two workers whose keys both meet the floor; worker 1 takes the mutex
    first, worker 0 is the one whose callback reports done. *)
Definition two_workers : list ca_event :=
  map Generator
      [Worker 0 idle; Worker 1 idle;
       Worker 0 (Ok (Sample.key 85)); Worker 1 (Ok (Sample.key 341));
       Worker 1 idle; Worker 0 idle;     (* both pass the floor *)
       Worker 1 idle;                    (* worker 1 locks *)
       Worker 1 idle;                    (* and selects its key *)
       Worker 1 idle;                    (* and unlocks *)
       Worker 0 idle; Worker 0 idle; Worker 0 idle;  (* worker 0: slot taken *)
       Worker 0 idle;                    (* found returns true, nil *)
       Worker 0 idle;                    (* errchan <- nil *)
       Receive]
  ++ [Finish].


(** In that run the key returned is worker 1's, 341, of difficulty 248;
    worker 0's key, which met the floor as well, is dropped. *)
Example two_workers_result :
  option_map (fun s => option_map (fun r => option_map CA_Key (fst r)) (ca_returned s))
             (match NewCA_start (floor8 2 true) None with
              | Go.Returns s0 => ca_run (floor8 2 true) two_workers s0
              | Go.Panics _ => None
              end)
  = Some (Some (Some (Some (Sample.key 341))))
  /\ Difficulty (fst (NodeIDFromECDSAKey (Sample.pub 341))) = Ok 248
  /\ Difficulty (fst (NodeIDFromECDSAKey (Sample.pub 1))) = Ok 2.
Proof. repeat split; vm_compute; reflexivity. Qed.

End Generator_examples.

(* ================================================================== *)
(** * Part III: further properties *)
(* ================================================================== *)

(** ** More on the bandwidth-agreement receiver *)

Section BandwidthAgreements_more.
Context {W : Type} `{I : identity.Env} `{E : bwagreement.Env W}.
Import identity bwagreement.

Lemma NodeID_eqb_eq (a b : NodeID) : NodeID_eqb a b = true <-> a = b.
Proof.
  unfold NodeID_eqb, NodeID_Bytes. rewrite bytes_Equal_true. split.
  - apply Vector.to_list_inj.
  - intros ->. reflexivity.
Qed.

Lemma NodeID_eqb_neq (a b : NodeID) : NodeID_eqb a b = false <-> a <> b.
Proof.
  rewrite <- NodeID_eqb_eq. destruct (NodeID_eqb a b); split; congruence.
Qed.

(** X1.  A caller that is identified but is not the storage node named in
    the message is answered [REJECTED] with [ErrBadID], before the clock
    or any store is touched. *)
Theorem BandwidthAgreements_wrong_storage_node
        (s : Server) (ctx : Context) (rba : RenterBandwidthAllocation) (w : W)
        (pi : PeerIdentity)
        (Hctx : PeerIdentityFromContext ctx = Go.Returns (Some pi, None))
        (Hid : StorageNodeId rba <> ID pi) :
  BandwidthAgreements s ctx rba w
  = (w, Go.Returns
          ({| Status := AgreementsSummary_REJECTED |},
           Some (Classed ErrBadID
                   (Message "Storage Node ID: %v vs %v"
                      [VBytes (NodeID_Bytes (StorageNodeId rba));
                       VBytes (NodeID_Bytes (ID pi))])))).
Proof.
  unfold BandwidthAgreements, bindM, lift. rewrite Hctx. cbn [Go.deref Go.bind].
  apply NodeID_eqb_neq in Hid. rewrite Hid. reflexivity.
Qed.

(** X2.  A message from the right storage node but for another satellite
    is answered [REJECTED] with [ErrPayer], before the clock or any store
    is touched. *)
Theorem BandwidthAgreements_wrong_satellite
        (s : Server) (ctx : Context) (rba : RenterBandwidthAllocation) (w : W)
        (pi : PeerIdentity)
        (Hctx : PeerIdentityFromContext ctx = Go.Returns (Some pi, None))
        (Hid : StorageNodeId rba = ID pi)
        (Hsat : SatelliteId (PayerAllocation rba) <> Server_NodeID s) :
  BandwidthAgreements s ctx rba w
  = (w, Go.Returns
          ({| Status := AgreementsSummary_REJECTED |},
           Some (Classed ErrPayer
                   (Message "Satellite ID: %v vs %v"
                      [VBytes (NodeID_Bytes (SatelliteId (PayerAllocation rba)));
                       VBytes (NodeID_Bytes (Server_NodeID s))])))).
Proof.
  unfold BandwidthAgreements, bindM, lift. rewrite Hctx. cbn [Go.deref Go.bind].
  rewrite Hid, NodeID_eqb_refl. cbn [negb].
  apply NodeID_eqb_neq in Hsat. rewrite Hsat. reflexivity.
Qed.

(** [verifySignature] does not panic. *)
Lemma verifySignature_returns (s : Server) (rba : RenterBandwidthAllocation) (w : W) :
  exists w' err, verifySignature s rba w = (w', Go.Returns err).
Proof.
  unfold verifySignature, bindM, call, ret.
  destruct (GetPublicKey _ w) as [w1 [info|e]]; [|eauto].
  destruct (ParsePKIXPublicKey _) as [[k|t]|e]; [|eauto|eauto].
  destruct (_ <? _); [eauto|].
  destruct (Marshal_rba _) as [rb|e]; [|eauto].
  destruct (negb _); [eauto|].
  destruct (pkey s) as [ks|t]; [|eauto].
  destruct (_ <? _); [eauto|].
  destruct (Marshal_pba _) as [pb|e]; [|eauto].
  destruct (negb _); eauto.
Qed.

(** X3.  Whenever the call returns, the status is [OK] exactly when the
    error is nil; the status [FAIL] comes only with an error of class
    [ErrPayer], and every other error comes with [REJECTED]. *)
Theorem BandwidthAgreements_status_matches_error
        (s : Server) (ctx : Context) (rba : RenterBandwidthAllocation) (w w' : W)
        (reply : AgreementsSummary) (err : option error)
        (Hret : BandwidthAgreements s ctx rba w = (w', Go.Returns (reply, err))) :
  (Status reply = AgreementsSummary_OK <-> err = None)
  /\ (Status reply = AgreementsSummary_FAIL ->
      exists e, err = Some (Classed ErrPayer e)).
Proof.
  unfold BandwidthAgreements, bindM, lift, call, ret in Hret.
  destruct (PeerIdentityFromContext ctx) as [[pi e0]|p]; [|discriminate].
  assert (Hrej : forall e : error,
             (w', Go.Returns ({| Status := AgreementsSummary_REJECTED |}, Some e))
             = (w', Go.Returns (reply, err)) ->
             (Status reply = AgreementsSummary_OK <-> err = None)
             /\ (Status reply = AgreementsSummary_FAIL ->
                 exists e, err = Some (Classed ErrPayer e))).
  { intros e H. inversion H; subst. simpl. split; [split|]; discriminate. }
  destruct (match e0 with
            | Some _ => Go.Returns true
            | None => Go.bind (Go.deref pi) _
            end) as [[|]|p]; [| |discriminate].
  - destruct (Go.deref pi) as [p|p]; [|discriminate].
    inversion Hret; subst. apply (Hrej _ eq_refl).
  - destruct (negb _).
    { inversion Hret; subst. apply (Hrej _ eq_refl). }
    destruct (time_Now w) as [w1 now].
    destruct (Go.Before _ now).
    { destruct (time_Now w1) as [w2 now']. inversion Hret; subst.
      apply (Hrej _ eq_refl). }
    destruct (verifySignature_returns s rba w1) as (w2 & verr & Hsig).
    rewrite Hsig in Hret. destruct verr as [e|].
    { inversion Hret; subst. apply (Hrej _ eq_refl). }
    destruct (CreateAgreement rba w2) as [w3 [e|]].
    + destruct (_ || _); inversion Hret; subst; simpl.
      * split; [split|]; discriminate.
      * split; [split; discriminate|]. eauto.
    + inversion Hret; subst; simpl. split; [split; reflexivity|discriminate].
Qed.

(** X4.  The status [OK] is given only to a message that passed every
    check: the caller is the storage node named in it, it names this
    satellite, it had not expired when the clock was read, both signatures
    verified, and the store accepted it. *)
Theorem BandwidthAgreements_OK_sound
        (s : Server) (ctx : Context) (rba : RenterBandwidthAllocation) (w w' : W)
        (err : option error)
        (Hret : BandwidthAgreements s ctx rba w
                = (w', Go.Returns ({| Status := AgreementsSummary_OK |}, err))) :
  exists pi w1 now w2,
    PeerIdentityFromContext ctx = Go.Returns (Some pi, None)
    /\ StorageNodeId rba = ID pi
    /\ SatelliteId (PayerAllocation rba) = Server_NodeID s
    /\ time_Now w = (w1, now)
    /\ Go.Before (Go.time_Unix (ExpirationUnixSec (PayerAllocation rba))) now = false
    /\ verifySignature s rba w1 = (w2, Go.Returns None)
    /\ CreateAgreement rba w2 = (w', None)
    /\ err = None.
Proof.
  unfold BandwidthAgreements, bindM, lift, call, ret in Hret.
  destruct (PeerIdentityFromContext ctx) as [[pi e0]|p]; [|discriminate].
  destruct e0 as [e0|].
  { cbn in Hret. destruct (Go.deref pi); discriminate. }
  destruct pi as [pi|]; [|discriminate]. cbn [Go.deref Go.bind] in Hret.
  destruct (NodeID_eqb (StorageNodeId rba) (ID pi)) eqn:Hid; [|discriminate].
  cbn [negb] in Hret.
  destruct (NodeID_eqb (SatelliteId (PayerAllocation rba)) (Server_NodeID s))
    eqn:Hsat; [|discriminate].
  cbn [negb] in Hret.
  destruct (time_Now w) as [w1 now] eqn:Hnow.
  destruct (Go.Before _ now) eqn:Hexp.
  { destruct (time_Now w1); discriminate. }
  destruct (verifySignature s rba w1) as [w2 [[e|]|p]] eqn:Hsig; try discriminate.
  destruct (CreateAgreement rba w2) as [w3 [e|]] eqn:Hdb.
  { destruct (_ || _); discriminate. }
  inversion Hret; subst.
  exists pi, w1, now, w2. apply NodeID_eqb_eq in Hid, Hsat. auto 10.
Qed.

(** X5.  [verifySignature] accepts only when the uplink's stored key and
    the satellite's key are ECDSA keys, both signatures are at least
    [P.BitLen()/8] bytes long, and each verifies over its message
    marshalled with signature and certs cleared; it reads the uplink store
    once and changes nothing else. *)
Theorem verifySignature_sound
        (s : Server) (rba : RenterBandwidthAllocation) (w w' : W)
        (Hok : verifySignature s rba w = (w', Go.Returns None)) :
  let pba := PayerAllocation rba in
  exists info k ks rb pb,
    GetPublicKey (NodeID_Bytes (UplinkId pba)) w = (w', Ok info)
    /\ ParsePKIXPublicKey (Agreement_PublicKey info) = Ok (PubECDSA k)
    /\ pkey s = PubECDSA ks
    /\ Z.quot (Go.BitLen (P (PubCurve k))) 8 <= len (RBA_Signature rba)
    /\ Z.quot (Go.BitLen (P (PubCurve ks))) 8 <= len (PBA_Signature pba)
    /\ Marshal_rba (RBA_SetCerts (RBA_SetSignature rba []) []) = Ok rb
    /\ cryptopasta_Verify rb (RBA_Signature rba) k = true
    /\ Marshal_pba (PBA_SetCerts (PBA_SetSignature pba []) []) = Ok pb
    /\ cryptopasta_Verify pb (PBA_Signature pba) ks = true.
Proof.
  intros pba. unfold pba. clear pba.
  unfold verifySignature, bindM, call, ret in Hok. cbv zeta in Hok.
  destruct (GetPublicKey _ w) as [w1 [info|e]] eqn:Hget; [|discriminate].
  destruct (ParsePKIXPublicKey _) as [[k|t]|e] eqn:Hparse; try discriminate.
  destruct (len (RBA_Signature rba) <? Z.quot (Go.BitLen (P (PubCurve k))) 8)
    eqn:Hlen1; [discriminate|].
  destruct (Marshal_rba _) as [rb|e] eqn:Hrb; [|discriminate].
  destruct (cryptopasta_Verify rb _ k) eqn:Hv1; [|discriminate]. cbn [negb] in Hok.
  destruct (pkey s) as [ks|t] eqn:Hpkey; [|discriminate].
  destruct (len (PBA_Signature (PayerAllocation rba))
            <? Z.quot (Go.BitLen (P (PubCurve ks))) 8) eqn:Hlen2; [discriminate|].
  destruct (Marshal_pba _) as [pb|e] eqn:Hpb; [|discriminate].
  destruct (cryptopasta_Verify pb _ ks) eqn:Hv2; [|discriminate].
  inversion Hok; subst.
  apply Z.ltb_ge in Hlen1, Hlen2.
  exists info, k, ks, rb, pb. auto 12.
Qed.

(** X6.  A renter signature shorter than [P.BitLen()/8] bytes of the
    uplink's curve is refused with [ErrRenter] wrapping [ErrSigLen],
    whatever marshalling and the signature check would give. *)
Theorem verifySignature_short_renter_signature
        (s : Server) (rba : RenterBandwidthAllocation) (w w1 : W)
        (info : UplinkAgreement) (k : ecdsa_PublicKey)
        (Hget : GetPublicKey (NodeID_Bytes (UplinkId (PayerAllocation rba))) w
                = (w1, Ok info))
        (Hparse : ParsePKIXPublicKey (Agreement_PublicKey info) = Ok (PubECDSA k))
        (Hshort : len (RBA_Signature rba) < Z.quot (Go.BitLen (P (PubCurve k))) 8) :
  verifySignature s rba w
  = (w1, Go.Returns
           (Some (Classed ErrRenter
                    (Classed ErrSigLen
                       (Message "%d vs %d"
                          [VInt (len (RBA_Signature rba));
                           VInt (Z.quot (Go.BitLen (P (PubCurve k))) 8)]))))).
Proof.
  unfold verifySignature, bindM, call, ret. rewrite Hget, Hparse.
  apply Z.ltb_lt in Hshort. rewrite Hshort. reflexivity.
Qed.

End BandwidthAgreements_more.

Section BandwidthAgreements_more_examples.
#[local] Existing Instance Sample.ids.
#[local] Existing Instance Sample.bw.
Import identity bwagreement.

Definition storage_identity : PeerIdentity :=
  {| RestChain := []; CA := Sample.cert x01 x01; Leaf := Sample.cert x01 x02;
     ID := storage_id |}.

(** The signed message, readdressed to another storage node, with another
    satellite, or with its signature cut to one byte. *)
Definition rba_for (node : NodeID) (sat : NodeID) (sig : Go.bytes)
  : RenterBandwidthAllocation :=
  {| PayerAllocation :=
       {| SatelliteId := sat; UplinkId := uplink_id; MaxSize := 1024;
          ExpirationUnixSec := 200; SerialNumber := "serial-1";
          CreatedUnixSec := 0; PBA_Certs := [];
          PBA_Signature := Sample.sign (NodeID_Bytes sat) (Sample.pub 5) |};
     Total := 512; StorageNodeId := node; RBA_Certs := [];
     RBA_Signature := sig |}.

Lemma BandwidthAgreements_wrong_storage_node_witness :
  exists err,
    BandwidthAgreements satellite storage_ctx
      (rba_for uplink_id satellite_id []) (at_time 100 [])
    = (at_time 100 [],
       Go.Returns ({| Status := AgreementsSummary_REJECTED |},
                   Some (Classed ErrBadID err))).
Proof.
  eexists.
  apply (@BandwidthAgreements_wrong_storage_node Sample.world Sample.ids Sample.bw
           satellite storage_ctx (rba_for uplink_id satellite_id [])
           (at_time 100 []) storage_identity).
  - vm_compute. reflexivity.
  - apply NodeID_eqb_neq. vm_compute. reflexivity.
Defined.

Lemma BandwidthAgreements_wrong_satellite_witness :
  exists err,
    BandwidthAgreements satellite storage_ctx
      (rba_for storage_id uplink_id []) (at_time 100 [])
    = (at_time 100 [],
       Go.Returns ({| Status := AgreementsSummary_REJECTED |},
                   Some (Classed ErrPayer err))).
Proof.
  eexists.
  apply (@BandwidthAgreements_wrong_satellite Sample.world Sample.ids Sample.bw
           satellite storage_ctx (rba_for storage_id uplink_id [])
           (at_time 100 []) storage_identity).
  - vm_compute. reflexivity.
  - reflexivity.
  - apply NodeID_eqb_neq. vm_compute. reflexivity.
Defined.

Lemma BandwidthAgreements_status_matches_error_witness :
  (AgreementsSummary_OK = AgreementsSummary_OK <-> @None error = None)
  /\ (AgreementsSummary_OK = AgreementsSummary_FAIL ->
      exists e, @None error = Some (Classed ErrPayer e)).
Proof.
  apply (@BandwidthAgreements_status_matches_error Sample.world Sample.ids Sample.bw
           satellite storage_ctx (signed_rba 200)
           (at_time 100 []) (at_time 101 ["serial-1"])
           {| Status := AgreementsSummary_OK |} None).
  vm_compute. reflexivity.
Defined.

Lemma BandwidthAgreements_OK_sound_witness :
  exists pi w1 now w2,
    PeerIdentityFromContext storage_ctx = Go.Returns (Some pi, None)
    /\ StorageNodeId (signed_rba 200) = ID pi
    /\ SatelliteId (PayerAllocation (signed_rba 200)) = Server_NodeID satellite
    /\ time_Now (at_time 100 []) = (w1, now)
    /\ Go.Before (Go.time_Unix (ExpirationUnixSec (PayerAllocation (signed_rba 200))))
                 now = false
    /\ verifySignature satellite (signed_rba 200) w1 = (w2, Go.Returns None)
    /\ CreateAgreement (signed_rba 200) w2 = (at_time 101 ["serial-1"], None)
    /\ @None error = None.
Proof.
  apply (@BandwidthAgreements_OK_sound Sample.world Sample.ids Sample.bw
           satellite storage_ctx (signed_rba 200)
           (at_time 100 []) (at_time 101 ["serial-1"]) None).
  vm_compute. reflexivity.
Defined.

Lemma verifySignature_sound_witness :
  exists info k ks rb pb,
    GetPublicKey (NodeID_Bytes (UplinkId (PayerAllocation (signed_rba 200))))
                 (at_time 100 []) = (at_time 100 [], Ok info)
    /\ ParsePKIXPublicKey (Agreement_PublicKey info) = Ok (PubECDSA k)
    /\ pkey satellite = PubECDSA ks
    /\ Z.quot (Go.BitLen (P (PubCurve k))) 8 <= len (RBA_Signature (signed_rba 200))
    /\ Z.quot (Go.BitLen (P (PubCurve ks))) 8
       <= len (PBA_Signature (PayerAllocation (signed_rba 200)))
    /\ Marshal_rba (RBA_SetCerts (RBA_SetSignature (signed_rba 200) []) []) = Ok rb
    /\ cryptopasta_Verify rb (RBA_Signature (signed_rba 200)) k = true
    /\ Marshal_pba (PBA_SetCerts
                      (PBA_SetSignature (PayerAllocation (signed_rba 200)) []) [])
       = Ok pb
    /\ cryptopasta_Verify pb (PBA_Signature (PayerAllocation (signed_rba 200))) ks
       = true.
Proof.
  apply (@verifySignature_sound Sample.world Sample.bw
           satellite (signed_rba 200) (at_time 100 []) (at_time 100 [])).
  vm_compute. reflexivity.
Defined.

Lemma verifySignature_short_renter_signature_witness :
  exists msg,
    verifySignature satellite (rba_for storage_id satellite_id [x07]) (at_time 100 [])
    = (at_time 100 [],
       Go.Returns (Some (Classed ErrRenter (Classed ErrSigLen msg)))).
Proof.
  eexists.
  apply (@verifySignature_short_renter_signature Sample.world Sample.bw
           satellite (rba_for storage_id satellite_id [x07])
           (at_time 100 []) (at_time 100 [])
           {| Agreement_PublicKey := [x07] |} (Sample.pub 7)).
  - reflexivity.
  - reflexivity.
  - vm_compute. reflexivity.
Defined.

End BandwidthAgreements_more_examples.

(** ** More on the key generator *)

Section GenerateKeys_more.
Context `{E : identity.Env} {S : Type} (found : identity.GenerateCallback S).
Variable minDifficulty : Z.
Import identity.

(** The candidate a worker holds came out of [GenerateKey]. *)
Definition candidate_ok (w : worker (cb_pc found)) : Prop :=
  match w with
  | InCallback k id _ =>
      NodeIDFromECDSAKey (PublicKey_of k) = (id, None)
      /\ exists d, Difficulty id = Ok d /\ minDifficulty <= d
  | _ => True
  end.

Lemma GenerateKey_body_candidate gen k id :
  GenerateKey_body minDifficulty gen = Found k id ->
  NodeIDFromECDSAKey (PublicKey_of k) = (id, None)
  /\ exists d, Difficulty id = Ok d /\ minDifficulty <= d.
Proof.
  unfold GenerateKey_body. destruct gen as [k0|e]; [|discriminate].
  destruct (NodeIDFromECDSAKey (PublicKey_of k0)) as [id0 [e|]] eqn:Hid;
    [discriminate|].
  destruct (Difficulty id0) as [d|e] eqn:Hd; [|discriminate].
  destruct (d >=? minDifficulty) eqn:Hge; [|discriminate].
  intros H; inversion H; subst. split; [assumption|].
  exists d. split; [assumption|]. apply Z.geb_le. assumption.
Qed.

(** What every run keeps, whatever the callback. *)
Record generator_inv (s : system S (cb_pc found)) : Prop := {
  g_candidates : Forall candidate_ok (workers s);
  g_capacity : capacity s = List.length (workers s);
  g_exited : list_sum (map (exited found) (workers s))
             = List.length (ledger found s);
  g_cancel : returned s <> None -> ctx_Err s <> None
}.

Lemma step_generator_inv ev (s s' : system S (cb_pc found)) :
  step found minDifficulty ev s = Some s' ->
  generator_inv s -> generator_inv s'.
Proof.
  intros Hstep [Hcand Hcap Hex Hcancel].
  destruct ev as [r|i gen|]; simpl in Hstep.
  - unfold cancel_step in Hstep. inversion Hstep; subst; clear Hstep.
    constructor; simpl; auto.
    intros Hr. destruct (ctx_Err s); discriminate.
  - destruct (worker_step_inv _ _ _ _ _ _ Hstep)
      as (w & w' & sh & ch & Hw & Hm & ->).
    pose proof (weight_set_nth (exited found) _ _ _ w' Hw) as Hexited.
    pose proof (nth_error_Forall _ _ _ _ Hcand Hw) as Hwi.
    unfold ledger in *; simpl in *.
    inversion Hm; subst;
      try (constructor; simpl;
           [ apply Forall_set_nth; [assumption|]
           | rewrite set_nth_length; assumption
           | unfold ledger; simpl in *; lia
           | assumption ]).
    + exact I.
    + exact I.
    + exact I.
    + eapply GenerateKey_body_candidate; eassumption.
    + exact I.
    + exact Hwi.
    + exact I.
    + exact I.
    + exact I.
    + constructor; simpl.
      * apply Forall_set_nth; [assumption|exact I].
      * rewrite set_nth_length. assumption.
      * unfold ledger; simpl.
        destruct (returned s); simpl in *; rewrite ?length_app; simpl; lia.
      * assumption.
  - unfold receive_step in Hstep.
    destruct (returned s) eqn:Hr; [discriminate|].
    destruct (errchan s) as [|v rest] eqn:Hc; [discriminate|].
    inversion Hstep; subst; clear Hstep.
    constructor; simpl; auto.
    + unfold ledger in *; simpl in *. rewrite Hr, Hc in Hex. exact Hex.
    + intros _. destruct (ctx_Err s); discriminate.
Qed.

Lemma run_generator_inv evs : forall (s s' : system S (cb_pc found)),
  run found minDifficulty evs s = Some s' ->
  generator_inv s -> generator_inv s'.
Proof.
  induction evs as [|ev evs IH]; intros s s'; simpl.
  - intros H Hs; inversion H; subst. assumption.
  - destruct (step found minDifficulty ev s) as [s1|] eqn:Hstep; [|discriminate].
    intros Hrun Hs. eapply IH; eauto using step_generator_inv.
Qed.

Lemma start_generator_inv ctx0 concurrency sh (s0 : system S (cb_pc found)) :
  GenerateKeys_start found ctx0 concurrency sh = Go.Returns s0 ->
  generator_inv s0.
Proof.
  unfold GenerateKeys_start. destruct (concurrency <? 0); [discriminate|].
  intros H; inversion H; subst; clear H.
  constructor; simpl.
  - apply Forall_forall. intros w Hin. apply repeat_spec in Hin. subst. exact I.
  - symmetry. apply repeat_length.
  - induction (Z.to_nat concurrency); simpl; auto.
  - intros H; contradiction.
Qed.

(** X7.  Whatever the callback and the schedule, [found] only ever runs
    on a key that [GenerateKey] produced: the ID is the one derived from
    the key, and its difficulty is at least [minDifficulty]. *)
Theorem GenerateKeys_calls_found_on_candidates
        (ctx0 : option ctx_error) (concurrency : Z) (sh : S)
        (s0 s : system S (cb_pc found)) (evs : list event)
        (i : nat) (k : ecdsa_PrivateKey) (id : NodeID) (pc : cb_pc found)
        (Hstart : GenerateKeys_start found ctx0 concurrency sh = Go.Returns s0)
        (Hrun : run found minDifficulty evs s0 = Some s)
        (Hin : nth_error (workers s) i = Some (InCallback k id pc)) :
  NodeIDFromECDSAKey (PublicKey_of k) = (id, None)
  /\ exists d, Difficulty id = Ok d /\ minDifficulty <= d.
Proof.
  pose proof (run_generator_inv _ _ _ Hrun (start_generator_inv _ _ _ _ Hstart))
    as Hinv.
  exact (nth_error_Forall _ _ _ _ (g_candidates _ Hinv) Hin).
Qed.

Lemma exited_lt_length (l : list (worker (cb_pc found))) i w :
  nth_error l i = Some w -> exited found w = 0%nat ->
  (list_sum (map (exited found) l) < List.length l)%nat.
Proof.
  assert (Hle : forall l', (list_sum (map (exited found) l') <= List.length l')%nat).
  { induction l' as [|x l' IH]; simpl; [lia|].
    destruct x; simpl; lia. }
  revert i; induction l as [|x l IH]; intros [|i] Hi Hw; simpl in *;
    try discriminate.
  - inversion Hi; subst. rewrite Hw. specialize (Hle l). lia.
  - specialize (IH i Hi Hw). destruct x; simpl; lia.
Qed.

(** X8.  The channel has room for every worker's one message: a worker
    that is about to send is never blocked, and the channel never holds
    more values than there are workers. *)
Theorem GenerateKeys_send_never_blocks
        (ctx0 : option ctx_error) (concurrency : Z) (sh : S)
        (s0 s : system S (cb_pc found)) (evs : list event)
        (Hstart : GenerateKeys_start found ctx0 concurrency sh = Go.Returns s0)
        (Hrun : run found minDifficulty evs s0 = Some s) :
  (List.length (errchan s) <= capacity s)%nat
  /\ forall i err gen,
       nth_error (workers s) i = Some (AtSend err) ->
       step found minDifficulty (Worker i gen) s <> None.
Proof.
  pose proof (run_generator_inv _ _ _ Hrun (start_generator_inv _ _ _ _ Hstart))
    as [Hcand Hcap Hex Hcancel].
  assert (Hlen : (List.length (errchan s) <= List.length (ledger found s))%nat).
  { unfold ledger. destruct (returned s); simpl; lia. }
  split.
  - assert (Hle : (list_sum (map (exited found) (workers s))
                   <= List.length (workers s))%nat).
    { clear. induction (workers s) as [|x l IH]; simpl; [lia|].
      destruct x; simpl; lia. }
    lia.
  - intros i err gen Hi. simpl. unfold worker_step. rewrite Hi.
    pose proof (exited_lt_length _ _ _ Hi eq_refl) as Hlt.
    destruct (List.length (errchan s) <? capacity s)%nat eqn:Hroom; [discriminate|].
    apply Nat.ltb_ge in Hroom. lia.
Qed.

(** X9.  With no worker there is nobody to send: called with
    concurrency 0, [GenerateKeys] never returns, and nothing but a
    cancellation of the context ever happens; called with a negative
    concurrency, it panics when it makes the channel. *)
Theorem GenerateKeys_without_workers
        (ctx0 : option ctx_error) (sh : S) :
  (forall concurrency, concurrency < 0 ->
     GenerateKeys_start found ctx0 concurrency sh
     = Go.Panics Go.MakeChanSizeOutOfRange)
  /\ (forall s0 s evs,
        GenerateKeys_start found ctx0 0 sh = Go.Returns s0 ->
        run found minDifficulty evs s0 = Some s ->
        returned s = None /\ forallb (fun ev => negb (is_move ev)) evs = true).
Proof.
  split.
  - intros concurrency Hneg. unfold GenerateKeys_start.
    apply Z.ltb_lt in Hneg. rewrite Hneg. reflexivity.
  - intros s0 s evs Hstart. unfold GenerateKeys_start in Hstart. simpl in Hstart.
    inversion Hstart; subst; clear Hstart.
    assert (Hgen : forall evs (s1 s2 : system S (cb_pc found)),
               workers s1 = [] -> errchan s1 = [] -> returned s1 = None ->
               run found minDifficulty evs s1 = Some s2 ->
               returned s2 = None
               /\ forallb (fun ev => negb (is_move ev)) evs = true).
    { clear. induction evs as [|ev evs IH]; intros s1 s2 Hw Hc Hr; simpl.
      - intros H; inversion H; subst. auto.
      - destruct ev as [r|i gen|]; simpl.
        + apply IH; assumption.
        + unfold worker_step. rewrite Hw. destruct i; discriminate.
        + unfold receive_step. rewrite Hr, Hc. discriminate. }
    apply Hgen; reflexivity.
Qed.

(** X10.  [GenerateKeys] returns once, and by then its context is
    cancelled: after the return the value returned and the state of the
    context no longer change, whatever the workers still do. *)
Theorem GenerateKeys_returns_once
        (ctx0 : option ctx_error) (concurrency : Z) (sh : S)
        (s0 s s' : system S (cb_pc found)) (evs evs' : list event)
        (v : option error)
        (Hstart : GenerateKeys_start found ctx0 concurrency sh = Go.Returns s0)
        (Hrun : run found minDifficulty evs s0 = Some s)
        (Hret : returned s = Some v)
        (Hrun' : run found minDifficulty evs' s = Some s') :
  ctx_Err s <> None /\ returned s' = Some v /\ ctx_Err s' = ctx_Err s.
Proof.
  pose proof (run_generator_inv _ _ _ Hrun (start_generator_inv _ _ _ _ Hstart))
    as [_ _ _ Hcancel].
  assert (Hctx : ctx_Err s <> None) by (apply Hcancel; congruence).
  split; [assumption|].
  clear Hrun Hstart Hcancel. revert s Hret Hctx Hrun'.
  induction evs' as [|ev evs' IH]; intros s Hret Hctx; simpl.
  - intros H; inversion H; subst. auto.
  - destruct (step found minDifficulty ev s) as [s1|] eqn:Hstep; [|discriminate].
    intros Hrun'.
    assert (Hkeep : returned s1 = Some v /\ ctx_Err s1 = ctx_Err s).
    { destruct ev as [r|i gen|]; simpl in Hstep.
      - unfold cancel_step in Hstep. inversion Hstep; subst; simpl.
        split; [assumption|]. destruct (ctx_Err s); [reflexivity|contradiction].
      - destruct (worker_step_inv _ _ _ _ _ _ Hstep)
          as (w & w' & sh' & ch & Hw & Hm & ->). simpl. auto.
      - unfold receive_step in Hstep. rewrite Hret in Hstep. discriminate. }
    destruct Hkeep as [Hret1 Hctx1].
    destruct (IH s1 Hret1) as [Hr Hc]; [congruence|assumption|].
    split; [assumption|congruence].
Qed.

End GenerateKeys_more.

(** ** More on NewCA *)

Section NewCA_more.
Context `{E : identity.Env} `{C : peertls.Crypto} `{CE : identity.CAEnv}.
Variable opts : identity.NewCAOptions.
Import identity.

(** The steps of [GenerateKeys] among the events of a run of [NewCA]. *)
Definition generator_events (evs : list ca_event) : list event :=
  flat_map (fun ev => match ev with Generator e => [e] | Finish => [] end) evs.

Lemma ca_run_generator evs : forall (s s' : ca_system),
  ca_run opts evs s = Some s' ->
  run (NewCA_found opts) minimumLoggableDifficulty (generator_events evs)
      (generator s) = Some (generator s').
Proof.
  induction evs as [|ev evs IH]; intros s s'; cbn [ca_run generator_events flat_map].
  - intros H; inversion H; subst. reflexivity.
  - destruct (ca_step opts ev s) as [s1|] eqn:Hstep; [|discriminate].
    intros Hrun. specialize (IH _ _ Hrun).
    destruct ev as [ev|]; cbn [ca_step] in Hstep.
    + destruct (step (NewCA_found opts) minimumLoggableDifficulty ev (generator s)) as [g|] eqn:Hg; [|discriminate].
      inversion Hstep; subst; clear Hstep. cbn [app run generator] in *.
      rewrite Hg. exact IH.
    + destruct (returned (generator s)); [|discriminate].
      destruct (ca_returned s); [discriminate|].
      inversion Hstep; subst; clear Hstep. exact IH.
Qed.

(** A worker holds the mutex from after [mu.Lock()] until [mu.Unlock()]. *)
Definition in_critical (w : worker ca_pc) : nat :=
  match w with
  | InCallback _ _ (CbSelect _) | InCallback _ _ (CbUnlock _) => 1
  | _ => 0
  end.

Definition locked (sh : ca_shared) : nat := if mu sh then 1 else 0.

Lemma mu_updateStatus sh : mu (updateStatus opts sh) = mu sh.
Proof. unfold updateStatus. destruct (Logger opts); reflexivity. Qed.

(** What a step of the callback does to the mutex and to the worker's
    place with respect to the critical section. *)
Lemma found_step_critical k id pc sh sh' next :
  NewCA_found_step opts k id pc sh = Some (sh', next) ->
  (in_critical (InCallback k id pc) = 1%nat -> mu sh = true) ->
  (locked sh' + in_critical (InCallback k id pc)
   = locked sh + match next with
                 | inl pc' => in_critical (InCallback k id pc')
                 | inr _ => 0
                 end)%nat.
Proof.
  unfold NewCA_found_step, locked. cbv zeta. intros Hstep Hin.
  destruct pc as [|d|d|d|d|d|d hs]; cbn [in_critical] in *.
  - destruct (Logger opts);
      [destruct (counter (add_counter sh) mod 100 =? 0)|];
      (destruct (Difficulty id) as [dd|e];
       [destruct (dd >=? opt_Difficulty opts)|]);
      inversion Hstep; subst; clear Hstep;
      rewrite ?mu_updateStatus; reflexivity.
  - destruct (mu sh) eqn:Hmu; [discriminate|].
    inversion Hstep; subst; clear Hstep. reflexivity.
  - destruct (selectedKey sh); inversion Hstep; subst; clear Hstep;
      cbn [in_critical]; [reflexivity|].
    change (mu (select (updateStatus opts sh) k id)) with (mu (updateStatus opts sh)).
    rewrite mu_updateStatus. reflexivity.
  - inversion Hstep; subst; clear Hstep. rewrite (Hin eq_refl). reflexivity.
  - destruct (Logger opts); inversion Hstep; subst; clear Hstep; [|reflexivity].
    change (mu (log (updateStatus opts (set_highscore sh d)) (LogFound d)))
      with (mu (updateStatus opts (set_highscore sh d))).
    rewrite mu_updateStatus. reflexivity.
  - destruct (d <=? highscore sh); inversion Hstep; subst; clear Hstep; reflexivity.
  - destruct (highscore sh =? hs); inversion Hstep; subst; clear Hstep;
      rewrite ?mu_updateStatus; reflexivity.
Qed.

Definition mutex_inv (g : system ca_shared ca_pc) : Prop :=
  list_sum (map in_critical (workers g)) = locked (shared g).

Lemma step_mutex_inv ev (g g' : system ca_shared ca_pc) :
  step (NewCA_found opts) minimumLoggableDifficulty ev g = Some g' ->
  mutex_inv g -> mutex_inv g'.
Proof.
  unfold mutex_inv. intros Hstep Hinv.
  destruct ev as [r|i gen|]; cbn [step] in Hstep.
  - unfold cancel_step in Hstep. inversion Hstep; subst. exact Hinv.
  - destruct (worker_step_inv _ _ _ _ _ _ Hstep)
      as (w & w' & sh & ch & Hw & Hm & ->).
    change (cb_pc (NewCA_found opts)) with ca_pc in *.
    pose proof (weight_set_nth in_critical _ _ _ w' Hw) as Hsum.
    pose proof (le_list_sum in_critical _ _ _ Hw) as Hle.
    cbn [workers shared].
    assert (Hcb : forall k id pc next,
               w = InCallback k id pc ->
               cb_step (NewCA_found opts) k id pc (shared g) = Some (sh, next) ->
               (locked sh + in_critical w
                = locked (shared g)
                  + match next with
                    | inl pc' => in_critical (InCallback k id pc')
                    | inr _ => 0
                    end)%nat).
    { intros k id pc next -> Hcb. apply found_step_critical; [exact Hcb|].
      intros Hone. rewrite Hone in Hle. rewrite Hinv in Hle. unfold locked in Hle.
      destruct (mu (shared g)); [reflexivity|lia]. }
    inversion Hm; subst;
      change (cb_pc (NewCA_found opts)) with ca_pc in *;
      cbn [in_critical cb_enter NewCA_found] in *; try lia;
      match goal with
      | H : cb_step _ _ _ _ _ = Some _ |- _ =>
          pose proof (Hcb _ _ _ _ eq_refl H) as Hstep'
      end; cbn [in_critical] in *; lia.
  - unfold receive_step in Hstep.
    change (cb_pc (NewCA_found opts)) with ca_pc in *.
    destruct (returned g); [discriminate|].
    destruct (errchan g); [discriminate|].
    inversion Hstep; subst. exact Hinv.
Qed.

Lemma run_mutex_inv evs : forall (g g' : system ca_shared ca_pc),
  run (NewCA_found opts) minimumLoggableDifficulty evs g = Some g' ->
  mutex_inv g -> mutex_inv g'.
Proof.
  induction evs as [|ev evs IH]; intros g g'; cbn [run].
  - intros H Hg; inversion H; subst. assumption.
  - destruct (step (NewCA_found opts) minimumLoggableDifficulty ev g) as [g1|] eqn:Hstep; [|discriminate].
    intros Hrun Hg. eapply IH; eauto using step_mutex_inv.
Qed.

Lemma two_le_list_sum {A} (f : A -> nat) (l : list A) : forall i j a b,
  i <> j -> nth_error l i = Some a -> nth_error l j = Some b ->
  (f a + f b <= list_sum (map f l))%nat.
Proof.
  induction l as [|x l IH]; intros [|i] [|j] a b Hne Hi Hj; simpl in *;
    try discriminate; try contradiction.
  - inversion Hi; subst. pose proof (le_list_sum f _ _ _ Hj). lia.
  - inversion Hj; subst. pose proof (le_list_sum f _ _ _ Hi). lia.
  - assert (i <> j) by congruence. specialize (IH i j a b H Hi Hj). lia.
Qed.

(** X11.  The mutex of [NewCA] does its work: in every state of every
    run, at most one callback is between its [mu.Lock()] and its
    [mu.Unlock()], and while one is, the mutex is held. *)
Theorem NewCA_mutual_exclusion
        (ctx0 : option ctx_error) (s0 s : ca_system) (evs : list ca_event)
        (i j : nat) (wi wj : worker ca_pc)
        (Hstart : NewCA_start opts ctx0 = Go.Returns s0)
        (Hrun : ca_run opts evs s0 = Some s)
        (Hi : nth_error (workers (generator s)) i = Some wi)
        (Hj : nth_error (workers (generator s)) j = Some wj)
        (Hci : in_critical wi = 1%nat)
        (Hcj : in_critical wj = 1%nat) :
  i = j /\ mu (shared (generator s)) = true.
Proof.
  assert (Hinv : mutex_inv (generator s)).
  { apply (run_mutex_inv _ _ _ (ca_run_generator _ _ _ Hrun)).
    unfold NewCA_start, GenerateKeys_start in Hstart.
    destruct (int_of_uint _ <? 0); [discriminate|].
    inversion Hstart; subst; clear. unfold mutex_inv. cbn.
    induction (Z.to_nat _); simpl; auto. }
  unfold mutex_inv, locked in Hinv. split.
  - destruct (Nat.eq_dec i j) as [Heq|Hne]; [assumption|exfalso].
    pose proof (two_le_list_sum in_critical _ _ _ _ _ Hne Hi Hj) as Hle.
    destruct (mu (shared (generator s))); lia.
  - pose proof (le_list_sum in_critical _ _ _ Hi) as Hle.
    destruct (mu (shared (generator s))); [reflexivity|lia].
Qed.

(** X12.  Called with a context that has already ended, [NewCA] returns
    no certificate authority but [ErrNodeID] wrapping the reason, and no
    worker ever generates a key. *)
Theorem NewCA_cancelled_from_the_start
        (r : ctx_error) (s0 s : ca_system) (evs : list ca_event)
        (Hstart : NewCA_start opts (Some r) = Go.Returns s0)
        (Hrun : ca_run opts evs s0 = Some s) :
  (forall res, ca_returned s = Some res ->
     res = (None, Some (Classed ErrNodeID (ctx_error_value r))))
  /\ (forall i w, nth_error (workers (generator s)) i = Some w ->
        w = AtLoopHead \/ w = AtSend (cancellation r) \/ w = Exited).
Proof.
  assert (Hgen : forall evs (s1 s2 : ca_system) n,
             ca_run opts evs s1 = Some s2 ->
             cancelled (NewCA_found opts) r n (generator s1) ->
             (forall res, ca_returned s1 = Some res -> res = (None, cancellation r)) ->
             cancelled (NewCA_found opts) r n (generator s2)
             /\ (forall res, ca_returned s2 = Some res -> res = (None, cancellation r))).
  { clear. induction evs as [|ev evs IH]; intros s1 s2 n; cbn [ca_run].
    - intros H Hc Hres; inversion H; subst. auto.
    - destruct (ca_step opts ev s1) as [s'|] eqn:Hstep; [|discriminate].
      intros Hrun Hc Hres. apply (IH _ _ n Hrun).
      + destruct ev as [ev|]; cbn [ca_step] in Hstep.
        * destruct (step (NewCA_found opts) minimumLoggableDifficulty ev (generator s1)) as [g|] eqn:Hg; [|discriminate].
          inversion Hstep; subst; clear Hstep. cbn [generator].
          exact (proj1 (step_cancelled _ _ _ _ _ _ _ Hg Hc)).
        * destruct (returned (generator s1)); [|discriminate].
          destruct (ca_returned s1); [discriminate|].
          inversion Hstep; subst. exact Hc.
      + destruct ev as [ev|]; cbn [ca_step] in Hstep.
        * destruct (step (NewCA_found opts) minimumLoggableDifficulty ev (generator s1)) as [g|]; [|discriminate].
          inversion Hstep; subst; clear Hstep. exact Hres.
        * destruct (returned (generator s1)) as [err|] eqn:Hr; [|discriminate].
          destruct (ca_returned s1); [discriminate|].
          inversion Hstep; subst; clear Hstep. cbn [ca_returned].
          intros res Hfin. inversion Hfin; subst; clear Hfin.
          pose proof (c_returned _ _ _ _ Hc) as Hcr.
          change (cb_pc (NewCA_found opts)) with ca_pc in Hcr.
          rewrite Hr in Hcr. destruct Hcr as [Hn|Hs]; [discriminate|].
          inversion Hs; subst. reflexivity. }
  unfold NewCA_start in Hstart.
  destruct (GenerateKeys_start _ _ _ _) as [g0|p] eqn:Hg0; [|discriminate].
  inversion Hstart; subst; clear Hstart.
  destruct (start_cancelled _ _ _ _ _ Hg0) as [Hc0 _].
  destruct (Hgen _ _ _ _ Hrun Hc0) as [Hc Hres]; [discriminate|].
  split; [exact Hres|].
  intros i w Hw.
  change (cb_pc (NewCA_found opts)) with ca_pc in *.
  exact (nth_error_Forall _ _ _ _ (c_workers _ _ _ _ Hc) Hw).
Qed.

(** X13.  The certificate of a certificate authority returned by [NewCA]
    was created from the CA template for the public key of the selected
    key; it is signed with the parent key on the parent certificate when
    these are given and is self-signed with the selected key otherwise;
    the rest chain is the parent certificate alone, or nil. *)
Theorem NewCA_certificate
        (ctx0 : option ctx_error) (s0 s : ca_system) (evs : list ca_event)
        (ca : FullCertificateAuthority)
        (Hstart : NewCA_start opts ctx0 = Go.Returns s0)
        (Hrun : ca_run opts evs s0 = Some s)
        (Hret : ca_returned s = Some (Some ca, None)) :
  exists k ct cb cert,
    CA_Key ca = Some k
    /\ CATemplate = Ok ct
    /\ x509_CreateCertificate
         ct
         (match ParentCert opts with Some p => p | None => ct end)
         (peertls.PublicKeyFromPrivate (Some k))
         (match ParentKey opts with Some pk => Some pk | None => Some k end)
       = Ok cb
    /\ peertls.CertFromDER cb = Ok cert
    /\ CA_Cert ca = Some cert
    /\ CA_RestChain ca = match ParentCert opts with
                         | Some p => Some [p]
                         | None => None
                         end.
Proof.
  assert (Hgen : forall evs (s1 s2 : ca_system),
             ca_run opts evs s1 = Some s2 ->
             ca_inv opts s1 ->
             (forall res, ca_returned s1 = Some res ->
                exists err sh, res = NewCA_finish opts err sh
                               /\ (err = None -> selectedKey sh <> None)) ->
             forall res, ca_returned s2 = Some res ->
                exists err sh, res = NewCA_finish opts err sh
                               /\ (err = None -> selectedKey sh <> None)).
  { clear. induction evs as [|ev evs IH]; intros s1 s2; cbn [ca_run].
    - intros H Hinv Hres; inversion H; subst. exact Hres.
    - destruct (ca_step opts ev s1) as [s'|] eqn:Hstep; [|discriminate].
      intros Hrun Hinv Hres. apply (IH _ _ Hrun).
      + exact (proj1 (ca_step_inv _ _ _ _ Hstep Hinv)).
      + destruct ev as [ev|]; cbn [ca_step] in Hstep.
        * destruct (step (NewCA_found opts) minimumLoggableDifficulty ev (generator s1)) as [g|]; [|discriminate].
          inversion Hstep; subst; clear Hstep. exact Hres.
        * destruct (returned (generator s1)) as [err|] eqn:Hr; [|discriminate].
          destruct (ca_returned s1); [discriminate|].
          inversion Hstep; subst; clear Hstep. cbn [ca_returned].
          intros res Hfin. inversion Hfin; subst; clear Hfin.
          exists err, (shared (generator s1)). split; [reflexivity|].
          intros ->. exact (i_returned _ _ Hinv Hr). }
  destruct (NewCA_start_inv _ _ _ Hstart) as [Hinv0 _].
  assert (Hnone : ca_returned s0 = None).
  { unfold NewCA_start in Hstart.
    destruct (GenerateKeys_start _ _ _ _); [|discriminate].
    inversion Hstart; subst. reflexivity. }
  destruct (Hgen _ _ _ Hrun Hinv0) with (res := (Some ca, @None error))
    as (err & sh & Hfin & Hkey); [rewrite Hnone; discriminate|assumption|].
  unfold NewCA_finish, peertls.NewCert, Wrap0 in Hfin.
  destruct err as [e|]; [discriminate|].
  destruct CATemplate as [ct|e]; [|discriminate].
  destruct (selectedKey sh) as [k|] eqn:Hk; [|exfalso; apply Hkey; reflexivity].
  destruct (x509_CreateCertificate _ _ _ _) as [cb|e] eqn:Hcb; [|discriminate].
  destruct (peertls.CertFromDER cb) as [cert|e] eqn:Hcert; [|discriminate].
  inversion Hfin; subst; clear Hfin. cbn.
  exists k, ct, cb, cert. repeat split; auto.
  destruct (ParentKey opts); exact Hcb.
Qed.

End NewCA_more.

Section Generator_more_examples.
#[local] Existing Instance Sample.ids.
#[local] Existing Instance Sample.crypto.
#[local] Existing Instance Sample.ca.
Import identity.

(** One worker that has generated the key 85 and is about to run the
    callback on it. *)
Definition holding_candidate : system ca_shared ca_pc :=
  {| ctx_Err := None; capacity := 1; errchan := [];
     workers := [InCallback (Sample.key 85)
                            (fst (NodeIDFromECDSAKey (Sample.pub 85))) CbEnter];
     shared := fresh; returned := None |}.

Lemma GenerateKeys_calls_found_on_candidates_witness :
  NodeIDFromECDSAKey (PublicKey_of (Sample.key 85))
  = (fst (NodeIDFromECDSAKey (Sample.pub 85)), None)
  /\ exists d, Difficulty (fst (NodeIDFromECDSAKey (Sample.pub 85))) = Ok d /\ 8 <= d.
Proof.
  apply (@GenerateKeys_calls_found_on_candidates Sample.ids ca_shared
           (NewCA_found (floor8 1 false)) 8 None 1 fresh
           cancelled_too_late_start holding_candidate
           [Worker 0 idle; Worker 0 (Ok (Sample.key 85))]
           0%nat (Sample.key 85) (fst (NodeIDFromECDSAKey (Sample.pub 85))) CbEnter).
  - reflexivity.
  - vm_compute. reflexivity.
  - reflexivity.
Defined.

(** One worker that has seen the cancelled context and is about to send. *)
Definition about_to_send : system ca_shared ca_pc :=
  {| ctx_Err := Some Canceled; capacity := 1; errchan := [];
     workers := [AtSend (cancellation Canceled)]; shared := fresh;
     returned := None |}.

Lemma GenerateKeys_send_never_blocks_witness :
  (List.length (errchan about_to_send) <= capacity about_to_send)%nat
  /\ forall i err gen,
       nth_error (workers about_to_send) i = Some (AtSend err) ->
       step (NewCA_found (floor8 1 false)) 8 (Worker i gen) about_to_send <> None.
Proof.
  apply (@GenerateKeys_send_never_blocks Sample.ids ca_shared
           (NewCA_found (floor8 1 false)) 8 (Some Canceled) 1 fresh
           cancelled_before_start about_to_send [Worker 0 idle]).
  - reflexivity.
  - vm_compute. reflexivity.
Defined.

Lemma GenerateKeys_returns_once_witness :
  ctx_Err cancelled_before_end <> None
  /\ returned cancelled_before_end = Some (cancellation Canceled)
  /\ ctx_Err cancelled_before_end = ctx_Err cancelled_before_end.
Proof.
  apply (@GenerateKeys_returns_once Sample.ids ca_shared
           (NewCA_found (floor8 1 false)) 8 (Some Canceled) 1 fresh
           cancelled_before_start cancelled_before_end cancelled_before_end
           [Worker 0 idle; Worker 0 idle; Receive] [Cancel DeadlineExceeded]
           (cancellation Canceled)).
  - reflexivity.
  - vm_compute. reflexivity.
  - reflexivity.
  - vm_compute. reflexivity.
Defined.

(** The run of two workers up to the point where worker 1 holds the mutex
    and worker 0 waits for it. *)
Lemma NewCA_mutual_exclusion_witness :
  exists s0 s w1,
    NewCA_start (floor8 2 true) None = Go.Returns s0
    /\ ca_run (floor8 2 true) (firstn 7 two_workers) s0 = Some s
    /\ nth_error (workers (generator s)) 1 = Some w1
    /\ in_critical w1 = 1%nat
    /\ ca_step (floor8 2 true) (Generator (Worker 0 idle)) s = None
    /\ (1%nat = 1%nat /\ mu (shared (generator s)) = true).
Proof.
  eexists. eexists. eexists.
  split; [reflexivity|].
  split; [vm_compute; reflexivity|].
  split; [reflexivity|].
  split; [reflexivity|].
  split; [vm_compute; reflexivity|].
  eapply (@NewCA_mutual_exclusion Sample.ids Sample.crypto Sample.ca
            (floor8 2 true) None _ _ (firstn 7 two_workers) 1%nat 1%nat).
  - reflexivity.
  - vm_compute. reflexivity.
  - reflexivity.
  - reflexivity.
  - reflexivity.
  - reflexivity.
Defined.

Lemma NewCA_cancelled_from_the_start_witness :
  exists s0 s,
    NewCA_start (floor8 1 false) (Some DeadlineExceeded) = Go.Returns s0
    /\ ca_run (floor8 1 false)
              [Generator (Worker 0 idle); Generator (Worker 0 idle);
               Generator Receive; Finish] s0 = Some s
    /\ ca_returned s
       = Some (None, Some (Classed ErrNodeID (Opaque "context deadline exceeded")))
    /\ (forall res, ca_returned s = Some res ->
          res = (None, Some (Classed ErrNodeID (ctx_error_value DeadlineExceeded))))
    /\ (forall i w, nth_error (workers (generator s)) i = Some w ->
          w = AtLoopHead \/ w = AtSend (cancellation DeadlineExceeded) \/ w = Exited).
Proof.
  eexists. eexists.
  split; [reflexivity|].
  split; [vm_compute; reflexivity|].
  split; [reflexivity|].
  eapply (@NewCA_cancelled_from_the_start Sample.ids Sample.crypto Sample.ca
            (floor8 1 false) DeadlineExceeded _ _
            [Generator (Worker 0 idle); Generator (Worker 0 idle);
             Generator Receive; Finish]).
  - reflexivity.
  - vm_compute. reflexivity.
Defined.

Lemma NewCA_certificate_witness :
  exists s0 s ca,
    NewCA_start (floor8 2 true) None = Go.Returns s0
    /\ ca_run (floor8 2 true) two_workers s0 = Some s
    /\ ca_returned s = Some (Some ca, None)
    /\ exists k ct cb cert,
         CA_Key ca = Some k
         /\ CATemplate = Ok ct
         /\ x509_CreateCertificate ct ct (peertls.PublicKeyFromPrivate (Some k)) (Some k)
            = Ok cb
         /\ peertls.CertFromDER cb = Ok cert
         /\ CA_Cert ca = Some cert
         /\ CA_RestChain ca = None.
Proof.
  eexists. eexists. eexists.
  split; [reflexivity|].
  split; [vm_compute; reflexivity|].
  split; [reflexivity|].
  eapply (@NewCA_certificate Sample.ids Sample.crypto Sample.ca (floor8 2 true) None
            _ _ two_workers).
  - reflexivity.
  - vm_compute. reflexivity.
  - reflexivity.
Defined.

End Generator_more_examples.

(** ** More on the verifiers *)

Section Verifiers_more.
Context {W : Type} `{C : peertls.Crypto} `{R : peertls.Store W}.
Import peertls.

Lemma VerifyPeerFunc_loop_app a : forall b chain c (w : W),
  VerifyPeerFunc_loop (a ++ b) chain c w
  = match VerifyPeerFunc_loop a chain c w with
    | (w1, Go.Returns None) => VerifyPeerFunc_loop b chain c w1
    | r => r
    end.
Proof.
  induction a as [|[f|] a IH]; intros b chain c w; cbn [app VerifyPeerFunc_loop].
  - reflexivity.
  - unfold bindM. destruct (f chain [c] w) as [w1 [[e|]|p]]; [reflexivity| |reflexivity].
    apply IH.
  - apply IH.
Qed.

(** X14.  Composing the verifiers of [a] followed by those of [b] is
    running the composition of [a] and, when it passes, the composition of
    [b] from the world it left; when the first fails or panics, so does
    the whole, with the same error. *)
Theorem VerifyPeerFunc_append
        (a b : list (option (@PeerCertVerificationFunc W)))
        (chain : list Go.bytes) (given : list (list Certificate)) (w : W) :
  VerifyPeerFunc (a ++ b) chain given w
  = match VerifyPeerFunc a chain given w with
    | (w1, Go.Returns None) => VerifyPeerFunc b chain given w1
    | r => r
    end.
Proof.
  unfold VerifyPeerFunc. destruct (CertsFromDER chain) as [c|e]; [|reflexivity].
  apply VerifyPeerFunc_loop_app.
Qed.

(** X15.  Every error the composed verifier returns is of class
    [ErrVerifyPeerCert], whichever verifier or the parser it came from. *)
Theorem VerifyPeerFunc_error_class
        (next : list (option (@PeerCertVerificationFunc W)))
        (chain : list Go.bytes) (given : list (list Certificate)) (w w' : W)
        (e : error)
        (Hfail : VerifyPeerFunc next chain given w = (w', Go.Returns (Some e))) :
  exists cause, e = Classed ErrVerifyPeerCert cause.
Proof.
  unfold VerifyPeerFunc in Hfail.
  destruct (CertsFromDER chain) as [c|err].
  - revert w Hfail. induction next as [|[f|] next IH]; intros w;
      cbn [VerifyPeerFunc_loop].
    + discriminate.
    + unfold bindM. destruct (f chain [c] w) as [w1 [[e1|]|p]].
      * intros H; inversion H; subst. eauto.
      * apply IH.
      * discriminate.
    + apply IH.
  - inversion Hfail; subst. eauto.
Qed.

(** What the whitelist verifier answers on a chain that has a CA. *)
Lemma whitelist_loop_decided (cas : list Certificate)
      (chain0 : list Certificate) (rest : list (list Certificate))
      (ca : Certificate) (w : W) :
  nth_error chain0 CAIndex = Some ca ->
  (Exists (fun c => verifyCertSignature c ca = None) cas
   /\ VerifyCAWhitelist_loop (W:=W) cas (chain0 :: rest) w = (w, Go.Returns None))
  \/ (Forall (fun c => verifyCertSignature c ca <> None) cas
      /\ VerifyCAWhitelist_loop (W:=W) cas (chain0 :: rest) w
         = (w, Go.Returns (New ErrVerifyCAWhitelist "CA cert" []))).
Proof.
  intros Hca.
  destruct (Exists_dec (fun c => verifyCertSignature c ca = None) cas) as [Hex|Hno].
  - intros c. destruct (verifyCertSignature c ca); [right; congruence | left; reflexivity].
  - left. split; [assumption|]. apply whitelist_loop_pass with (ca := ca); assumption.
  - right. apply Forall_Exists_neg in Hno. split; [assumption|].
    apply whitelist_loop_fail with (ca := ca); assumption.
Qed.

(** X16.  On a chain that has a CA, the verdict of the whitelist verifier
    depends on which certificates are in the whitelist, not on their order
    or number of occurrences; and a chain admitted by a whitelist is
    admitted by every whitelist that contains it. *)
Theorem VerifyCAWhitelist_depends_on_members
        (cas cas' : list Certificate) (raw : list Go.bytes)
        (chain0 : list Certificate) (rest : list (list Certificate))
        (ca : Certificate) (w : W)
        (Hca : nth_error chain0 CAIndex = Some ca) :
  forall f f',
    VerifyCAWhitelist (W:=W) (Some cas) = Some f ->
    VerifyCAWhitelist (W:=W) (Some cas') = Some f' ->
    ((forall c, In c cas -> In c cas') ->
     f raw (chain0 :: rest) w = (w, Go.Returns None) ->
     f' raw (chain0 :: rest) w = (w, Go.Returns None))
    /\ ((forall c, In c cas <-> In c cas') ->
        f raw (chain0 :: rest) w = f' raw (chain0 :: rest) w).
Proof.
  intros f f' Hf Hf'. cbn in Hf, Hf'. inversion Hf; inversion Hf'; subst; clear Hf Hf'.
  assert (Hmono : forall l l' : list Certificate,
             (forall c, In c l -> In c l') ->
             VerifyCAWhitelist_loop (W:=W) l (chain0 :: rest) w = (w, Go.Returns None) ->
             VerifyCAWhitelist_loop (W:=W) l' (chain0 :: rest) w = (w, Go.Returns None)).
  { intros l l' Hincl Hpass.
    destruct (whitelist_loop_decided l chain0 rest ca w Hca) as [[Hex _]|[_ Hfail]].
    - apply whitelist_loop_pass with (ca := ca); [assumption|].
      apply Exists_exists in Hex. destruct Hex as (c & Hin & Hc).
      apply Exists_exists. exists c. auto.
    - rewrite Hfail in Hpass. discriminate. }
  split; [apply Hmono|].
  intros Hsame.
  destruct (whitelist_loop_decided cas chain0 rest ca w Hca) as [[_ Hp]|[Hall Hfail]].
  - rewrite Hp. symmetry. apply (Hmono cas cas'); [apply Hsame|assumption].
  - rewrite Hfail. symmetry.
    destruct (whitelist_loop_decided cas' chain0 rest ca w Hca) as [[_ Hp']|[_ Hf']];
      [|assumption].
    rewrite (Hmono cas' cas) in Hfail; [discriminate|apply Hsame|assumption].
Qed.

(** X17.  A whitelist with at least one certificate indexes the chain
    before anything else: on no parsed chain at all, or on a first chain
    without a certificate at [CAIndex], its verifier panics with an index
    out of range.  The verifier of the empty whitelist indexes nothing and
    rejects even those. *)
Theorem VerifyCAWhitelist_short_chain
        (c : Certificate) (cas : list Certificate) (raw : list Go.bytes)
        (parsedChains : list (list Certificate)) (w : W)
        (Hshort : match parsedChains with
                  | [] => True
                  | chain0 :: _ => (List.length chain0 <= CAIndex)%nat
                  end) :
  forall f f0,
    VerifyCAWhitelist (W:=W) (Some (c :: cas)) = Some f ->
    VerifyCAWhitelist (W:=W) (Some []) = Some f0 ->
    f raw parsedChains w = (w, Go.Panics Go.IndexOutOfRange)
    /\ f0 raw parsedChains w
       = (w, Go.Returns (New ErrVerifyCAWhitelist "CA cert" [])).
Proof.
  intros f f0 Hf Hf0. cbn in Hf, Hf0. inversion Hf; inversion Hf0; subst.
  split; [|reflexivity].
  cbn [VerifyCAWhitelist_loop]. unfold bindM, lift, Go.index.
  destruct parsedChains as [|chain0 rest]; [reflexivity|]. cbn [nth_error].
  apply nth_error_None in Hshort. rewrite Hshort. reflexivity.
Qed.

(** X18.  The revocation verifier reads the leaf and the CA before it
    asks the store: on a chain without a certificate at [CAIndex] it
    panics and the store is not consulted.  When the store answers with
    an error, that error is returned under [ErrExtension] and a record
    that came with it is not verified. *)
Theorem VerifyUnrevokedChainFunc_edges
        (revDB : RevocationDB) (raw : list Go.bytes) (w : W) :
  (forall parsedChains,
      match parsedChains with
      | [] => True
      | chain0 :: _ => (List.length chain0 <= CAIndex)%nat
      end ->
      VerifyUnrevokedChainFunc revDB raw parsedChains w
      = (w, Go.Panics Go.IndexOutOfRange))
  /\ (forall chain0 rest leaf ca w1 rec_ e,
         nth_error chain0 LeafIndex = Some leaf ->
         nth_error chain0 CAIndex = Some ca ->
         RevocationDB_Get revDB chain0 w = (w1, (rec_, Some e)) ->
         VerifyUnrevokedChainFunc revDB raw (chain0 :: rest) w
         = (w1, Go.Returns (Some (Classed ErrExtension e)))).
Proof.
  split.
  - intros parsedChains Hshort.
    unfold VerifyUnrevokedChainFunc, bindM, lift, Go.index.
    destruct parsedChains as [|chain0 rest]; [reflexivity|]. cbn [nth_error].
    destruct (nth_error chain0 LeafIndex); [|reflexivity].
    apply nth_error_None in Hshort. rewrite Hshort. reflexivity.
  - intros chain0 rest leaf ca w1 rec_ e Hleaf Hca Hget.
    rewrite (VerifyUnrevoked_unfold _ raw _ rest _ _ _ _ _ _ Hleaf Hca Hget).
    reflexivity.
Qed.

End Verifiers_more.

Section Verifiers_more_examples.
#[local] Existing Instance Sample.crypto.
#[local] Existing Instance Sample.store.
Import peertls.

Lemma VerifyPeerFunc_error_class_witness :
  exists cause,
    Classed ErrVerifyPeerCert (Opaque "asn1: syntax error")
    = Classed ErrVerifyPeerCert cause.
Proof.
  apply (@VerifyPeerFunc_error_class Sample.calls Sample.crypto
           [Some (named_verifier "a" None)] [[x01]] [] [] []).
  reflexivity.
Defined.

Lemma VerifyCAWhitelist_depends_on_members_witness :
  exists f f',
    VerifyCAWhitelist (W:=Sample.calls)
      (Some [Sample.cert x09 x09; Sample.cert x01 x01]) = Some f
    /\ VerifyCAWhitelist (W:=Sample.calls)
         (Some [Sample.cert x01 x01; Sample.cert x09 x09; Sample.cert x01 x01])
       = Some f'
    /\ f [] [sample_chain] [] = f' [] [sample_chain] [].
Proof.
  eexists. eexists.
  split; [reflexivity|]. split; [reflexivity|].
  apply (proj2 (@VerifyCAWhitelist_depends_on_members Sample.calls Sample.crypto
                  [Sample.cert x09 x09; Sample.cert x01 x01]
                  [Sample.cert x01 x01; Sample.cert x09 x09; Sample.cert x01 x01]
                  [] sample_chain [] (Sample.cert x01 x01) [] eq_refl
                  _ _ eq_refl eq_refl)).
  intros c. simpl. tauto.
Defined.

Lemma VerifyCAWhitelist_short_chain_witness :
  exists f f0,
    VerifyCAWhitelist (W:=Sample.calls) (Some [Sample.cert x01 x01]) = Some f
    /\ VerifyCAWhitelist (W:=Sample.calls) (Some []) = Some f0
    /\ f [] [[Sample.cert x01 x02]] [] = ([], Go.Panics Go.IndexOutOfRange)
    /\ f0 [] [[Sample.cert x01 x02]] []
       = ([], Go.Returns (New ErrVerifyCAWhitelist "CA cert" [])).
Proof.
  eexists. eexists.
  split; [reflexivity|]. split; [reflexivity|].
  apply (@VerifyCAWhitelist_short_chain Sample.calls Sample.crypto
           (Sample.cert x01 x01) [] [] [[Sample.cert x01 x02]] []
           ltac:(unfold CAIndex; simpl; lia) _ _ eq_refl eq_refl).
Defined.

End Verifiers_more_examples.

(** ** Full identities *)

Section FullIdentity_properties.
Context {W : Type} `{E : identity.Env} `{L : identity.Loader}
        `{C : peertls.Crypto} `{K : peertls.ChainCheck}.
Import identity.

Lemma fold_append_raw (l : list Certificate) : forall init : list Go.bytes,
  fold_left (fun chain cert => chain ++ [Raw cert]) l init = init ++ map Raw l.
Proof.
  induction l as [|c l IH]; intros init; simpl.
  - rewrite app_nil_r. reflexivity.
  - rewrite IH, <- app_assoc. reflexivity.
Qed.

Lemma ChainRaw_layout (fi : FullIdentity) leaf ca :
  FI_Leaf fi = Some leaf -> FI_CA fi = Some ca ->
  ChainRaw fi
  = Go.Returns (Raw leaf :: Raw ca :: map Raw (Go.elems (FI_RestChain fi))).
Proof.
  intros Hl Hc. unfold ChainRaw. rewrite Hl, Hc. cbn [Go.deref Go.bind].
  rewrite fold_append_raw. reflexivity.
Qed.

(** A chain that is not shorter than two certificates, taken apart. *)
Lemma chain_not_short (chain : list Certificate) :
  (List.length chain <? peertls.CAIndex + 1)%nat = false ->
  exists leaf ca rest, chain = leaf :: ca :: rest.
Proof.
  intros H. apply Nat.ltb_ge in H. unfold peertls.CAIndex in H.
  destruct chain as [|leaf [|ca rest]]; simpl in H; try lia. eauto.
Qed.

(** X19.  An identity loaded from PEM has the layout of the file: its
    [ChainRaw] is the DER of the certificates of the file, in order; its
    ID is derived from the key of the second certificate, the CA; and its
    key is the one of the key file. *)
Theorem FullIdentityFromPEM_round_trip
        (chainPEM keyPEM : Go.bytes) (chain : list Certificate) (fi : FullIdentity)
        (Hchain : CertsFromPEM chainPEM = Ok chain)
        (Hload : FullIdentityFromPEM chainPEM keyPEM = Go.Returns (Some fi, None)) :
  ChainRaw fi = Go.Returns (map Raw chain)
  /\ (exists leaf ca rest,
         chain = leaf :: ca :: rest
         /\ FI_Leaf fi = Some leaf /\ FI_CA fi = Some ca
         /\ FI_RestChain fi = Some rest
         /\ NodeIDFromKey (PublicKey ca) = (FI_ID fi, None))
  /\ (exists key, PrivateKeyFromPEM keyPEM = Ok key /\ FI_Key fi = Some key).
Proof.
  unfold FullIdentityFromPEM in Hload. rewrite Hchain in Hload.
  destruct (List.length chain <? peertls.CAIndex + 1)%nat eqn:Hlen; [discriminate|].
  destruct (chain_not_short _ Hlen) as (leaf & ca & rest & ->).
  destruct (PrivateKeyFromPEM keyPEM) as [key|e] eqn:Hkey; [|discriminate].
  cbn in Hload.
  destruct (NodeIDFromKey (PublicKey ca)) as [nodeID [e|]] eqn:Hid; [discriminate|].
  inversion Hload; subst; clear Hload.
  split; [|split].
  - erewrite ChainRaw_layout by reflexivity. reflexivity.
  - exists leaf, ca, rest. auto 6.
  - exists key. auto.
Qed.

(** X20.  No loader panics on a chain that lacks a CA: from a file with
    fewer than two certificates [FullIdentityFromPEM] returns
    [ErrChainLength] and [NodeIDFromPEM] returns the error "no CA in
    identity certificate"; from a TLS peer that presented fewer than two
    certificates [PeerIdentityFromPeer] returns "invalid certificate
    chain". *)
Theorem loaders_refuse_short_chains
        (chainPEM keyPEM : Go.bytes) (chain : list Certificate)
        (Hchain : CertsFromPEM chainPEM = Ok chain)
        (Hshort : (List.length chain < 2)%nat) :
  FullIdentityFromPEM chainPEM keyPEM
  = Go.Returns (None, New ErrChainLength
                          "identity chain does not contain a CA certificate" [])
  /\ NodeIDFromPEM chainPEM
     = Go.Returns (NodeID_zero, New Error "no CA in identity certificate" [])
  /\ PeerIdentityFromPeer {| Peer_AuthInfo := TLSInfo chain |}
     = Go.Returns (None, New Error "invalid certificate chain" []).
Proof.
  unfold FullIdentityFromPEM, NodeIDFromPEM, PeerIdentityFromPeer.
  rewrite Hchain. cbn [Peer_AuthInfo].
  assert (H1 : (List.length chain <? peertls.CAIndex + 1)%nat = true)
    by (apply Nat.ltb_lt; exact Hshort).
  assert (H2 : (List.length chain <? 2)%nat = true)
    by (apply Nat.ltb_lt; exact Hshort).
  rewrite H1, H2. auto.
Qed.

(** X21.  The loaders agree on who a chain belongs to: the ID of an
    identity loaded from PEM is the ID [NodeIDFromPEM] reads from the same
    file and the ID [PeerIdentityFromPeer] gives the peer that presents
    the same certificates. *)
Theorem loaders_agree_on_ID
        (chainPEM keyPEM : Go.bytes) (chain : list Certificate) (fi : FullIdentity)
        (Hchain : CertsFromPEM chainPEM = Ok chain)
        (Hload : FullIdentityFromPEM chainPEM keyPEM = Go.Returns (Some fi, None)) :
  NodeIDFromPEM chainPEM = Go.Returns (FI_ID fi, None)
  /\ exists pi,
       PeerIdentityFromPeer {| Peer_AuthInfo := TLSInfo chain |}
       = Go.Returns (Some pi, None)
       /\ ID pi = FI_ID fi
       /\ Some (Leaf pi) = FI_Leaf fi /\ Some (CA pi) = FI_CA fi
       /\ Some (RestChain pi) = FI_RestChain fi.
Proof.
  unfold FullIdentityFromPEM in Hload. rewrite Hchain in Hload.
  destruct (List.length chain <? peertls.CAIndex + 1)%nat eqn:Hlen; [discriminate|].
  destruct (chain_not_short _ Hlen) as (leaf & ca & rest & ->).
  destruct (PrivateKeyFromPEM keyPEM) as [key|e]; [|discriminate].
  cbn in Hload.
  destruct (NodeIDFromKey (PublicKey ca)) as [nodeID [e|]] eqn:Hid; [discriminate|].
  inversion Hload; subst; clear Hload. cbn [FI_ID FI_Leaf FI_CA FI_RestChain].
  split.
  - unfold NodeIDFromPEM. rewrite Hchain, Hlen. cbn. rewrite Hid. reflexivity.
  - unfold PeerIdentityFromPeer, PeerIdentityFromCerts. cbn. rewrite Hid.
    eexists. split; [reflexivity|]. cbn. auto.
Qed.

Lemma verifyIdentity_zero (raw : list Go.bytes)
      (parsedChains : list (list Certificate)) (w : W) :
  verifyIdentity (W:=W) NodeID_zero raw parsedChains w = (w, Go.Returns None).
Proof. unfold verifyIdentity. rewrite NodeID_eqb_refl. reflexivity. Qed.

Lemma verifyIdentity_compares (id : NodeID) (raw : list Go.bytes) (w : W)
      (leaf ca : Certificate) (rest : list Certificate)
      (others : list (list Certificate)) (pid : NodeID) :
  NodeIDFromKey (PublicKey ca) = (pid, None) ->
  NodeID_eqb id NodeID_zero = false ->
  verifyIdentity id raw ((leaf :: ca :: rest) :: others) w
  = (w, Go.Returns
          (if negb (String.eqb (NodeID_String pid) (NodeID_String id))
           then New Error "peer ID did not match requested ID" []
           else None)).
Proof.
  intros Hpid Hz. unfold verifyIdentity, PeerIdentityFromCerts, bindM, lift, ret.
  rewrite Hz. cbn. rewrite Hpid. cbn.
  destruct (negb _); reflexivity.
Qed.

(** X22.  [verifyIdentity] with the zero ID admits everything and looks
    at nothing, not even at whether there is a chain.  With another ID,
    on a chain whose CA key gives the ID [pid], it passes exactly when the
    string forms of [pid] and the requested ID are equal, and otherwise
    fails with "peer ID did not match requested ID". *)
Theorem verifyIdentity_cases
        (id : NodeID) (raw : list Go.bytes) (w : W)
        (leaf ca : Certificate) (rest : list Certificate)
        (others : list (list Certificate)) (pid : NodeID)
        (Hpid : NodeIDFromKey (PublicKey ca) = (pid, None)) :
  (forall parsedChains,
      verifyIdentity (W:=W) NodeID_zero raw parsedChains w = (w, Go.Returns None))
  /\ (id <> NodeID_zero ->
      (NodeID_String pid = NodeID_String id ->
       verifyIdentity id raw ((leaf :: ca :: rest) :: others) w = (w, Go.Returns None))
      /\ (NodeID_String pid <> NodeID_String id ->
          verifyIdentity id raw ((leaf :: ca :: rest) :: others) w
          = (w, Go.Returns (New Error "peer ID did not match requested ID" []))))
  /\ verifyIdentity pid raw ((leaf :: ca :: rest) :: others) w = (w, Go.Returns None).
Proof.
  split; [|split].
  - intros parsedChains. apply verifyIdentity_zero.
  - intros Hne. apply NodeID_eqb_neq in Hne.
    rewrite (verifyIdentity_compares id raw w leaf ca rest others pid Hpid Hne). split.
    + intros Heq. apply String.eqb_eq in Heq. rewrite Heq. reflexivity.
    + intros Hneq. apply String.eqb_neq in Hneq. rewrite Hneq. reflexivity.
  - destruct (NodeID_eqb pid NodeID_zero) eqn:Hz.
    + unfold verifyIdentity. rewrite Hz. reflexivity.
    + rewrite (verifyIdentity_compares pid raw w leaf ca rest others pid Hpid Hz),
        String.eqb_refl.
      reflexivity.
Qed.

(** The composed verifier once the chain is parsed and its signatures
    are checked. *)
Lemma VerifyPeerFunc_after_chain_check
      (next : list (option (@peertls.PeerCertVerificationFunc W)))
      (raw : list Go.bytes) (given : list (list Certificate)) (w : W)
      (c : list Certificate) :
  peertls.CertsFromDER raw = Ok c ->
  peertls.VerifyPeerFunc (Some peertls.VerifyPeerCertChains :: next) raw given w
  = match peertls.verifyChainSignatures c with
    | Some e => (w, Go.Returns (Some (Classed peertls.ErrVerifyPeerCert e)))
    | None => peertls.VerifyPeerFunc next raw given w
    end.
Proof.
  intros Hc. unfold peertls.VerifyPeerFunc. rewrite Hc.
  cbn [peertls.VerifyPeerFunc_loop].
  unfold peertls.VerifyPeerCertChains, bindM, lift, ret. cbn.
  destruct (peertls.verifyChainSignatures c); reflexivity.
Qed.

(** X23.  [ServerOption] and [DialOption] have no failure to report: on
    an identity whose leaf or CA certificate is nil they panic, and
    otherwise they return a configuration that presents the identity's
    chain ([ChainRaw]) with its leaf and key, skips the default
    verification, and, on the server, requires a client certificate. *)
Theorem TLS_options_never_fail
        (fi : FullIdentity) (id : NodeID)
        (pcvFuncs : list (option (@peertls.PeerCertVerificationFunc W))) :
  (FI_Leaf fi = None \/ FI_CA fi = None ->
   ServerOption fi pcvFuncs = Go.Panics Go.NilDereference
   /\ DialOption (W:=W) fi id = Go.Panics Go.NilDereference)
  /\ (forall leaf ca,
         FI_Leaf fi = Some leaf -> FI_CA fi = Some ca ->
         let cert :=
           {| peertls.tls_Leaf := Some leaf;
              peertls.tls_Certificate_chain :=
                Raw leaf :: Raw ca :: map Raw (Go.elems (FI_RestChain fi));
              peertls.tls_PrivateKey := FI_Key fi |} in
         ServerOption fi pcvFuncs
         = Go.Returns
             (Some {| Certificates := [cert]; InsecureSkipVerify := true;
                      ClientAuth := RequireAnyClientCert;
                      VerifyPeerCertificate :=
                        Some (peertls.VerifyPeerFunc
                                (Some peertls.VerifyPeerCertChains :: pcvFuncs)) |},
              None)
         /\ DialOption (W:=W) fi id
            = Go.Returns
                (Some {| Certificates := [cert]; InsecureSkipVerify := true;
                         ClientAuth := NoClientCert;
                         VerifyPeerCertificate :=
                           Some (peertls.VerifyPeerFunc
                                   [Some peertls.VerifyPeerCertChains;
                                    Some (verifyIdentity id)]) |},
                 None)).
Proof.
  split.
  - intros Hnil. unfold ServerOption, DialOption, ChainRaw.
    destruct (FI_Leaf fi) as [leaf|]; [|auto].
    destruct Hnil as [Hnil|Hnil]; [discriminate|]. rewrite Hnil. auto.
  - intros leaf ca Hleaf Hca cert. unfold ServerOption, DialOption.
    rewrite (ChainRaw_layout fi leaf ca Hleaf Hca). cbn [Go.bind].
    unfold peertls.TLSCert. rewrite Hleaf. cbn. auto.
Qed.

(** X24.  The verifier a server installs checks the signatures of the
    chain before anything the caller supplied: on a parsed chain whose
    signatures do not verify it returns that error under
    [ErrVerifyPeerCert] and no supplied verifier runs; on one whose
    signatures verify it is the composition of the supplied verifiers. *)
Theorem ServerOption_checks_chain_first
        (fi : FullIdentity)
        (pcvFuncs : list (option (@peertls.PeerCertVerificationFunc W)))
        (cfg : tls_Config W)
        (raw : list Go.bytes) (given : list (list Certificate)) (w : W)
        (c : list Certificate)
        (Hopt : ServerOption fi pcvFuncs = Go.Returns (Some cfg, None))
        (Hparse : peertls.CertsFromDER raw = Ok c) :
  exists verify,
    VerifyPeerCertificate cfg = Some verify
    /\ (forall e, peertls.verifyChainSignatures c = Some e ->
          verify raw given w
          = (w, Go.Returns (Some (Classed peertls.ErrVerifyPeerCert e))))
    /\ (peertls.verifyChainSignatures c = None ->
        verify raw given w = peertls.VerifyPeerFunc pcvFuncs raw given w).
Proof.
  unfold ServerOption in Hopt.
  destruct (ChainRaw fi) as [chain|p]; [|discriminate]. cbn [Go.bind] in Hopt.
  destruct (peertls.TLSCert chain (FI_Leaf fi) (FI_Key fi)) as [[t [e|]]|p];
    try discriminate.
  cbn [Go.bind] in Hopt. destruct (Go.deref t) as [t'|p]; [|discriminate].
  inversion Hopt; subst; clear Hopt. cbn [VerifyPeerCertificate].
  eexists. split; [reflexivity|]. cbn [app].
  rewrite (VerifyPeerFunc_after_chain_check pcvFuncs raw given w c Hparse).
  split.
  - intros e ->. reflexivity.
  - intros ->. reflexivity.
Qed.

(** X25.  The verifier a dialer installs admits a chain with a leaf and
    a CA, whose CA key gives the ID [pid], exactly when the signatures of
    the chain verify and the requested ID is zero or has the string form
    of [pid]. *)
Theorem DialOption_admits
        (fi : FullIdentity) (id : NodeID) (cfg : tls_Config W)
        (raw : list Go.bytes) (given : list (list Certificate)) (w : W)
        (leaf ca : Certificate) (rest : list Certificate) (pid : NodeID)
        (Hopt : DialOption fi id = Go.Returns (Some cfg, None))
        (Hparse : peertls.CertsFromDER raw = Ok (leaf :: ca :: rest))
        (Hpid : NodeIDFromKey (PublicKey ca) = (pid, None)) :
  exists verify,
    VerifyPeerCertificate cfg = Some verify
    /\ (verify raw given w = (w, Go.Returns None)
        <-> peertls.verifyChainSignatures (leaf :: ca :: rest) = None
            /\ (id = NodeID_zero \/ NodeID_String pid = NodeID_String id)).
Proof.
  unfold DialOption in Hopt.
  destruct (ChainRaw fi) as [chain|p]; [|discriminate]. cbn [Go.bind] in Hopt.
  destruct (peertls.TLSCert chain (FI_Leaf fi) (FI_Key fi)) as [[t [e|]]|p];
    try discriminate.
  cbn [Go.bind] in Hopt. destruct (Go.deref t) as [t'|p]; [|discriminate].
  inversion Hopt; subst; clear Hopt. cbn [VerifyPeerCertificate].
  eexists. split; [reflexivity|].
  rewrite (VerifyPeerFunc_after_chain_check _ raw given w _ Hparse).
  destruct (peertls.verifyChainSignatures (leaf :: ca :: rest)) as [e|].
  { split; [discriminate|]. intros [H _]. discriminate. }
  unfold peertls.VerifyPeerFunc. rewrite Hparse.
  cbn [peertls.VerifyPeerFunc_loop]. unfold bindM.
  destruct (NodeID_eqb id NodeID_zero) eqn:Hz.
  - apply NodeID_eqb_eq in Hz. subst id.
    rewrite verifyIdentity_zero. cbn. split; auto.
  - rewrite (verifyIdentity_compares id raw w leaf ca rest [] pid Hpid Hz).
    apply NodeID_eqb_neq in Hz.
    destruct (String.eqb (NodeID_String pid) (NodeID_String id)) eqn:Hs; cbn.
    + apply String.eqb_eq in Hs. split; auto.
    + apply String.eqb_neq in Hs. split; [discriminate|].
      intros [_ [Hzero|Heq]]; contradiction.
Qed.

End FullIdentity_properties.

(** ** Leaf identities of a certificate authority *)

Section NewIdentity_properties.
Context `{C : peertls.Crypto} `{CE : identity.CAEnv} `{LE : identity.LeafEnv}.
Import identity.

Lemma NewCert_cert create key parentKey template parent cert :
  peertls.NewCert create key parentKey template parent = (cert, None) ->
  exists c der,
    cert = Some c
    /\ create template (match parent with Some p => p | None => template end)
              (peertls.PublicKeyFromPrivate key)
              (match parentKey with Some _ => parentKey | None => key end)
       = Ok der
    /\ peertls.CertFromDER der = Ok c.
Proof.
  unfold peertls.NewCert. intros H.
  destruct (create _ _ _ _) as [der|e] eqn:Hcreate; [|discriminate].
  destruct (peertls.CertFromDER der) as [c|e] eqn:Hparse; [|discriminate].
  inversion H; subst. eauto.
Qed.

(** X26.  [NewIdentity] never panics, and an identity it returns belongs
    to the authority: it has the authority's ID, certificate and rest
    chain and the freshly generated key; its leaf certificate was created
    from the leaf template for the public half of that key and signed
    with the authority's key (with the new key itself if the authority
    has none), and carries the signed extension exactly when the
    authority has a non-empty rest chain. *)
Theorem NewIdentity_outcome (ca : FullCertificateAuthority)
        (gen : result ecdsa_PrivateKey) :
  (exists r, NewIdentity ca gen = Go.Returns r)
  /\ forall fi,
       NewIdentity ca gen = Go.Returns (Some fi, None) ->
       exists leafKey leafTemplate der leaf,
         gen = Ok leafKey /\ LeafTemplate = Ok leafTemplate
         /\ x509_CreateCertificate
              leafTemplate
              (match CA_Cert ca with Some p => p | None => leafTemplate end)
              (peertls.PublicKeyFromPrivate (Some leafKey))
              (match CA_Key ca with Some k => Some k | None => Some leafKey end)
            = Ok der
         /\ peertls.CertFromDER der = Ok leaf
         /\ FI_ID fi = CA_ID ca /\ FI_CA fi = CA_Cert ca
         /\ FI_RestChain fi = CA_RestChain ca /\ FI_Key fi = Some leafKey
         /\ FI_Leaf fi
            = Some (match Go.elems (CA_RestChain ca) with
                    | [] => leaf
                    | _ :: _ => fst (AddSignedCertExt (CA_Key ca) leaf)
                    end).
Proof.
  unfold NewIdentity.
  destruct LeafTemplate as [leafTemplate|e]; [|split; [eauto|discriminate]].
  destruct gen as [leafKey|e]; [|split; [eauto|discriminate]].
  destruct (peertls.NewCert x509_CreateCertificate (Some leafKey) (CA_Key ca)
                            leafTemplate (CA_Cert ca)) as [leafCert [e|]] eqn:Hnew;
    [split; [eauto|discriminate]|].
  destruct (NewCert_cert _ _ _ _ _ _ Hnew) as (leaf & der & -> & Hcreate & Hparse).
  assert (Hkey : match CA_Key ca with Some _ => CA_Key ca | None => Some leafKey end
                 = match CA_Key ca with Some k => Some k | None => Some leafKey end)
    by (destruct (CA_Key ca); reflexivity).
  rewrite Hkey in Hcreate.
  destruct (CA_RestChain ca) as [[|r rest]|] eqn:Hrest; cbn.
  - split; [eauto|]. intros fi H. inversion H; subst; clear H. cbn.
    exists leafKey, leafTemplate, der, leaf. auto 10.
  - destruct (AddSignedCertExt (CA_Key ca) leaf) as [cert' [e|]] eqn:Hext.
    + split; [eauto|discriminate].
    + split; [eauto|]. intros fi H. inversion H; subst; clear H. cbn.
      exists leafKey, leafTemplate, der, leaf. rewrite Hext. cbn. auto 10.
  - split; [eauto|]. intros fi H. inversion H; subst; clear H. cbn.
    exists leafKey, leafTemplate, der, leaf. auto 10.
Qed.

End NewIdentity_properties.

(** ** Writing a chain *)

Section WriteChain_properties.
Context {W : Type} `{PW : peertls.PEM W}.
Import peertls.

(** What [WriteChain] hands to the writer: each certificate, followed by
    its extensions. *)
Definition block : Type := (Certificate + Extension)%type.

Definition blocks_of (chain : list Certificate) : list block :=
  flat_map (fun c => inl c :: map inr (ExtraExtensions c)) chain.

Definition write_block (b : block) (w : W) : W * option error :=
  match b with
  | inl c => WriteCertPEM c w
  | inr e => WritePKIXExtensionPEM e w
  end.

(** Writing every block, whatever happens, and keeping the errors. *)
Fixpoint write_blocks (bs : list block) (w : W) : W * list error :=
  match bs with
  | [] => (w, [])
  | b :: rest =>
      let (w1, err) := write_block b w in
      let (w2, errs) := write_blocks rest w1 in
      (w2, match err with Some e => e :: errs | None => errs end)
  end.

Lemma write_blocks_app (a b : list block) (w : W) :
  write_blocks (a ++ b) w
  = let (w1, e1) := write_blocks a w in
    let (w2, e2) := write_blocks b w1 in (w2, e1 ++ e2).
Proof.
  revert w. induction a as [|x a IH]; intros w; simpl.
  - destruct (write_blocks b w). reflexivity.
  - destruct (write_block x w) as [w1 err]. rewrite IH.
    destruct (write_blocks a w1) as [w2 e1].
    destruct (write_blocks b w2) as [w3 e2].
    destruct err; reflexivity.
Qed.

Lemma WriteChain_extensions_blocks (exts : list Extension) :
  forall (extErrs : list error) (w : W),
  WriteChain_extensions exts extErrs w
  = let (w', errs) := write_blocks (map inr exts) w in (w', extErrs ++ errs).
Proof.
  induction exts as [|e exts IH]; intros extErrs w; simpl.
  - rewrite app_nil_r. reflexivity.
  - destruct (WritePKIXExtensionPEM e w) as [w1 [err|]]; rewrite IH;
      destruct (write_blocks (map inr exts) w1) as [w2 errs];
      [rewrite <- app_assoc|]; reflexivity.
Qed.

Lemma WriteChain_loop_blocks (chain : list Certificate) :
  (forall c w, In c chain -> snd (WriteCertPEM c w) = None) ->
  forall (extErrs : list error) (w : W),
  WriteChain_loop chain extErrs w
  = let (w', errs) := write_blocks (blocks_of chain) w in
    (w', ErrorGroup_Finish (extErrs ++ errs)).
Proof.
  induction chain as [|c chain IH]; intros Hok extErrs w.
  - simpl. rewrite app_nil_r. reflexivity.
  - cbn [WriteChain_loop blocks_of flat_map]. fold (blocks_of chain).
    cbn [app write_blocks write_block].
    pose proof (Hok c w (or_introl eq_refl)) as Hc.
    destruct (WriteCertPEM c w) as [w1 err]. simpl in Hc. subst err.
    rewrite write_blocks_app, WriteChain_extensions_blocks.
    destruct (write_blocks (map inr (ExtraExtensions c)) w1) as [w2 e1].
    rewrite IH by (intros c' w' Hin; apply Hok; right; exact Hin).
    destruct (write_blocks (blocks_of chain) w2) as [w3 e2].
    rewrite <- app_assoc. reflexivity.
Qed.

(** X27.  When no certificate of a non-empty chain fails to be written,
    [WriteChain] writes every certificate, each followed by its
    extensions, in the order of the chain; an extension that fails to be
    written does not stop it, and what it returns is the group of these
    failures. *)
Theorem WriteChain_writes_every_block
        (chain : list Certificate) (w : W)
        (Hnonempty : chain <> [])
        (Hcerts : forall c w, In c chain -> snd (WriteCertPEM c w) = None) :
  WriteChain chain w
  = let (w', errs) := write_blocks (blocks_of chain) w in
    (w', ErrorGroup_Finish errs).
Proof.
  unfold WriteChain.
  destruct chain as [|c chain]; [contradiction|].
  change ((List.length (c :: chain) <? 1)%nat) with false. cbv iota.
  rewrite (WriteChain_loop_blocks (c :: chain) Hcerts). reflexivity.
Qed.

Lemma WriteChain_loop_stops (before : list Certificate) :
  (forall c w, In c before -> snd (WriteCertPEM c w) = None) ->
  forall (c : Certificate) (after : list Certificate)
         (extErrs : list error) (w w2 : W) (err : error),
  WriteCertPEM c (fst (write_blocks (blocks_of before) w)) = (w2, Some err) ->
  WriteChain_loop (before ++ c :: after) extErrs w = (w2, Some err).
Proof.
  induction before as [|b before IH]; intros Hok c after extErrs w w2 err Hfail.
  - simpl in *. rewrite Hfail. reflexivity.
  - cbn [app WriteChain_loop].
    cbn [blocks_of flat_map app write_blocks write_block] in Hfail.
    fold (blocks_of before) in Hfail.
    pose proof (Hok b w (or_introl eq_refl)) as Hb.
    destruct (WriteCertPEM b w) as [w1 e]. simpl in Hb. subst e.
    rewrite write_blocks_app in Hfail.
    rewrite WriteChain_extensions_blocks.
    destruct (write_blocks (map inr (ExtraExtensions b)) w1) as [w1' e1].
    apply IH.
    + intros c' w' Hin. apply Hok. right. exact Hin.
    + destruct (write_blocks (blocks_of before) w1') as [w3 e2]. exact Hfail.
Qed.

(** X28.  The first certificate that fails to be written ends
    [WriteChain]: nothing after it is written, not even its own
    extensions, the error of the write is what is returned, and the
    failures of extensions written before it are not reported. *)
Theorem WriteChain_stops_at_failed_certificate
        (before : list Certificate) (c : Certificate) (after : list Certificate)
        (w w2 : W) (err : error)
        (Hbefore : forall c w, In c before -> snd (WriteCertPEM c w) = None)
        (Hfail : WriteCertPEM c (fst (write_blocks (blocks_of before) w))
                 = (w2, Some err)) :
  WriteChain (before ++ c :: after) w = (w2, Some err).
Proof.
  unfold WriteChain.
  assert (Hlen : (List.length (before ++ c :: after) <? 1)%nat = false).
  { apply Nat.ltb_ge. rewrite length_app. simpl. lia. }
  rewrite Hlen. apply WriteChain_loop_stops; assumption.
Qed.

End WriteChain_properties.

(** ** The batch generator of cmd/identity *)

Section cmdKeyGenerate_properties.
Context {F : Type} `{I : identity.Env} `{E : cmd_identity.Env F}.
Import identity cmd_identity.
Variable cfg : keyCfg.

Lemma keygen_never_done k id pc (sh sh' : keygen_shared F) r :
  keygen_found_step cfg k id pc sh = Some (sh', inr r) -> fst r = false.
Proof.
  destruct pc as [|filename data]; simpl.
  - destruct (PrivateKeyToPKCS8 k); [|intros H; inversion H; reflexivity].
    destruct (Difficulty id); intros H; inversion H; reflexivity.
  - destruct (WriteFile _ _ _). intros H; inversion H; reflexivity.
Qed.

(** X29.  [cmdKeyGenerate] returns at once with the error of
    [os.MkdirAll] when the output directory cannot be made; once its
    workers run, it never returns nil, whatever they find and however
    they interleave: its callback never reports that it is done. *)
Theorem cmdKeyGenerate_never_succeeds
        (ctx0 : option ctx_error) (files : F) :
  (forall files' err,
      MkdirAll (OutputDir cfg) files = (files', Some err) ->
      cmdKeyGenerate_start cfg ctx0 files = inl (files', Some err))
  /\ (forall s0 evs s,
         cmdKeyGenerate_start cfg ctx0 files = inr (Go.Returns s0) ->
         cmdKeyGenerate_run cfg evs s0 = Some s ->
         returned s <> Some None).
Proof.
  split.
  - intros files' err Hmk. unfold cmdKeyGenerate_start. rewrite Hmk. reflexivity.
  - intros s0 evs s Hstart Hrun. unfold cmdKeyGenerate_start in Hstart.
    destruct (MkdirAll (OutputDir cfg) files) as [files' [err|]]; [discriminate|].
    unfold GenerateKeys_start in Hstart.
    destruct (Concurrency cfg <? 0); [discriminate|].
    inversion Hstart; subst s0; clear Hstart.
    unfold cmdKeyGenerate_run in Hrun.
    destruct (run_no_nil (keygen_found cfg) _ evs _ _ Hrun) as [(Hret & _)|Hin].
    + repeat split; simpl; try discriminate; auto.
      apply Forall_forall. intros x Hx. apply repeat_spec in Hx. subst x. discriminate.
    + exact Hret.
    + exfalso. unfold collect in Hin. apply in_flat_map in Hin.
      destruct Hin as ([s1 ev] & _ & Hin).
      destruct (callback_returned (keygen_found cfg) (s1, ev)) as [r|] eqn:Hcb;
        [|contradiction].
      destruct Hin as [Hr|[]]. subst r.
      unfold callback_returned in Hcb. destruct ev as [|i gen|]; try discriminate.
      destruct (nth_error (workers s1) i) as [w|]; [|discriminate].
      destruct w; try discriminate.
      cbn [cb_step keygen_found] in Hcb.
      match type of Hcb with
      | context [keygen_found_step ?c ?k ?id ?pc ?sh] =>
          destruct (keygen_found_step c k id pc sh) as [[sh' [pc'|r]]|] eqn:Hstep
      end; try discriminate.
      inversion Hcb; subst r. apply keygen_never_done in Hstep. discriminate.
Qed.

(** The file name a step of the callback makes, with the value it got
    from the counter, if the step is the one that makes the name. *)
Definition named (se : system (keygen_shared F) keygen_pc * event)
  : option (string * Z) :=
  match se with
  | (s, Worker i _) =>
      match nth_error (workers s) i with
      | Some (InCallback k id pc) =>
          match keygen_found_step cfg k id pc (shared s) with
          | Some (sh, inl (KgWrite filename _)) => Some (filename, kg_counter sh)
          | _ => None
          end
      | _ => None
      end
  | _ => None
  end.

Lemma keygen_step_counter k id pc (sh sh' : keygen_shared F) r :
  keygen_found_step cfg k id pc sh = Some (sh', r) ->
  match r with
  | inl (KgWrite filename _) =>
      kg_counter sh' = (kg_counter sh + 1) mod 2 ^ 32
      /\ exists difficulty, filename = key_filename difficulty (kg_counter sh')
  | _ => kg_counter sh' = kg_counter sh
  end.
Proof.
  destruct pc as [|filename data]; simpl.
  - destruct (PrivateKeyToPKCS8 k) as [data|e];
      [|intros H; inversion H; reflexivity].
    destruct (Difficulty id) as [difficulty|e]; intros H; inversion H; subst; simpl.
    + split; [reflexivity|]. exists difficulty. reflexivity.
    + reflexivity.
  - destruct (WriteFile _ _ _). intros H; inversion H; reflexivity.
Qed.

Lemma step_counter ev (s s' : system (keygen_shared F) keygen_pc) :
  step (keygen_found cfg) (uint16_of_int (MinDifficulty cfg)) ev s = Some s' ->
  match named (s, ev) with
  | Some (filename, n) =>
      n = (kg_counter (shared s) + 1) mod 2 ^ 32
      /\ kg_counter (shared s') = n
      /\ exists difficulty, filename = key_filename difficulty n
  | None => kg_counter (shared s') = kg_counter (shared s)
  end.
Proof.
  intros Hstep. destruct ev as [r|i gen|]; simpl in Hstep.
  - unfold cancel_step in Hstep. inversion Hstep; subst. reflexivity.
  - destruct (worker_step_inv (keygen_found cfg) _ _ _ _ _ Hstep)
      as (w & w' & sh & ch & Hw & Hm & ->).
    change (cb_pc (keygen_found cfg)) with keygen_pc in *.
    unfold named. rewrite Hw. cbn [shared].
    inversion Hm; subst; change (cb_pc (keygen_found cfg)) with keygen_pc in *;
      try reflexivity;
      match goal with
      | H : cb_step _ _ _ _ _ = Some _ |- _ =>
          cbn [cb_step keygen_found] in H; rewrite H;
          apply keygen_step_counter in H
      end; try assumption.
    destruct pc' as [|filename data]; [assumption|].
    destruct H as [Hn [difficulty Hname]]. rewrite <- Hn. eauto.
  - unfold receive_step in Hstep.
    change (cb_pc (keygen_found cfg)) with keygen_pc in *.
    destruct (returned s), (errchan s); try discriminate.
    inversion Hstep; subst. reflexivity.
Qed.

Lemma NoDup_map_of_nat (l : list nat) : NoDup l -> NoDup (map Z.of_nat l).
Proof.
  induction 1 as [|x l Hx Hl IH]; simpl; constructor; [|exact IH].
  intros Hin. apply in_map_iff in Hin. destruct Hin as (y & Hy & Hin).
  apply Nat2Z.inj in Hy. subst y. contradiction.
Qed.

Lemma run_numbers evs : forall (s s' : system (keygen_shared F) keygen_pc),
  run (keygen_found cfg) (uint16_of_int (MinDifficulty cfg)) evs s = Some s' ->
  0 <= kg_counter (shared s) ->
  kg_counter (shared s) + Z.of_nat (List.length evs) < 2 ^ 32 ->
  let names := collect named
                 (history (keygen_found cfg) (uint16_of_int (MinDifficulty cfg)) evs s) in
  (List.length names <= List.length evs)%nat
  /\ map snd names
     = map (fun j => kg_counter (shared s) + Z.of_nat j) (seq 1 (List.length names))
  /\ kg_counter (shared s') = kg_counter (shared s) + Z.of_nat (List.length names)
  /\ Forall (fun p => exists difficulty, fst p = key_filename difficulty (snd p)) names.
Proof.
  induction evs as [|ev evs IH]; intros s s'; cbn [run history].
  - intros H _ _. inversion H; subst. cbn. repeat split; try lia; constructor.
  - destruct (step (keygen_found cfg) (uint16_of_int (MinDifficulty cfg)) ev s)
      as [s1|] eqn:Hstep; [|discriminate].
    intros Hrun H0 Hbound. cbn [List.length] in Hbound.
    pose proof (step_counter _ _ _ Hstep) as Hc.
    change (cb_pc (keygen_found cfg)) with keygen_pc in *.
    unfold collect in *. cbn [flat_map].
    destruct (named (s, ev)) as [[filename n]|].
    + destruct Hc as (Hn & Hs1 & Hname).
      rewrite Z.mod_small in Hn by lia.
      destruct (IH _ _ Hrun) as (Hlen & Hmap & Hfin & Hall); [lia|lia|].
      cbn [app List.length map seq snd]. repeat split.
      * lia.
      * rewrite Hmap, <- (seq_shift _ 1), map_map. f_equal; [lia|].
        apply map_ext. intros j. lia.
      * rewrite Hfin. lia.
      * constructor; assumption.
    + destruct (IH _ _ Hrun) as (Hlen & Hmap & Hfin & Hall); [lia|lia|].
      cbn [app List.length]. rewrite <- Hc. repeat split; try assumption. lia.
Qed.

(** X30.  The counter numbers the key files: as long as fewer than 2^32
    steps were taken, the names made so far carry the numbers 1, 2, 3, ...
    in the order in which they were made, so no two of them carry the
    same number, however the workers interleave; and the counter is the
    number of names made. *)
Theorem cmdKeyGenerate_numbers_files
        (ctx0 : option ctx_error) (files : F)
        (s0 s : system (keygen_shared F) keygen_pc) (evs : list event)
        (Hstart : cmdKeyGenerate_start cfg ctx0 files = inr (Go.Returns s0))
        (Hrun : cmdKeyGenerate_run cfg evs s0 = Some s)
        (Hfew : Z.of_nat (List.length evs) < 2 ^ 32) :
  let names := collect named
                 (history (keygen_found cfg) (uint16_of_int (MinDifficulty cfg)) evs s0) in
  map snd names = map Z.of_nat (seq 1 (List.length names))
  /\ NoDup (map snd names)
  /\ kg_counter (shared s) = Z.of_nat (List.length names)
  /\ Forall (fun p => exists difficulty, fst p = key_filename difficulty (snd p)) names.
Proof.
  unfold cmdKeyGenerate_start in Hstart.
  destruct (MkdirAll (OutputDir cfg) files) as [files' [err|]]; [discriminate|].
  unfold GenerateKeys_start in Hstart.
  destruct (Concurrency cfg <? 0); [discriminate|].
  inversion Hstart; subst s0; clear Hstart.
  unfold cmdKeyGenerate_run in Hrun.
  change (cb_pc (keygen_found cfg)) with keygen_pc in *.
  destruct (run_numbers evs _ _ Hrun) as (Hlen & Hmap & Hfin & Hall);
    [cbn; lia|cbn; lia|].
  cbn [shared kg_counter] in Hmap, Hfin.
  intros names. fold names in Hlen, Hmap, Hfin, Hall.
  assert (Hseq : map snd names = map Z.of_nat (seq 1 (List.length names))).
  { rewrite Hmap. apply map_ext. intros j. lia. }
  repeat split; try assumption.
  rewrite Hseq. apply NoDup_map_of_nat, seq_NoDup.
Qed.

End cmdKeyGenerate_properties.

(** ** Examples: identities, options, chains written, keys generated *)

Section FullIdentity_examples.
#[local] Existing Instance Sample.ids.
#[local] Existing Instance Sample.crypto.
#[local] Existing Instance Sample.store.
#[local] Existing Instance Sample.chains.
#[local] Existing Instance Sample.loader.
#[local] Existing Instance Sample.ca.
#[local] Existing Instance Sample.leaves.
#[local] Existing Instance Sample.pem.
#[local] Existing Instance Sample.keys.
Import identity.

(** A chain file with a leaf and its self-signed CA, and a key file. *)
Definition chain_file : Go.bytes := [x55; x01; x55; x55].
Definition key_file : Go.bytes := [x01].

Definition loaded_chain : list Certificate :=
  [Sample.cert x55 x01; Sample.cert x55 x55].

Definition loaded : FullIdentity :=
  {| FI_RestChain := Some [];
     FI_CA := Some (Sample.cert x55 x55);
     FI_Leaf := Some (Sample.cert x55 x01);
     FI_ID := fst (NodeIDFromKey (PubECDSA (Sample.pub 85)));
     FI_Key := Some (Sample.key 1) |}.

Lemma FullIdentityFromPEM_round_trip_witness :
  ChainRaw loaded = Go.Returns [[x55; x01]; [x55; x55]].
Proof.
  apply (proj1 (FullIdentityFromPEM_round_trip (E:=Sample.ids) (L:=Sample.loader) chain_file key_file loaded_chain loaded
                  ltac:(vm_compute; reflexivity) ltac:(vm_compute; reflexivity))).
Defined.

Lemma loaders_refuse_short_chains_witness :
  NodeIDFromPEM [x55; x55]
  = Go.Returns (NodeID_zero, New Error "no CA in identity certificate" []).
Proof.
  apply (proj1 (proj2 (loaders_refuse_short_chains (E:=Sample.ids) (L:=Sample.loader) [x55; x55] key_file
                         [Sample.cert x55 x55]
                         ltac:(vm_compute; reflexivity) ltac:(simpl; lia)))).
Defined.

Lemma loaders_agree_on_ID_witness :
  NodeIDFromPEM chain_file = Go.Returns (FI_ID loaded, None).
Proof.
  apply (proj1 (loaders_agree_on_ID (E:=Sample.ids) (L:=Sample.loader) chain_file key_file loaded_chain loaded
                  ltac:(vm_compute; reflexivity) ltac:(vm_compute; reflexivity))).
Defined.

Lemma verifyIdentity_cases_witness :
  verifyIdentity (W:=Sample.calls) (FI_ID loaded) [] [loaded_chain] []
  = ([], Go.Returns None).
Proof.
  apply (proj2 (proj2 (verifyIdentity_cases (W:=Sample.calls) (E:=Sample.ids) (L:=Sample.loader)
                         NodeID_zero [] [] (Sample.cert x55 x01) (Sample.cert x55 x55)
                         [] [] (FI_ID loaded) ltac:(vm_compute; reflexivity)))).
Defined.

Lemma TLS_options_never_fail_witness :
  exists cfg,
    ServerOption (W:=Sample.calls) loaded [] = Go.Returns (Some cfg, None)
    /\ ClientAuth cfg = RequireAnyClientCert.
Proof.
  destruct (proj2 (TLS_options_never_fail (W:=Sample.calls) loaded NodeID_zero [])
                  (Sample.cert x55 x01) (Sample.cert x55 x55) eq_refl eq_refl)
    as [Hserver _].
  eexists. split; [exact Hserver|reflexivity].
Defined.

Lemma ServerOption_checks_chain_first_witness :
  exists verify : @peertls.PeerCertVerificationFunc Sample.calls,
    forall e,
      peertls.verifyChainSignatures [Sample.cert x01 x02; Sample.cert x03 x03] = Some e ->
      verify [[x01; x02]; [x03; x03]] [] []
      = ([], Go.Returns (Some (Classed peertls.ErrVerifyPeerCert e))).
Proof.
  eassert (Hopt : ServerOption (W:=Sample.calls) loaded
                    [Some (named_verifier "a" None)]
                  = Go.Returns (Some _, None)) by reflexivity.
  assert (Hparse : peertls.CertsFromDER [[x01; x02]; [x03; x03]]
                   = Ok [Sample.cert x01 x02; Sample.cert x03 x03]) by reflexivity.
  destruct (ServerOption_checks_chain_first (W:=Sample.calls)
              (C:=Sample.crypto) (K:=Sample.chains)
              loaded [Some (named_verifier "a" None)] _
              [[x01; x02]; [x03; x03]] [] []
              [Sample.cert x01 x02; Sample.cert x03 x03] Hopt Hparse)
    as (verify & _ & Hbad & _).
  exists verify. exact Hbad.
Defined.

Lemma DialOption_admits_witness :
  exists verify : @peertls.PeerCertVerificationFunc Sample.calls,
    verify [[x55; x01]; [x55; x55]] [] [] = ([], Go.Returns None)
    <-> peertls.verifyChainSignatures loaded_chain = None
        /\ (FI_ID loaded = NodeID_zero
            \/ NodeID_String (FI_ID loaded) = NodeID_String (FI_ID loaded)).
Proof.
  eassert (Hopt : DialOption (W:=Sample.calls) loaded (FI_ID loaded)
                  = Go.Returns (Some _, None)) by reflexivity.
  assert (Hparse : peertls.CertsFromDER [[x55; x01]; [x55; x55]]
                   = Ok [Sample.cert x55 x01; Sample.cert x55 x55]) by reflexivity.
  destruct (DialOption_admits (W:=Sample.calls) (E:=Sample.ids) (L:=Sample.loader)
              (C:=Sample.crypto) (K:=Sample.chains) loaded (FI_ID loaded) _
              [[x55; x01]; [x55; x55]] [] []
              (Sample.cert x55 x01) (Sample.cert x55 x55) [] (FI_ID loaded)
              Hopt Hparse ltac:(vm_compute; reflexivity))
    as (verify & _ & Hiff).
  exists verify. exact Hiff.
Defined.

Definition authority : FullCertificateAuthority :=
  {| CA_RestChain := Some [Sample.cert x77 x77];
     CA_Cert := Some (Sample.cert x55 x55);
     CA_ID := FI_ID loaded;
     CA_Key := Some (Sample.key 85) |}.

Lemma NewIdentity_outcome_witness :
  exists fi,
    NewIdentity authority (Ok (Sample.key 1)) = Go.Returns (Some fi, None)
    /\ FI_ID fi = CA_ID authority /\ FI_Key fi = Some (Sample.key 1).
Proof.
  eexists. split; [vm_compute; reflexivity|].
  destruct (proj2 (NewIdentity_outcome (C:=Sample.crypto) (CE:=Sample.ca) (LE:=Sample.leaves) authority (Ok (Sample.key 1))) _
                  ltac:(vm_compute; reflexivity))
    as (leafKey & leafTemplate & der & leaf & Hgen & _ & _ & _ & Hid & _ & _ & Hkey & _).
  inversion Hgen; subst leafKey. split; [exact Hid|exact Hkey].
Defined.

(** A certificate with one extension that can be written, one whose
    extension cannot, and one that cannot be written itself. *)
Definition extended : Certificate :=
  {| Raw := [x01; x02; x03]; PublicKey := PubECDSA (Sample.pub 2) |}.
Definition bad_extension : Certificate :=
  {| Raw := [x01; x02; xff]; PublicKey := PubECDSA (Sample.pub 2) |}.
Definition unwritable : Certificate :=
  {| Raw := []; PublicKey := PubECDSA (Sample.pub 2) |}.

Lemma WriteChain_writes_every_block_witness :
  peertls.WriteChain [extended; bad_extension; Sample.cert x01 x01] []
  = (["CERTIFICATE"; "PKIX EXTENSION"; "CERTIFICATE"; "CERTIFICATE"]%string,
     Some (Opaque "pem: bad extension")).
Proof.
  assert (Hcerts : forall c (w : Sample.block_writer),
             In c [extended; bad_extension; Sample.cert x01 x01] ->
             snd (peertls.WriteCertPEM c w) = None)
    by (intros c w [<- | [<- | [<- | []]]]; reflexivity).
  exact (WriteChain_writes_every_block (W:=Sample.block_writer) (PW:=Sample.pem)
           [extended; bad_extension; Sample.cert x01 x01] []
           ltac:(discriminate) Hcerts).
Defined.

Lemma WriteChain_stops_at_failed_certificate_witness :
  peertls.WriteChain ([bad_extension] ++ unwritable :: [Sample.cert x01 x01]) []
  = (["CERTIFICATE"]%string, Some (Opaque "pem: empty certificate")).
Proof.
  assert (Hbefore : forall c (w : Sample.block_writer),
             In c [bad_extension] -> snd (peertls.WriteCertPEM c w) = None)
    by (intros c w [<- | []]; reflexivity).
  exact (WriteChain_stops_at_failed_certificate (W:=Sample.block_writer)
           (PW:=Sample.pem) [bad_extension] unwritable [Sample.cert x01 x01] []
           ["CERTIFICATE"%string] (Opaque "pem: empty certificate")
           Hbefore eq_refl).
Defined.

Definition read_only : cmd_identity.keyCfg :=
  {| cmd_identity.MinDifficulty := 2; cmd_identity.Concurrency := 1;
     cmd_identity.OutputDir := "/ro" |}.

Definition batch : cmd_identity.keyCfg :=
  {| cmd_identity.MinDifficulty := 2; cmd_identity.Concurrency := 2;
     cmd_identity.OutputDir := "out" |}.

(** Two workers find a key each; both take their number before either
    writes its file. *)
Definition two_finds : list event :=
  [Worker 0 idle; Worker 1 idle;
   Worker 0 (Ok (Sample.key 1)); Worker 1 (Ok (Sample.key 85));
   Worker 1 idle; Worker 0 idle;
   Worker 0 idle; Worker 1 idle].

Lemma cmdKeyGenerate_never_succeeds_witness :
  cmd_identity.cmdKeyGenerate_start read_only None ([] : Sample.files)
  = inl ([], Some (Opaque "mkdir /ro: read-only file system")).
Proof.
  apply (proj1 (cmdKeyGenerate_never_succeeds read_only None ([] : Sample.files))).
  reflexivity.
Defined.

Lemma cmdKeyGenerate_numbers_files_witness :
  exists s0 s,
    cmd_identity.cmdKeyGenerate_start batch None ([] : Sample.files)
    = inr (Go.Returns s0)
    /\ cmd_identity.cmdKeyGenerate_run batch two_finds s0 = Some s
    /\ cmd_identity.kg_counter (shared s) = 2
    /\ NoDup (map snd (collect (named batch)
                         (history (cmd_identity.keygen_found batch)
                            (cmd_identity.uint16_of_int
                               (cmd_identity.MinDifficulty batch))
                            two_finds s0))).
Proof.
  eassert (Hstart : cmd_identity.cmdKeyGenerate_start batch None ([] : Sample.files)
                    = inr (Go.Returns _)) by reflexivity.
  match type of Hstart with
  | _ = inr (Go.Returns ?s0) =>
      eassert (Hrun : cmd_identity.cmdKeyGenerate_run batch two_finds s0 = Some _)
        by (vm_compute; reflexivity)
  end.
  assert (Hfew : Z.of_nat (List.length two_finds) < 2 ^ 32) by (vm_compute; reflexivity).
  destruct (cmdKeyGenerate_numbers_files (F:=Sample.files) (I:=Sample.ids)
              (E:=Sample.keys) batch None [] _ _ two_finds Hstart Hrun Hfew)
    as (_ & Hdistinct & _ & _).
  eexists. eexists.
  split; [exact Hstart|].
  split; [exact Hrun|].
  split; [reflexivity|exact Hdistinct].
Defined.

Lemma GenerateKeys_without_workers_witness :
  GenerateKeys_start (cmd_identity.keygen_found batch) None (-1)
    {| cmd_identity.kg_counter := 0; cmd_identity.kg_files := ([] : Sample.files);
       cmd_identity.kg_stdout := [] |}
  = Go.Panics Go.MakeChanSizeOutOfRange.
Proof.
  apply (proj1 (GenerateKeys_without_workers (cmd_identity.keygen_found batch) 2 None _)).
  lia.
Defined.

Lemma VerifyUnrevokedChainFunc_edges_witness :
  peertls.VerifyUnrevokedChainFunc (W:=Sample.calls) None [] [[Sample.cert x01 x01]] []
  = ([], Go.Panics Go.IndexOutOfRange).
Proof.
  apply (proj1 (VerifyUnrevokedChainFunc_edges (W:=Sample.calls) (R:=Sample.store)
                  None [] [])
               [[Sample.cert x01 x01]]).
  unfold peertls.CAIndex. simpl. lia.
Defined.

End FullIdentity_examples.
